(** * Bokang_RAG: the conversation-state graph of [src/qa.js]

    A shallow embedding of the Redis store adapter, the sanitisation
    applied before storage and the five-node LangGraph pipeline
    (hydrate -> ingest -> rag -> summarize -> persist), together with the
    JavaScript built-ins they rely on ([String.prototype.replace] with the
    reasoning-markup pattern, [JSON.stringify], [JSON.parse],
    [Buffer.byteLength]).

    JavaScript strings are sequences of UTF-16 code units; they are
    modelled as lists of [N].  JavaScript numbers are restricted to
    integers ([Z]); the non-finite numbers appear only where the code
    tests for them. *)

From Stdlib Require Import String Ascii.
From Stdlib Require Import List ZArith NArith Lia Bool.
From Stdlib Require Import DecimalFacts DecimalPos DecimalN.
Import ListNotations.

Set Implicit Arguments.

(* ================================================================= *)
(** ** JavaScript strings *)

Abbreviation jsstring := (list N).

(** An ASCII literal as a sequence of code units. *)
Definition lit (s : string) : jsstring :=
  map N_of_ascii (list_ascii_of_string s).

Fixpoint jsstring_eqb (a b : jsstring) : bool :=
  match a, b with
  | [], [] => true
  | x :: a', y :: b' => N.eqb x y && jsstring_eqb a' b'
  | _, _ => false
  end.

(* ================================================================= *)
(** ** The reasoning-markup pattern

    [content.replace(/<think>[\s\S]*?<\/think>\s*/gi, "")]           *)

Module Think.

(** The class [\s] of ECMAScript: WhiteSpace and LineTerminator. *)
Definition is_space (c : N) : bool :=
  ((9 <=? c) && (c <=? 13) || (c =? 32) || (c =? 160) || (c =? 5760)
   || ((8192 <=? c) && (c <=? 8202)) || (c =? 8232) || (c =? 8233)
   || (c =? 8239) || (c =? 8287) || (c =? 12288) || (c =? 65279))%N.

(** Matching one pattern character under the [i] flag (no [u] flag):
    both sides are canonicalised with [toUpperCase], and a code unit of
    128 or above never canonicalises into ASCII.  For the characters of
    the pattern this leaves the character itself and, for a lower-case
    letter, its upper-case form. *)
Definition ci_eq (p c : N) : bool :=
  ((c =? p) || ((97 <=? p) && (p <=? 122) && (c =? p - 32)))%N.

(** [ci_prefix pat s]: [pat] matches at the head of [s]; the rest of
    [s] is returned. *)
Fixpoint ci_prefix (pat s : jsstring) : option jsstring :=
  match pat with
  | [] => Some s
  | p :: pat' =>
      match s with
      | [] => None
      | c :: s' => if ci_eq p c then ci_prefix pat' s' else None
      end
  end.

Definition open_tag : jsstring := lit "<think>".
Definition close_tag : jsstring := lit "</think>".

(** [[\s\S]*?<\/think>]: the lazy star stops at the first closing tag;
    what follows the tag is returned. *)
Fixpoint find_close (s : jsstring) : option jsstring :=
  match ci_prefix close_tag s with
  | Some r => Some r
  | None =>
      match s with
      | [] => None
      | _ :: s' => find_close s'
      end
  end.

(** [\s*]: greedy, cannot fail. *)
Fixpoint drop_spaces (s : jsstring) : jsstring :=
  match s with
  | c :: s' => if is_space c then drop_spaces s' else s
  | [] => []
  end.

(** One attempt of the whole pattern at the head of [s]. *)
Definition match_at (s : jsstring) : option jsstring :=
  match ci_prefix open_tag s with
  | None => None
  | Some body =>
      match find_close body with
      | None => None
      | Some r => Some (drop_spaces r)
      end
  end.

(** The global replace: scan left to right, drop each match and resume
    right after it.  The fuel bounds the number of steps; [length s]
    steps always suffice (lemma [replace_fuel_enough]). *)
Fixpoint replace_fuel (fuel : nat) (s : jsstring) : jsstring :=
  match fuel with
  | O => s
  | S fuel' =>
      match match_at s with
      | Some r => replace_fuel fuel' r
      | None =>
          match s with
          | [] => []
          | c :: s' => c :: replace_fuel fuel' s'
          end
      end
  end.

Definition replace_think (s : jsstring) : jsstring :=
  replace_fuel (length s) s.

(** A string has a segment when the pattern matches somewhere. *)
Definition has_segment (s : jsstring) : Prop :=
  exists i, match_at (skipn i s) <> None.

Fixpoint has_segmentb (s : jsstring) : bool :=
  match match_at s with
  | Some _ => true
  | None => match s with [] => false | _ :: s' => has_segmentb s' end
  end.

(** [o] is the tag [pat] up to the case of its letters. *)
Definition is_tag (pat o : jsstring) : Prop :=
  Forall2 (fun p c => ci_eq p c = true) pat o.

(** One match of the pattern: an opening tag, a body, a closing tag and
    the white space that follows it. *)
Definition think_match (seg : jsstring) : Prop :=
  exists o body c ws,
    seg = o ++ body ++ c ++ ws
    /\ is_tag open_tag o /\ is_tag close_tag c
    /\ Forall (fun x => is_space x = true) ws.

(** [removes_matches s s']: [s'] is [s] without some of its matches,
    everything else kept in place. *)
Inductive removes_matches : jsstring -> jsstring -> Prop :=
| removes_nil : removes_matches [] []
| removes_keep c s s' :
    removes_matches s s' -> removes_matches (c :: s) (c :: s')
| removes_drop seg s s' :
    think_match seg -> removes_matches s s' -> removes_matches (seg ++ s) s'.

End Think.


(* ================================================================= *)
(** ** JavaScript values

    The values that reach [JSON.stringify]: primitives, arrays and plain
    objects.  An object is the list of its own enumerable properties in
    enumeration order. *)

Unset Elimination Schemes.

Inductive jsval : Type :=
| JUndefined
| JNull
| JBool (b : bool)
| JNum (z : Z)
| JStr (s : jsstring)
| JArr (items : list jsval)
| JObj (props : list (jsstring * jsval)).

Set Elimination Schemes.

Abbreviation object := (list (jsstring * jsval)).

(** Induction on a value reaches the elements of an array and the
    property values of an object. *)
Definition jsval_ind (P : jsval -> Prop)
  (Hundefined : P JUndefined) (Hnull : P JNull)
  (Hbool : forall b, P (JBool b)) (Hnum : forall z, P (JNum z))
  (Hstr : forall s, P (JStr s))
  (Harr : forall l, Forall P l -> P (JArr l))
  (Hobj : forall o, Forall (fun kv => P (snd kv)) o -> P (JObj o))
  : forall v, P v :=
  fix go (v : jsval) : P v :=
    match v with
    | JUndefined => Hundefined
    | JNull => Hnull
    | JBool b => Hbool b
    | JNum z => Hnum z
    | JStr s => Hstr s
    | JArr l =>
        Harr l ((fix all (l : list jsval) : Forall P l :=
                   match l with
                   | [] => Forall_nil P
                   | x :: l' => Forall_cons x (go x) (all l')
                   end) l)
    | JObj o =>
        Hobj o ((fix all (o : object) : Forall (fun kv => P (snd kv)) o :=
                   match o with
                   | [] => Forall_nil _
                   | kv :: o' => Forall_cons kv (go (snd kv)) (all o')
                   end) o)
    end.

Module Js.

(** Decimal digits of a natural number, most significant first
    ([Number::toString] on a non-negative integer). *)
Fixpoint uint_chars (d : Decimal.uint) : jsstring :=
  match d with
  | Decimal.Nil => []
  | Decimal.D0 d' => 48%N :: uint_chars d'
  | Decimal.D1 d' => 49%N :: uint_chars d'
  | Decimal.D2 d' => 50%N :: uint_chars d'
  | Decimal.D3 d' => 51%N :: uint_chars d'
  | Decimal.D4 d' => 52%N :: uint_chars d'
  | Decimal.D5 d' => 53%N :: uint_chars d'
  | Decimal.D6 d' => 54%N :: uint_chars d'
  | Decimal.D7 d' => 55%N :: uint_chars d'
  | Decimal.D8 d' => 56%N :: uint_chars d'
  | Decimal.D9 d' => 57%N :: uint_chars d'
  end.

Definition N_to_chars (n : N) : jsstring := uint_chars (N.to_uint n).

Definition is_digit_char (c : N) : Prop := (48 <= c <= 57)%N.

(** [Number::toString] on an integer. *)
Definition number_to_string (z : Z) : jsstring :=
  match z with
  | Z0 => N_to_chars 0
  | Zpos p => N_to_chars (Npos p)
  | Zneg p => 45%N :: N_to_chars (Npos p)
  end.

(** [ToBoolean]. *)
Definition truthy (v : jsval) : bool :=
  match v with
  | JUndefined | JNull => false
  | JBool b => b
  | JNum z => negb (Z.eqb z 0)
  | JStr s => match s with [] => false | _ => true end
  | JArr _ | JObj _ => true
  end.

(** [a ?? b]. *)
Definition nullish (v : jsval) : bool :=
  match v with JUndefined | JNull => true | _ => false end.

Definition coalesce (a b : jsval) : jsval := if nullish a then b else a.

(** [a || b]. *)
Definition or_else (a b : jsval) : jsval := if truthy a then a else b.

Fixpoint join (sep : jsstring) (l : list jsstring) : jsstring :=
  match l with
  | [] => []
  | [x] => x
  | x :: l' => x ++ sep ++ join sep l'
  end.

(** [String(v)]: [ToString], with [Array.prototype.toString] (a join on
    commas where [null] and [undefined] give the empty string) and
    [Object.prototype.toString] for plain objects. *)
Fixpoint to_string (v : jsval) : jsstring :=
  match v with
  | JUndefined => lit "undefined"
  | JNull => lit "null"
  | JBool true => lit "true"
  | JBool false => lit "false"
  | JNum z => number_to_string z
  | JStr s => s
  | JArr l =>
      join (lit ",")
        (map (fun x => if nullish x then [] else to_string x) l)
  | JObj _ => lit "[object Object]"
  end.

(** *** Own properties *)

Fixpoint obj_get (k : jsstring) (o : object) : jsval :=
  match o with
  | [] => JUndefined
  | (k', v) :: o' => if jsstring_eqb k k' then v else obj_get k o'
  end.

Fixpoint obj_has (k : jsstring) (o : object) : bool :=
  match o with
  | [] => false
  | (k', _) :: o' => jsstring_eqb k k' || obj_has k o'
  end.

(** [o[k] = v]: an existing property keeps its place, a new one goes
    last. *)
Fixpoint obj_set (k : jsstring) (v : jsval) (o : object) : object :=
  match o with
  | [] => [(k, v)]
  | (k', v') :: o' =>
      if jsstring_eqb k k' then (k, v) :: o' else (k', v') :: obj_set k v o'
  end.

(** [delete o[k]]. *)
Fixpoint obj_delete (k : jsstring) (o : object) : object :=
  match o with
  | [] => []
  | (k', v') :: o' =>
      if jsstring_eqb k k' then obj_delete k o' else (k', v') :: obj_delete k o'
  end.

Fixpoint index_from (i : N) (l : list jsval) : object :=
  match l with
  | [] => []
  | x :: l' => (N_to_chars i, x) :: index_from (N.succ i) l'
  end.

(** The own enumerable properties that a spread [{...v}] copies: those of
    an object, the indexed elements of an array, the indexed code units
    of a string, none for the other primitives. *)
Definition own_props (v : jsval) : object :=
  match v with
  | JObj o => o
  | JArr l => index_from 0 l
  | JStr s => index_from 0 (map (fun c => JStr [c]) s)
  | _ => []
  end.

(** [v.k] and [v?.k] for the property names read in [qa.js] ([data],
    [content], [additional_kwargs], [response_metadata], [messages]),
    none of which is inherited: the own property or [undefined].  On
    [undefined] and [null] only the optional form [v?.k] is used. *)
Definition get (v : jsval) (k : jsstring) : jsval := obj_get k (own_props v).

Definition is_array (v : jsval) : bool :=
  match v with JArr _ => true | _ => false end.

Definition is_string (v : jsval) : bool :=
  match v with JStr _ => true | _ => false end.

(** [typeof v === "object"]. *)
Definition typeof_object (v : jsval) : bool :=
  match v with JNull | JArr _ | JObj _ => true | _ => false end.

End Js.

(* ================================================================= *)
(** ** Exceptions

    A JavaScript function either returns or throws; an [async] function
    resolves or rejects.  Both are a [result]. *)

Inductive Error : Type :=
| SyntaxError                 (* thrown by JSON.parse *)
| Failure (msg : jsstring)    (* new Error(msg) *)
| External (code : nat)       (* raised by Redis, the retriever or the model *)
| NonInteger                  (* a JSON number with a fraction or an exponent:
                                 outside the model, no error of JavaScript *)
| OutOfFuel.                  (* the parser's step bound was too small *)

Inductive result (A : Type) : Type :=
| Ok (a : A)
| Throw (e : Error).

Arguments Ok {A} a.
Arguments Throw {A} e.

Definition bind {A B : Type} (r : result A) (k : A -> result B) : result B :=
  match r with
  | Ok a => k a
  | Throw e => Throw e
  end.

Declare Scope result_scope.
Delimit Scope result_scope with result.
Notation "x <- r ;; k" := (bind r (fun x => k))
  (at level 61, r at next level, right associativity) : result_scope.
Notation "' p <- r ;; k" := (bind r (fun x => let p := x in k))
  (at level 61, p pattern, r at next level, right associativity)
  : result_scope.
Open Scope result_scope.

(** The last [n] elements of a list. *)
Definition lastn {A : Type} (n : nat) (l : list A) : list A :=
  skipn (length l - n) l.

(* ================================================================= *)
(** ** JSON.stringify, Buffer.byteLength and JSON.parse *)

Module Json.

Import Js.

(** *** QuoteJSONString *)

Definition hexdig (n : N) : N := (if n <? 10 then 48 + n else 87 + n)%N.

(** [\uXXXX] with lower-case hexadecimal digits. *)
Definition unicode_escape (c : N) : jsstring :=
  [92; 117; hexdig ((c / 4096) mod 16); hexdig ((c / 256) mod 16);
   hexdig ((c / 16) mod 16); hexdig (c mod 16)]%N.

Definition is_high (c : N) : bool := ((55296 <=? c) && (c <=? 56319))%N.
Definition is_low (c : N) : bool := ((56320 <=? c) && (c <=? 57343))%N.

(** One code unit that is not the first half of a surrogate pair. *)
Definition escape_unit (c : N) : jsstring :=
  (if c =? 8 then [92; 98]
   else if c =? 9 then [92; 116]
   else if c =? 10 then [92; 110]
   else if c =? 12 then [92; 102]
   else if c =? 13 then [92; 114]
   else if c =? 34 then [92; 34]
   else if c =? 92 then [92; 92]
   else if c <? 32 then unicode_escape c
   else if is_high c || is_low c then unicode_escape c
   else [c])%N.

(** A surrogate pair is copied; a lone surrogate is escaped. *)
Fixpoint quote_chars (s : jsstring) : jsstring :=
  match s with
  | [] => []
  | c :: s1 =>
      if is_high c then
        match s1 with
        | d :: s2 =>
            if is_low d then c :: d :: quote_chars s2
            else unicode_escape c ++ quote_chars s1
        | [] => unicode_escape c
        end
      else escape_unit c ++ quote_chars s1
  end.

Definition quote (s : jsstring) : jsstring :=
  34%N :: quote_chars s ++ [34%N].

(** *** SerializeJSONProperty *)

Section Members.
Variable ser : jsval -> option jsstring.

(** An array element that serialises to [undefined] is written [null]. *)
Definition element (x : jsval) : jsstring :=
  match ser x with
  | Some t => t
  | None => lit "null"
  end.

(** A property whose value serialises to [undefined] is left out. *)
Fixpoint members (o : object) : list jsstring :=
  match o with
  | [] => []
  | (k, x) :: o' =>
      match ser x with
      | Some t => (quote k ++ 58%N :: t) :: members o'
      | None => members o'
      end
  end.
End Members.

(** [None] stands for the result [undefined]. *)
Fixpoint stringify (v : jsval) : option jsstring :=
  match v with
  | JUndefined => None
  | JNull => Some (lit "null")
  | JBool true => Some (lit "true")
  | JBool false => Some (lit "false")
  | JNum z => Some (number_to_string z)
  | JStr s => Some (quote s)
  | JArr l => Some (91%N :: join (lit ",") (map (element stringify) l) ++ [93%N])
  | JObj o => Some (123%N :: join (lit ",") (members stringify o) ++ [125%N])
  end.

(** *** Buffer.byteLength(string), UTF-8 *)

Fixpoint byteLength (s : jsstring) : nat :=
  match s with
  | [] => 0
  | c :: s1 =>
      if (c <? 128)%N then 1 + byteLength s1
      else if (c <? 2048)%N then 2 + byteLength s1
      else if is_high c then
        match s1 with
        | d :: s2 => if is_low d then 4 + byteLength s2 else 3 + byteLength s1
        | [] => 3
        end
      else 3 + byteLength s1
  end.

Definition ascii_only (s : jsstring) : Prop :=
  Forall (fun c => (c < 128)%N) s.

(** *** JSON.parse *)

Definition is_ws (c : N) : bool :=
  ((c =? 9) || (c =? 10) || (c =? 13) || (c =? 32))%N.

Fixpoint skip_ws (s : jsstring) : jsstring :=
  match s with
  | c :: s' => if is_ws c then skip_ws s' else s
  | [] => []
  end.

Definition hexval (c : N) : option N :=
  (if (48 <=? c) && (c <=? 57) then Some (c - 48)
   else if (97 <=? c) && (c <=? 102) then Some (c - 87)
   else if (65 <=? c) && (c <=? 70) then Some (c - 55)
   else None)%N.

Definition unescape (e : N) : option N :=
  (if e =? 34 then Some 34
   else if e =? 92 then Some 92
   else if e =? 47 then Some 47
   else if e =? 98 then Some 8
   else if e =? 102 then Some 12
   else if e =? 110 then Some 10
   else if e =? 114 then Some 13
   else if e =? 116 then Some 9
   else None)%N.

(** The characters of a string literal after its opening quote, up to
    and including the closing quote. *)
Fixpoint parse_string_chars (s : jsstring) : result (jsstring * jsstring) :=
  match s with
  | [] => Throw SyntaxError
  | c :: s1 =>
      if (c =? 34)%N then Ok ([], s1)
      else if (c =? 92)%N then
        match s1 with
        | [] => Throw SyntaxError
        | e :: s2 =>
            if (e =? 117)%N then
              match s2 with
              | h1 :: h2 :: h3 :: h4 :: s6 =>
                  match hexval h1, hexval h2, hexval h3, hexval h4 with
                  | Some a, Some b, Some c', Some d =>
                      '(t, r) <- parse_string_chars s6 ;;
                      Ok ((4096 * a + 256 * b + 16 * c' + d)%N :: t, r)
                  | _, _, _, _ => Throw SyntaxError
                  end
              | _ => Throw SyntaxError
              end
            else
              match unescape e with
              | Some u => '(t, r) <- parse_string_chars s2 ;; Ok (u :: t, r)
              | None => Throw SyntaxError
              end
        end
      else if (c <? 32)%N then Throw SyntaxError
      else '(t, r) <- parse_string_chars s1 ;; Ok (c :: t, r)
  end.

(** The parser's continuation after one decoded code unit. *)
Definition then_cons (c : N) (r : result (jsstring * jsstring))
  : result (jsstring * jsstring) :=
  bind r (fun x => let (s, rest) := x in Ok (c :: s, rest)).

Definition is_digit (c : N) : bool := ((48 <=? c) && (c <=? 57))%N.

Fixpoint take_digits (s : jsstring) : jsstring * jsstring :=
  match s with
  | c :: s' =>
      if is_digit c then let (d, r) := take_digits s' in (c :: d, r)
      else ([], s)
  | [] => ([], [])
  end.

Definition digit_cons (c : N) : Decimal.uint -> Decimal.uint :=
  (if c =? 48 then Decimal.D0 else if c =? 49 then Decimal.D1
   else if c =? 50 then Decimal.D2 else if c =? 51 then Decimal.D3
   else if c =? 52 then Decimal.D4 else if c =? 53 then Decimal.D5
   else if c =? 54 then Decimal.D6 else if c =? 55 then Decimal.D7
   else if c =? 56 then Decimal.D8 else Decimal.D9)%N.

Fixpoint chars_uint (s : jsstring) : Decimal.uint :=
  match s with
  | [] => Decimal.Nil
  | c :: s' => digit_cons c (chars_uint s')
  end.

(** The digits of the integer part: [0], or a digit from 1 to 9 followed
    by digits.  A fraction or an exponent is outside the model. *)
Definition parse_unsigned (s : jsstring) : result (N * jsstring) :=
  let (ds, r) := take_digits s in
  match ds with
  | [] => Throw SyntaxError
  | d :: ds' =>
      if (d =? 48)%N && negb (Nat.eqb (length ds') 0) then Throw SyntaxError
      else
        match r with
        | c :: _ =>
            if ((c =? 46) || (c =? 101) || (c =? 69))%N then Throw NonInteger
            else Ok (N.of_uint (chars_uint ds), r)
        | [] => Ok (N.of_uint (chars_uint ds), r)
        end
  end.

Definition parse_number (s : jsstring) : result (Z * jsstring) :=
  match s with
  | c :: s' =>
      if (c =? 45)%N then
        '(n, r) <- parse_unsigned s' ;; Ok (Z.opp (Z.of_N n), r)
      else '(n, r) <- parse_unsigned s ;; Ok (Z.of_N n, r)
  | [] => Throw SyntaxError
  end.

(** [strip_prefix p s]: [s] without its prefix [p]. *)
Fixpoint strip_prefix (p s : jsstring) : option jsstring :=
  match p with
  | [] => Some s
  | a :: p' =>
      match s with
      | c :: s' => if (a =? c)%N then strip_prefix p' s' else None
      | [] => None
      end
  end.

Definition expect (p : jsstring) (v : jsval) (s : jsstring)
  : result (jsval * jsstring) :=
  match strip_prefix p s with
  | Some r => Ok (v, r)
  | None => Throw SyntaxError
  end.

(** The parsed members become properties in order; a repeated name
    overwrites the value and keeps the first position. *)
Definition build_object (ms : object) : object :=
  fold_left (fun o kv => obj_set (fst kv) (snd kv) o) ms [].

(** Recursive descent.  [parse_value] expects its input without leading
    white space.  Every call consumes fuel; [JSON_parse] provides enough
    of it. *)
Fixpoint parse_value (fuel : nat) (s : jsstring) {struct fuel}
  : result (jsval * jsstring) :=
  match fuel with
  | O => Throw OutOfFuel
  | S fuel' =>
      match s with
      | [] => Throw SyntaxError
      | c :: s' =>
          if (c =? 123)%N then
            match skip_ws s' with
            | c1 :: r1 =>
                if (c1 =? 125)%N then Ok (JObj [], r1)
                else
                  '(ms, r) <- parse_members fuel' (c1 :: r1) ;;
                  Ok (JObj (build_object ms), r)
            | [] => Throw SyntaxError
            end
          else if (c =? 91)%N then
            match skip_ws s' with
            | c1 :: r1 =>
                if (c1 =? 93)%N then Ok (JArr [], r1)
                else
                  '(l, r) <- parse_elements fuel' (c1 :: r1) ;;
                  Ok (JArr l, r)
            | [] => Throw SyntaxError
            end
          else if (c =? 34)%N then
            '(t, r) <- parse_string_chars s' ;; Ok (JStr t, r)
          else if (c =? 116)%N then expect (lit "rue") (JBool true) s'
          else if (c =? 102)%N then expect (lit "alse") (JBool false) s'
          else if (c =? 110)%N then expect (lit "ull") JNull s'
          else '(z, r) <- parse_number s ;; Ok (JNum z, r)
      end
  end

with parse_elements (fuel : nat) (s : jsstring) {struct fuel}
  : result (list jsval * jsstring) :=
  match fuel with
  | O => Throw OutOfFuel
  | S fuel' =>
      '(v, r) <- parse_value fuel' s ;;
      match skip_ws r with
      | c :: r' =>
          if (c =? 44)%N then
            '(l, r2) <- parse_elements fuel' (skip_ws r') ;; Ok (v :: l, r2)
          else if (c =? 93)%N then Ok ([v], r')
          else Throw SyntaxError
      | [] => Throw SyntaxError
      end
  end

with parse_members (fuel : nat) (s : jsstring) {struct fuel}
  : result (object * jsstring) :=
  match fuel with
  | O => Throw OutOfFuel
  | S fuel' =>
      match s with
      | c :: s' =>
          if (c =? 34)%N then
            '(k, r) <- parse_string_chars s' ;;
            match skip_ws r with
            | c1 :: r1 =>
                if (c1 =? 58)%N then
                  '(v, r2) <- parse_value fuel' (skip_ws r1) ;;
                  match skip_ws r2 with
                  | c3 :: r3 =>
                      if (c3 =? 44)%N then
                        '(ms, r4) <- parse_members fuel' (skip_ws r3) ;;
                        Ok ((k, v) :: ms, r4)
                      else if (c3 =? 125)%N then Ok ([(k, v)], r3)
                      else Throw SyntaxError
                  | [] => Throw SyntaxError
                  end
                else Throw SyntaxError
            | [] => Throw SyntaxError
            end
          else Throw SyntaxError
      | [] => Throw SyntaxError
      end
  end.

(** [JSON.parse(text)]: one value between optional white space. *)
Definition JSON_parse (text : jsstring) : result jsval :=
  '(v, r) <- parse_value (2 * length text + 1) (skip_ws text) ;;
  match skip_ws r with
  | [] => Ok v
  | _ :: _ => Throw SyntaxError
  end.

(** What [JSON.parse (JSON.stringify v)] gives back: [undefined] becomes
    [null] in an array and disappears from an object. *)
Section Normal.
Variable nf : jsval -> jsval.

Definition normal_element (x : jsval) : jsval :=
  match x with
  | JUndefined => JNull
  | _ => nf x
  end.

Fixpoint normal_members (o : object) : object :=
  match o with
  | [] => []
  | (k, x) :: o' =>
      match x with
      | JUndefined => normal_members o'
      | _ => (k, nf x) :: normal_members o'
      end
  end.
End Normal.

Fixpoint normal (v : jsval) : jsval :=
  match v with
  | JArr l => JArr (map (normal_element normal) l)
  | JObj o => JObj (build_object (normal_members normal o))
  | _ => v
  end.

(** What may follow a value inside the text that [stringify] writes:
    the end, a comma, or a closing bracket or brace. *)
Definition ends_value (rest : jsstring) : Prop :=
  match rest with
  | [] => True
  | c :: _ => c = 44%N \/ c = 93%N \/ c = 125%N
  end.

(** The first character of a serialised value. *)
Definition value_start (c : N) : Prop :=
  is_ws c = false /\ (c =? 93)%N = false /\ (c =? 125)%N = false.

(** A value whose serialised text is read back as its normal form,
    whatever follows it. *)
Definition reads_back (v : jsval) : Prop :=
  forall t, stringify v = Some t ->
  forall fuel rest, length t < fuel -> ends_value rest ->
  parse_value fuel (t ++ rest) = Ok (normal v, rest).

(** A parser result that is not a shortage of fuel and, when it is a
    value, leaves fewer than [n] characters. *)
Definition progress (n : nat) {A : Type} (r : result (A * jsstring)) : Prop :=
  match r with
  | Ok (_, rest) => length rest < n
  | Throw e => e <> OutOfFuel
  end.

End Json.

(* ================================================================= *)
(** ** Chat messages and the message reducer

    The message classes of [@langchain/core] and [messagesStateReducer]
    of [@langchain/langgraph] are libraries that [qa.js] imports.  They
    are modelled to the extent [qa.js] depends on them: the class of a
    message, its constructor fields, its stored form, and the merge of a
    node's update into the [messages] channel. *)

Module LangChain.

Import Js.

Inductive MessageKind : Type :=
| Human | AI | System | Function | Tool | Generic | Remove.

Definition MessageKind_eqb (a b : MessageKind) : bool :=
  match a, b with
  | Human, Human | AI, AI | System, System | Function, Function
  | Tool, Tool | Generic, Generic | Remove, Remove => true
  | _, _ => false
  end.

(** A message: its class and the fields it was built from
    ([content], [additional_kwargs], [response_metadata], [id], ...),
    which is what [toJSON().kwargs] exports. *)
Record BaseMessage : Type := mkMessage {
  kind : MessageKind;
  lc_kwargs : object
}.

(** A JavaScript object holds each property name once. *)
Definition wf_message (m : BaseMessage) : Prop :=
  NoDup (map fst (lc_kwargs m)).

(** The roles of the specification's data model. *)
Definition spec_role (k : MessageKind) : Prop :=
  k = Human \/ k = AI \/ k = System.

(** [_getType()]. *)
Definition type_name (k : MessageKind) : jsstring :=
  match k with
  | Human => lit "human"
  | AI => lit "ai"
  | System => lit "system"
  | Function => lit "function"
  | Tool => lit "tool"
  | Generic => lit "generic"
  | Remove => lit "remove"
  end.

Definition content (m : BaseMessage) : jsval :=
  obj_get (lit "content") (lc_kwargs m).

Definition message_id (m : BaseMessage) : jsval :=
  obj_get (lit "id") (lc_kwargs m).

(** [SystemMessage.isInstance] and [RemoveMessage.isInstance]. *)
Definition SystemMessage_isInstance (m : BaseMessage) : bool :=
  MessageKind_eqb (kind m) System.

Definition RemoveMessage_isInstance (m : BaseMessage) : bool :=
  MessageKind_eqb (kind m) Remove.

(** The constructor shared by the message classes: a string or an array
    is the content; missing metadata maps default to [{}].  The other
    primitives have no fields to read and make it throw. *)
Definition with_default (k : jsstring) (o : object) : object :=
  if truthy (obj_get k o) then o else obj_set k (JObj []) o.

Definition new_message (k : MessageKind) (fields : jsval) : result BaseMessage :=
  let build o :=
    Ok (mkMessage k
          (with_default (lit "response_metadata")
             (with_default (lit "additional_kwargs") o))) in
  match fields with
  | JStr _ | JArr _ => build [(lit "content", fields)]
  | JObj o => build o
  | _ => Throw (Failure (lit "Cannot read properties"))
  end.

(** [new HumanMessage(text)] on a string, and the same three fields
    for another class. *)
Definition text_message (k : MessageKind) (text : jsstring) : BaseMessage :=
  mkMessage k [(lit "content", JStr text);
               (lit "additional_kwargs", JObj []);
               (lit "response_metadata", JObj [])].

(** [new AIMessage(text)] on a string: the constructor of the assistant
    class writes two empty lists of tool calls behind the content, before
    the metadata maps receive their defaults. *)
Definition ai_message (text : jsstring) : BaseMessage :=
  mkMessage AI [(lit "content", JStr text);
                (lit "tool_calls", JArr []);
                (lit "invalid_tool_calls", JArr []);
                (lit "additional_kwargs", JObj []);
                (lit "response_metadata", JObj [])].

Definition REMOVE_ALL_MESSAGES : jsstring := lit "__remove_all__".

(** [new RemoveMessage({ id })]. *)
Definition RemoveMessage (id : jsstring) : BaseMessage :=
  mkMessage Remove [(lit "id", JStr id)].

(** [toDict()] and [mapChatMessagesToStoredMessages]. *)
Definition toDict (m : BaseMessage) : jsval :=
  JObj [(lit "type", JStr (type_name (kind m)));
        (lit "data", JObj (lc_kwargs m))].

Definition mapChatMessagesToStoredMessages (ms : list BaseMessage)
  : list jsval := map toDict ms.

(** [mapStoredMessageToChatMessage]: a stored message without [data] is
    in the old format ([text], [role]); then the class is chosen by
    [type]. *)
Definition mapStoredMessageToChatMessage (sm : jsval) : result BaseMessage :=
  if nullish sm then Throw (Failure (lit "Cannot read properties"))
  else
    let data :=
      match get sm (lit "data") with
      | JUndefined =>
          JObj [(lit "content", get sm (lit "text"));
                (lit "role", get sm (lit "role"));
                (lit "name", JUndefined);
                (lit "tool_call_id", JUndefined)]
      | d => d
      end in
    let requires k msg (mk : MessageKind) :=
      match get data k with
      | JUndefined => Throw (Failure msg)
      | _ => new_message mk data
      end in
    match get sm (lit "type") with
    | JStr t =>
        if jsstring_eqb t (lit "human") then new_message Human data
        else if jsstring_eqb t (lit "ai") then new_message AI data
        else if jsstring_eqb t (lit "system") then new_message System data
        else if jsstring_eqb t (lit "function") then
          requires (lit "name")
            (lit "Name must be defined for function messages") Function
        else if jsstring_eqb t (lit "tool") then
          requires (lit "tool_call_id")
            (lit "Tool call ID must be defined for tool messages") Tool
        else if jsstring_eqb t (lit "generic") then
          requires (lit "role")
            (lit "Role must be defined for chat messages") Generic
        else Throw (Failure (lit "Got unexpected type: " ++ t))
    | other => Throw (Failure (lit "Got unexpected type: " ++ to_string other))
    end.

Fixpoint mapStoredMessagesToChatMessages (l : list jsval)
  : result (list BaseMessage) :=
  match l with
  | [] => Ok []
  | sm :: l' =>
      m <- mapStoredMessageToChatMessage sm ;;
      ms <- mapStoredMessagesToChatMessages l' ;;
      Ok (m :: ms)
  end.

(** *** messagesStateReducer *)

(** Identifiers are compared as [Map] keys. *)
Definition same_id (a b : jsval) : bool :=
  match a, b with
  | JStr x, JStr y => jsstring_eqb x y
  | JNum x, JNum y => Z.eqb x y
  | JBool x, JBool y => Bool.eqb x y
  | _, _ => false
  end.

Definition set_id (id : jsstring) (m : BaseMessage) : BaseMessage :=
  mkMessage (kind m) (obj_set (lit "id") (JStr id) (lc_kwargs m)).

(** [m] is [r], possibly after [r] received an identifier. *)
Definition same_but_id (m r : BaseMessage) : Prop :=
  m = r \/ exists id, nullish (message_id r) = true /\ m = set_id id r.

(** Messages without an identifier receive a fresh one, [uuid n] being
    the [n]-th identifier that [v4()] hands out. *)
Fixpoint ensure_ids (uuid : nat -> jsstring) (n : nat) (ms : list BaseMessage)
  : list BaseMessage * nat :=
  match ms with
  | [] => ([], n)
  | m :: ms' =>
      if nullish (message_id m) then
        let (r, n') := ensure_ids uuid (S n) ms' in (set_id (uuid n) m :: r, n')
      else
        let (r, n') := ensure_ids uuid n ms' in (m :: r, n')
  end.

Definition is_remove_all (m : BaseMessage) : bool :=
  RemoveMessage_isInstance m
  && same_id (message_id m) (JStr REMOVE_ALL_MESSAGES).

(** What follows the last remove-all marker, if there is one. *)
Fixpoint after_remove_all (ms : list BaseMessage) : option (list BaseMessage) :=
  match ms with
  | [] => None
  | m :: ms' =>
      match after_remove_all ms' with
      | Some r => Some r
      | None => if is_remove_all m then Some ms' else None
      end
  end.

(** [mergedById]: identifier to position, a later entry replacing an
    earlier one. *)
Fixpoint index_of (id : jsval) (idx : list (jsval * nat)) : option nat :=
  match idx with
  | [] => None
  | (k, i) :: idx' => if same_id id k then Some i else index_of id idx'
  end.

Fixpoint index_left (i : nat) (ms : list BaseMessage) (idx : list (jsval * nat))
  : list (jsval * nat) :=
  match ms with
  | [] => idx
  | m :: ms' => index_left (S i) ms' ((message_id m, i) :: idx)
  end.

Fixpoint replace_at (i : nat) (m : BaseMessage) (ms : list BaseMessage)
  : list BaseMessage :=
  match ms, i with
  | [], _ => []
  | _ :: ms', O => m :: ms'
  | x :: ms', S i' => x :: replace_at i' m ms'
  end.

Definition id_in (id : jsval) (ids : list jsval) : bool :=
  existsb (same_id id) ids.

Definition id_remove (id : jsval) (ids : list jsval) : list jsval :=
  filter (fun x => negb (same_id id x)) ids.

(** The merge loop over the update. *)
Fixpoint merge_right (right : list BaseMessage) (merged : list BaseMessage)
  (idx : list (jsval * nat)) (removed : list jsval)
  : result (list BaseMessage * list jsval) :=
  match right with
  | [] => Ok (merged, removed)
  | m :: right' =>
      let id := message_id m in
      match index_of id idx with
      | Some i =>
          if RemoveMessage_isInstance m then
            merge_right right' merged idx (id :: removed)
          else
            merge_right right' (replace_at i m merged) idx (id_remove id removed)
      | None =>
          if RemoveMessage_isInstance m then
            Throw (Failure (lit "Attempting to delete a message with an ID that doesn't exist"))
          else
            merge_right right' (merged ++ [m]) ((id, length merged) :: idx) removed
      end
  end.

Definition messagesStateReducer (uuid : nat -> jsstring) (n : nat)
  (left right : list BaseMessage) : result (list BaseMessage) * nat :=
  let (leftMessages, n1) := ensure_ids uuid n left in
  let (rightMessages, n2) := ensure_ids uuid n1 right in
  match after_remove_all rightMessages with
  | Some rest => (Ok rest, n2)
  | None =>
      (match merge_right rightMessages leftMessages
               (index_left 0 leftMessages []) [] with
       | Ok (merged, removed) =>
           Ok (filter (fun m => negb (id_in (message_id m) removed)) merged)
       | Throw e => Throw e
       end, n2)
  end.

End LangChain.

(* ================================================================= *)
(** ** [src/qa.js] *)

Module Qa.

Import Js Json LangChain.

(** *** Configuration ([config.redis]) *)

(** A number as the code tests it: finite, or one of the values that
    [Number.isFinite] rejects. *)
Inductive jsnum : Type :=
| Finite (z : Z)
| NaN
| PosInf
| NegInf.

(** Each field is [None] when absent ([undefined] or [null]); numeric
    fields hold the value after [Number(...)]. *)
Record RedisConfig : Type := {
  url : option jsstring;
  keyPrefix : option jsstring;
  ttlSeconds : option jsnum;
  maxValueBytes : option jsnum;
  summaryKeepLastN : option jsnum;
  summaryPrefix : option jsstring
}.

Record Config : Type := {
  redis : option RedisConfig
}.

(** [config.redis?.field ?? dflt]. *)
Definition redis_field {A : Type} (cfg : Config)
  (field : RedisConfig -> option A) (dflt : A) : A :=
  match redis cfg with
  | Some r => match field r with Some a => a | None => dflt end
  | None => dflt
  end.

(** *** The world outside the process *)

Record Entry : Type := {
  value : jsstring;
  expire : option Z          (* SET ... EX seconds *)
}.

Inductive Stage : Type := HydrateStage | SummarizeStage | PersistStage.

(** The outcome of [summarizationMiddleware(...).beforeModel(...)]: it
    throws, returns nothing, or returns an update of messages. *)
Definition Summarizer : Type :=
  jsnum -> jsstring -> list BaseMessage -> result (option (list BaseMessage)).

(** What the process cannot decide: whether a Redis operation fails, the
    clock, the identifiers drawn by [v4()], the retrieval chain and the
    summarising middleware. *)
Record Env : Type := {
  redis_fault : nat -> option Error;   (* the n-th Redis operation *)
  now : nat -> Z;                      (* the n-th reading of Date.now() *)
  uuid : nat -> jsstring;              (* the n-th identifier *)
  ragChain_invoke : jsstring -> result jsval;
  beforeModel : Summarizer
}.

Record World : Type := mkWorld {
  db : jsstring -> option Entry;       (* the Redis key space *)
  connected : bool;                    (* redisClientPromise holds a client *)
  ops : nat;                           (* Redis operations so far *)
  ticks : nat;                         (* readings of Date.now() so far *)
  uuids : nat;                         (* identifiers drawn so far *)
  warnings : list (Stage * Error)      (* console.warn *)
}.

(** A computation reads the environment, changes the world, and returns
    or throws. *)
Definition M (A : Type) : Type := World -> result A * World.

Definition ret {A : Type} (a : A) : M A := fun w => (Ok a, w).

Definition throw {A : Type} (e : Error) : M A := fun w => (Throw e, w).

Definition mbind {A B : Type} (m : M A) (k : A -> M B) : M B :=
  fun w =>
    match m w with
    | (Ok a, w') => k a w'
    | (Throw e, w') => (Throw e, w')
    end.

Definition lift {A : Type} (r : result A) : M A := fun w => (r, w).

(** [try { body } catch (e) { handler(e) }]. *)
Definition try_catch {A : Type} (body : M A) (handler : Error -> M A) : M A :=
  fun w =>
    match body w with
    | (Ok a, w') => (Ok a, w')
    | (Throw e, w') => handler e w'
    end.

Declare Scope qa_scope.
Delimit Scope qa_scope with qa.
Notation "x <~ m ;; k" := (mbind m (fun x => k))
  (at level 61, m at next level, right associativity) : qa_scope.
Notation "m ;;; k" := (mbind m (fun _ => k))
  (at level 61, right associativity) : qa_scope.

Definition console_warn (s : Stage) (e : Error) : M unit :=
  fun w =>
    (Ok tt, mkWorld (db w) (connected w) (ops w) (ticks w) (uuids w)
              (warnings w ++ [(s, e)])).

Definition Date_now (env : Env) : M Z :=
  fun w =>
    (Ok (now env (ticks w)),
     mkWorld (db w) (connected w) (ops w) (S (ticks w)) (uuids w) (warnings w)).

(** One operation on the Redis connection: it fails when the
    environment says so. *)
Definition redis_op (env : Env) : M unit :=
  fun w =>
    let w' := mkWorld (db w) (connected w) (S (ops w)) (ticks w) (uuids w)
                (warnings w) in
    match redis_fault env (ops w) with
    | Some e => (Throw e, w')
    | None => (Ok tt, w')
    end.

Definition set_connected (b : bool) : M unit :=
  fun w =>
    (Ok tt, mkWorld (db w) b (ops w) (ticks w) (uuids w) (warnings w)).

Definition client_get (env : Env) (key : jsstring) : M (option jsstring) :=
  fun w =>
    match redis_op env w with
    | (Ok _, w') => (Ok (option_map value (db w' key)), w')
    | (Throw e, w') => (Throw e, w')
    end.

Definition client_set (env : Env) (key val : jsstring) (ex : option Z)
  : M unit :=
  fun w =>
    match redis_op env w with
    | (Ok _, w') =>
        (Ok tt,
         mkWorld
           (fun k => if jsstring_eqb k key then Some (Build_Entry val ex)
                     else db w' k)
           (connected w') (ops w') (ticks w') (uuids w') (warnings w'))
    | (Throw e, w') => (Throw e, w')
    end.

Section WithConfig.

Variable config : Config.
Variable env : Env.

Local Open Scope qa_scope.

(** [getRedisClient]: the connection is made once and kept; a failed
    attempt is forgotten so that the next call tries again. *)
Definition getRedisClient : M unit :=
  fun w =>
    if connected w then (Ok tt, w)
    else
      match redis_field config url [] with
      | [] => (Throw (Failure (lit "Redis url is not configured.")), w)
      | _ :: _ => (redis_op env ;;; set_connected true) w
      end.

Definition redisKeyForThread (threadId : jsval) : jsstring :=
  let prefix := redis_field config keyPrefix (lit "rag:mem:") in
  let id := to_string (or_else threadId (JStr (lit "default"))) in
  prefix ++ id.

Definition loadMessagesFromRedis (threadId : jsval) : M (list BaseMessage) :=
  getRedisClient ;;;
  let key := redisKeyForThread threadId in
  raw <~ client_get env key ;;
  match raw with
  | None | Some [] => ret []
  | Some text =>
      parsed <~ lift (JSON_parse text) ;;
      let stored :=
        match get parsed (lit "messages") with
        | JArr l => l
        | _ => []
        end in
      lift (mapStoredMessagesToChatMessages stored)
  end.

Definition stripThinkFromContent (content : jsval) : jsval :=
  match content with
  | JStr s => JStr (Think.replace_think s)
  | _ => content
  end.

Definition stripThinkFields (obj : jsval) : jsval :=
  if negb (truthy obj) || negb (typeof_object obj) then obj
  else JObj (obj_delete (lit "think") (own_props obj)).

Definition sanitize (m : jsval) : jsval :=
  let data := coalesce (get m (lit "data")) (JObj []) in
  JObj
    (obj_set (lit "data")
       (JObj
          (obj_set (lit "response_metadata")
             (stripThinkFields (get data (lit "response_metadata")))
             (obj_set (lit "additional_kwargs")
                (stripThinkFields (get data (lit "additional_kwargs")))
                (obj_set (lit "content")
                   (stripThinkFromContent (get data (lit "content")))
                   (own_props data)))))
       (own_props m)).

Definition mapMessagesForStorage (messages : list BaseMessage) : list jsval :=
  map sanitize (mapChatMessagesToStoredMessages messages).

(** [buildRedisPayload], with the reading of [Date.now()] made
    explicit. *)
Definition payload_at (t : Z) (messages : list BaseMessage) : jsval :=
  JObj [(lit "schemaVersion", JNum 1);
        (lit "updatedAt", JNum t);
        (lit "messages", JArr (mapMessagesForStorage messages))].

Definition buildRedisPayload (messages : list BaseMessage) : M jsval :=
  t <~ Date_now env ;;
  ret (payload_at t messages).

(** [JSON.stringify(payload)] where a string is needed. *)
Definition JSON_stringify (v : jsval) : M jsstring :=
  match stringify v with
  | Some s => ret s
  | None => throw (Failure (lit "The argument must be of type string"))
  end.

Definition estimateRedisValueBytes (messages : list BaseMessage) : M nat :=
  payload <~ buildRedisPayload messages ;;
  s <~ JSON_stringify payload ;;
  ret (byteLength s).

Definition saveMessagesToRedis (threadId : jsval) (messages : list BaseMessage)
  : M unit :=
  getRedisClient ;;;
  let key := redisKeyForThread threadId in
  payload <~ buildRedisPayload messages ;;
  let ttlSeconds := redis_field config ttlSeconds (Finite 0) in
  s <~ JSON_stringify payload ;;
  match ttlSeconds with
  | Finite z => if (0 <? z)%Z then client_set env key s (Some z)
                else client_set env key s None
  | PosInf | NegInf | NaN => client_set env key s None
  end.

(** *** The graph *)

Record GraphState : Type := mkState {
  messages : list BaseMessage;
  threadId : jsval;
  input : jsstring;
  answer : jsval;
  context : jsval
}.

(** What a node returns: the channels it writes. *)
Record Update : Type := mkUpdate {
  u_messages : option (list BaseMessage);
  u_answer : option jsval;
  u_context : option jsval
}.

Definition no_update : Update := mkUpdate None None None.

Definition messages_update (ms : list BaseMessage) : Update :=
  mkUpdate (Some ms) None None.

(** The updates of the guarded nodes: nothing, or a whole new history
    behind the remove-all marker. *)
Definition guarded_update (u : Update) : Prop :=
  u = no_update
  \/ exists ms, u = messages_update (RemoveMessage REMOVE_ALL_MESSAGES :: ms).

Definition hydrate_body (state : GraphState) : M Update :=
  let threadId := coalesce (threadId state) (JStr (lit "default")) in
  restored <~ loadMessagesFromRedis threadId ;;
  match restored with
  | [] => ret no_update
  | _ :: _ =>
      ret (messages_update (RemoveMessage REMOVE_ALL_MESSAGES :: restored))
  end.

Definition hydrate (state : GraphState) : M Update :=
  try_catch (hydrate_body state)
    (fun e => console_warn HydrateStage e ;;; ret no_update).

Definition ingest (state : GraphState) : M Update :=
  ret (messages_update [text_message Human (input state)]).

Definition rag (state : GraphState) : M Update :=
  res <~ lift (ragChain_invoke env (input state)) ;;
  let answer :=
    to_string (coalesce (get res (lit "answer"))
                 (coalesce (get res (lit "output")) (JStr []))) in
  let context := coalesce (get res (lit "context")) (JArr []) in
  ret (mkUpdate (Some [ai_message answer]) (Some (JStr answer))
         (Some context)).

(** [Number.isFinite(x) && x > 0]. *)
Definition positive_finite (x : jsnum) : option Z :=
  match x with
  | Finite z => if (0 <? z)%Z then Some z else None
  | _ => None
  end.

(** [Math.max(0, x)]. *)
Definition max_zero (x : jsnum) : jsnum :=
  match x with
  | Finite z => Finite (Z.max 0 z)
  | NaN => NaN
  | PosInf => PosInf
  | NegInf => Finite 0
  end.

(** The default of [summaryPrefix], five code units. *)
Definition default_summary_prefix : jsstring :=
  [23545; 35805; 25688; 35201; 65306]%N.

Definition summarize_body (state : GraphState) : M Update :=
  let messages := messages state in
  let maxValueBytes := redis_field config maxValueBytes (Finite 0) in
  match positive_finite maxValueBytes with
  | None => ret no_update
  | Some limit =>
      estimatedSize <~ estimateRedisValueBytes messages ;;
      if (Z.of_nat estimatedSize <=? limit)%Z then ret no_update
      else
        let systemMessages := filter SystemMessage_isInstance messages in
        let nonSystemMessages :=
          filter (fun m => negb (SystemMessage_isInstance m)
                           && negb (RemoveMessage_isInstance m)) messages in
        match nonSystemMessages with
        | [] => ret no_update
        | _ :: _ =>
            let keepLastN :=
              max_zero (redis_field config summaryKeepLastN (Finite 6)) in
            res <~ lift (beforeModel env keepLastN
                           (redis_field config summaryPrefix
                              default_summary_prefix)
                           nonSystemMessages) ;;
            match res with
            | None => ret no_update
            | Some res_messages =>
                let summarizedMessages :=
                  filter (fun m => negb (RemoveMessage_isInstance m))
                    res_messages in
                match summarizedMessages with
                | [] => ret no_update
                | _ :: _ =>
                    ret (messages_update
                           (RemoveMessage REMOVE_ALL_MESSAGES
                              :: systemMessages ++ summarizedMessages))
                end
            end
        end
  end.

Definition summarize (state : GraphState) : M Update :=
  try_catch (summarize_body state)
    (fun e => console_warn SummarizeStage e ;;; ret no_update).

Definition persist (state : GraphState) : M Update :=
  try_catch
    (let threadId := coalesce (threadId state) (JStr (lit "default")) in
     saveMessagesToRedis threadId (messages state))
    (fun e => console_warn PersistStage e) ;;;
  ret no_update.

(** A node's update goes through the channels: [messages] through
    [messagesStateReducer], the others keep the last value written. *)
Definition apply_update (state : GraphState) (u : Update) : M GraphState :=
  fun w =>
    let keep {A} (o : option A) (old : A) :=
      match o with Some a => a | None => old end in
    match u_messages u with
    | None =>
        (Ok (mkState (messages state) (threadId state) (input state)
               (keep (u_answer u) (answer state))
               (keep (u_context u) (context state))), w)
    | Some update =>
        let (r, n) := messagesStateReducer (uuid env) (uuids w)
                        (messages state) update in
        let w' := mkWorld (db w) (connected w) (ops w) (ticks w) n
                    (warnings w) in
        match r with
        | Ok ms =>
            (Ok (mkState ms (threadId state) (input state)
                   (keep (u_answer u) (answer state))
                   (keep (u_context u) (context state))), w')
        | Throw e => (Throw e, w')
        end
    end.

Definition step (node : GraphState -> M Update) (state : GraphState)
  : M GraphState :=
  u <~ node state ;; apply_update state u.

(** START -> hydrate -> ingest -> rag -> summarize -> persist -> END. *)
Definition run_nodes (state : GraphState) : M GraphState :=
  s1 <~ step hydrate state ;;
  s2 <~ step ingest s1 ;;
  s3 <~ step rag s2 ;;
  s4 <~ step summarize s3 ;;
  step persist s4.

(** [ragApp.invoke(input)]: the caller's values are written to the
    channels, then the nodes run. *)
Definition invoke (init : GraphState) : M GraphState :=
  s0 <~ apply_update
          (mkState [] (threadId init) (input init) (answer init) (context init))
          (messages_update (messages init)) ;;
  run_nodes s0.

Record Answer : Type := mkAnswer {
  a_state : GraphState;
  a_answer : jsstring;
  a_context : jsval
}.

(** [ask(ragApp, state, question)]. *)
Definition ask (state : GraphState) (question : jsstring) : M Answer :=
  nextState <~ invoke (mkState (messages state) (threadId state) question
                         (answer state) (context state)) ;;
  ret (mkAnswer nextState
         (to_string (coalesce (answer nextState) (JStr [])))
         (coalesce (context nextState) (JArr []))).

End WithConfig.

End Qa.

(* ================================================================= *)
(** ** Sample configurations and environments *)

Module Sample.

Import Js LangChain Qa.

(** The configuration object of the repository has no [redis] section. *)
Definition no_redis : Config := Build_Config None.

(** A Redis section with a URL, a byte threshold and a retention count. *)
Definition with_redis (limit : option jsnum) (keep : option jsnum) : Config :=
  Build_Config
    (Some (Build_RedisConfig (Some (lit "redis://127.0.0.1:6379")) None None
             limit keep None)).

(** The summary that the spec's generation service produces: a human
    message carrying the prefix. *)
Definition summary_message (prefix : jsstring) : BaseMessage :=
  mkMessage Human [(lit "content", JStr (prefix ++ lit " ..."));
                   (lit "additional_kwargs", JObj []);
                   (lit "response_metadata", JObj []);
                   (lit "id", JStr (lit "summary-1"))].

(** Modelled from the spec: the generation service in summarisation mode
    ([summarize(messages, keepLastN, prefix)], sections 4.3 and 6), which
    the code reaches through [summarizationMiddleware] of the [langchain]
    package: the most recent [keepLastN] messages are kept verbatim and
    everything older is replaced by one summary message. *)
Definition spec_summarizer : Summarizer :=
  fun keep prefix msgs =>
    match keep with
    | Finite k =>
        Ok (Some (RemoveMessage REMOVE_ALL_MESSAGES
                    :: summary_message prefix :: lastn (Z.to_nat k) msgs))
    | _ => Throw (Failure (lit "invalid keep"))
    end.

Definition failing_summarizer : Summarizer :=
  fun _ _ _ => Throw (External 7).

(** A middleware that finds nothing to summarise and returns nothing,
    as [summarizationMiddleware] does when it is given no more messages
    than it is to keep. *)
Definition idle_summarizer : Summarizer :=
  fun _ _ _ => Ok None.

(** An environment where Redis works, the clock reads [clock n] at its
    [n]-th reading and the chain answers ["42"]. *)
Definition env_with (clock : nat -> Z) (s : Summarizer) : Env :=
  Build_Env (fun _ => None) clock
    (fun n => lit "uuid-" ++ N_to_chars (N.of_nat n))
    (fun _ => Ok (JObj [(lit "answer", JStr (lit "42"))]))
    s.

Definition empty_world : World :=
  mkWorld (fun _ => None) false 0 0 0 [].

(** A world whose Redis holds [text] under [key], the client being
    connected already. *)
Definition world_with (key text : jsstring) : World :=
  mkWorld (fun k => if jsstring_eqb k key then Some (Build_Entry text None)
                    else None)
    true 0 0 0 [].

Definition hello : list BaseMessage := [text_message Human (lit "hello")].

End Sample.

(* ================================================================= *)
(** ** Relations between worlds *)

(** The part of the world that only Redis traffic changes. *)
Definition same_redis (w w' : Qa.World) : Prop :=
  Qa.db w' = Qa.db w /\ Qa.ops w' = Qa.ops w
  /\ Qa.connected w' = Qa.connected w.

(** What [getRedisClient] throws without a URL. *)
Definition not_configured : Error :=
  Failure (lit "Redis url is not configured.").

(* ================================================================= *)
(** ** [config.js]: the configuration file, the environment, the defaults *)

Module ConfigFile.

Import Js Json.

(** What the module prints: the file was loaded, it could not be read
    or parsed, or it does not exist. *)
Inductive Notice : Type :=
| Loaded
| Unusable (e : Error)
| Missing.

(** Outside the process: the file [config.json] ([None] when
    [fs.existsSync] says no, otherwise what [fs.readFileSync] returns or
    throws), the environment variables, and the built-in [Number] on a
    string ([None] when the result is [NaN]). *)
Record Env : Type := {
  config_file : option (result jsstring);
  process_env : jsstring -> option jsstring;
  Number_ : jsstring -> option jsval
}.

(** The module variable [cachedConfig] and the console. *)
Record World : Type := mkWorld {
  cachedConfig : jsval;
  console : list Notice
}.

Definition is_null (v : jsval) : bool :=
  match v with JNull => true | _ => false end.

Definition is_undefined (v : jsval) : bool :=
  match v with JUndefined => true | _ => false end.

(** [typeof v === "number"]. *)
Definition is_number (v : jsval) : bool :=
  match v with JNum _ => true | _ => false end.

(** [loadConfigFile]: the parsed file is kept once it was read; a file
    that is missing, unreadable or unparseable gives [null] and leaves
    [cachedConfig] as it is. *)
Definition loadConfigFile (env : Env) (w : World) : jsval * World :=
  if negb (is_null (cachedConfig w)) then (cachedConfig w, w)
  else
    match config_file env with
    | Some read =>
        match (content <- read ;; JSON_parse content) with
        | Ok parsed => (parsed, mkWorld parsed (console w ++ [Loaded]))
        | Throw e =>
            (JNull, mkWorld (cachedConfig w) (console w ++ [Unusable e]))
        end
    | None => (JNull, mkWorld (cachedConfig w) (console w ++ [Missing]))
    end.

(** [path.split(".")]. *)
Fixpoint split_dot (s : jsstring) : list jsstring :=
  match s with
  | [] => [[]]
  | c :: s' =>
      if (c =? 46)%N then [] :: split_dot s'
      else
        match split_dot s' with
        | k :: ks => (c :: k) :: ks
        | [] => [[c]]
        end
  end.

(** The loop over the keys.  [key in value] is read as an own property,
    which is what it is on a value parsed from JSON for every key that
    names no member of [Object.prototype] or [Array.prototype]: all the
    keys of the paths of this file (see [path_of]). *)
Fixpoint walk (keys : list jsstring) (value : jsval) : jsval :=
  match keys with
  | [] => value
  | key :: keys' =>
      if truthy value && typeof_object value
         && obj_has key (own_props value)
      then walk keys' (get value key)
      else JUndefined
  end.

(** The second and third source of [getConfig]: the environment
    variable, converted to a number when the default is one and the
    conversion succeeds, then the default. *)
Definition env_or_default (env : Env) (envVar : jsstring)
  (defaultValue : jsval) : jsval :=
  match envVar with
  | [] => defaultValue
  | _ :: _ =>
      match process_env env envVar with
      | Some ((_ :: _) as envValue) =>
          if is_number defaultValue then
            match Number_ env envValue with
            | Some num => num
            | None => JStr envValue
            end
          else JStr envValue
      | _ => defaultValue
      end
  end.

Definition getConfig (env : Env) (path envVar : jsstring)
  (defaultValue : jsval) (w : World) : jsval * World :=
  let (config, w') := loadConfigFile env w in
  if truthy config then
    let value := walk (split_dot path) config in
    if is_undefined value then (env_or_default env envVar defaultValue, w')
    else (value, w')
  else (env_or_default env envVar defaultValue, w').

(** The settings that the exported [config] object reads, each with its
    path in the file and its environment variable. *)
Inductive Setting : Type :=
| ollama_baseUrl | ollama_embeddingModel | ollama_chatModel
| ollama_temperature
| documents_docsDir | documents_chunkSize | documents_chunkOverlap
| retrieval_topK
| vectorStore_type | vectorStore_persistDir
| milvus_url | milvus_username | milvus_password | milvus_ssl
| milvus_collectionName | milvus_partitionName | milvus_textFieldMaxLength.

Definition path_of (s : Setting) : jsstring :=
  match s with
  | ollama_baseUrl => lit "ollama.baseUrl"
  | ollama_embeddingModel => lit "ollama.embeddingModel"
  | ollama_chatModel => lit "ollama.chatModel"
  | ollama_temperature => lit "ollama.temperature"
  | documents_docsDir => lit "documents.docsDir"
  | documents_chunkSize => lit "documents.chunkSize"
  | documents_chunkOverlap => lit "documents.chunkOverlap"
  | retrieval_topK => lit "retrieval.topK"
  | vectorStore_type => lit "vectorStore.type"
  | vectorStore_persistDir => lit "vectorStore.persistDir"
  | milvus_url => lit "milvus.url"
  | milvus_username => lit "milvus.username"
  | milvus_password => lit "milvus.password"
  | milvus_ssl => lit "milvus.ssl"
  | milvus_collectionName => lit "milvus.collectionName"
  | milvus_partitionName => lit "milvus.partitionName"
  | milvus_textFieldMaxLength => lit "milvus.textFieldMaxLength"
  end.

Definition env_of (s : Setting) : jsstring :=
  match s with
  | ollama_baseUrl => lit "OLLAMA_BASE_URL"
  | ollama_embeddingModel => lit "OLLAMA_EMBEDDING_MODEL"
  | ollama_chatModel => lit "OLLAMA_CHAT_MODEL"
  | ollama_temperature => lit "OLLAMA_TEMPERATURE"
  | documents_docsDir => lit "DOCS_DIR"
  | documents_chunkSize => lit "CHUNK_SIZE"
  | documents_chunkOverlap => lit "CHUNK_OVERLAP"
  | retrieval_topK => lit "TOP_K"
  | vectorStore_type => lit "VECTOR_STORE_TYPE"
  | vectorStore_persistDir => lit "VECTOR_STORE_DIR"
  | milvus_url => lit "MILVUS_URL"
  | milvus_username => lit "MILVUS_USERNAME"
  | milvus_password => lit "MILVUS_PASSWORD"
  | milvus_ssl => lit "MILVUS_SSL"
  | milvus_collectionName => lit "MILVUS_COLLECTION"
  | milvus_partitionName => lit "MILVUS_PARTITION"
  | milvus_textFieldMaxLength => lit "MILVUS_TEXT_FIELD_MAX_LENGTH"
  end.

(** The two keys of a path of the file. *)
Definition section_of (s : Setting) : jsstring :=
  match s with
  | ollama_baseUrl | ollama_embeddingModel | ollama_chatModel
  | ollama_temperature => lit "ollama"
  | documents_docsDir | documents_chunkSize | documents_chunkOverlap =>
      lit "documents"
  | retrieval_topK => lit "retrieval"
  | vectorStore_type | vectorStore_persistDir => lit "vectorStore"
  | _ => lit "milvus"
  end.

Definition field_of (s : Setting) : jsstring :=
  match s with
  | ollama_baseUrl => lit "baseUrl"
  | ollama_embeddingModel => lit "embeddingModel"
  | ollama_chatModel => lit "chatModel"
  | ollama_temperature => lit "temperature"
  | documents_docsDir => lit "docsDir"
  | documents_chunkSize => lit "chunkSize"
  | documents_chunkOverlap => lit "chunkOverlap"
  | retrieval_topK => lit "topK"
  | vectorStore_type => lit "type"
  | vectorStore_persistDir => lit "persistDir"
  | milvus_url => lit "url"
  | milvus_username => lit "username"
  | milvus_password => lit "password"
  | milvus_ssl => lit "ssl"
  | milvus_collectionName => lit "collectionName"
  | milvus_partitionName => lit "partitionName"
  | milvus_textFieldMaxLength => lit "textFieldMaxLength"
  end.

End ConfigFile.

(* ================================================================= *)
(** ** [ask] on arbitrary values, and [cli.js] *)

Module Cli.

Import Js.

(** [ask(ragApp, state, question)] of [qa.js] when nothing is known
    about the types of its arguments: [invoke] is [ragApp.invoke], the
    spread [{ ...state, input: question }] copies the own enumerable
    properties of [state] and then writes [input]. *)
Definition ask (invoke : jsval -> result jsval) (state question : jsval)
  : result jsval :=
  nextState <- invoke (JObj (obj_set (lit "input") question (own_props state))) ;;
  Ok (JObj [(lit "state", nextState);
            (lit "answer",
             JStr (to_string (coalesce (get nextState (lit "answer"))
                                (JStr []))));
            (lit "context",
             coalesce (get nextState (lit "context")) (JArr []))]).

(** The call of [cli.js]: [ask(ragChain, q)], two arguments for three
    parameters. *)
Definition ask_question (invoke : jsval -> result jsval) (q : jsstring)
  : result jsval :=
  ask invoke (JStr q) JUndefined.

(** What the [show] command prints for one field of a record: a string
    of more than 200 code units is cut and marked. *)
Definition shown (value : jsval) : jsval :=
  match value with
  | JStr s =>
      if 200 <? length s then JStr (firstn 200 s ++ lit "...") else value
  | _ => value
  end.

Definition show_field (key : jsstring) (value : jsval) : jsstring :=
  key ++ lit ": " ++ to_string (shown value).

(** [s.replace(/\/+$/, empty)]: the first position from which only slashes
    follow up to the end is where the one match begins. *)
Definition all_slashes (s : jsstring) : bool := forallb (N.eqb 47) s.

Fixpoint strip_trailing_slashes (s : jsstring) : jsstring :=
  match s with
  | [] => []
  | c :: s' =>
      if (c =? 47)%N && all_slashes s' then []
      else c :: strip_trailing_slashes s'
  end.

(** [checkOllamaReady]: the base URL and the URL that is fetched. *)
Definition ollama_base (baseUrl : jsval) : jsstring :=
  strip_trailing_slashes (to_string (or_else baseUrl (JStr []))).

Definition ollama_tags_url (baseUrl : jsval) : jsstring :=
  ollama_base baseUrl ++ lit "/api/tags".

(** *** The prompt loop *)

(** [input.trim()]: the white space of [trim] is the class [\s]. *)
Definition trim (s : jsstring) : jsstring :=
  rev (Think.drop_spaces (rev (Think.drop_spaces s))).

(** [q.toLowerCase() === word] for a word of lower-case ASCII letters
    without [k]: the only code units that [toLowerCase] maps to such a
    letter are the letter itself and its capital. *)
Fixpoint lowered_is (word q : jsstring) : bool :=
  match word, q with
  | [], [] => true
  | p :: word', c :: q' => Think.ci_eq p c && lowered_is word' q'
  | _, _ => false
  end.

(** What one line of input makes the loop do: prompt again, close the
    interface, show the collection, rebuild it, or ask. *)
Inductive Command : Type :=
| Again
| Exit
| Show
| Rebuild
| Ask (q : jsstring).

Definition command (input : jsstring) : Command :=
  match trim input with
  | [] => Again
  | (_ :: _) as q =>
      if lowered_is (lit "exit") q then Exit
      else if lowered_is (lit "show") q then Show
      else if lowered_is (lit "rebuild") q then Rebuild
      else Ask q
  end.

(** The lines that are read: after [exit] the interface is closed and
    no further line is. *)
Fixpoint session (inputs : list jsstring) : list Command :=
  match inputs with
  | [] => []
  | input :: inputs' =>
      match command input with
      | Exit => [Exit]
      | c => c :: session inputs'
      end
  end.

End Cli.

(* ================================================================= *)
(** ** [buildVectorStore.js]: the Milvus collection *)

Module VectorStore.

Import Js Json.

(** [DataType] of the Milvus SDK, as far as it is used. *)
Inductive DataType : Type :=
| TBool | TInt64 | TFloat | TVarChar | TFloatVector.

(** One field of the collection schema.  A property that the source
    does not write is [false] or empty here. *)
Record Field : Type := mkField {
  name : jsval;
  description : jsstring;
  data_type : DataType;
  is_primary_key : bool;
  autoID : bool;
  type_params : list (jsstring * jsstring)
}.

(** [key !== v] for a string [key]. *)
Definition differs (key : jsstring) (v : jsval) : bool :=
  match v with
  | JStr s => negb (jsstring_eqb key s)
  | _ => true
  end.

(** The callback of [.map] in [ensureCollection]: a field by the type
    of the sample value, [null] for a value that is [null] or
    [undefined]. *)
Definition metadata_field (entry : jsstring * jsval) : option Field :=
  let (key, value) := entry in
  match value with
  | JNum _ =>
      Some (mkField (JStr key) (lit "Metadata Number field") TFloat
              false false [])
  | JBool _ =>
      Some (mkField (JStr key) (lit "Metadata Boolean field") TBool
              false false [])
  | JNull | JUndefined => None
  | _ =>
      Some (mkField (JStr key) (lit "Metadata String field") TVarChar
              false false [(lit "max_length", lit "4096")])
  end.

(** [.filter(Boolean)] on the mapped entries. *)
Fixpoint keep_fields (l : list (option Field)) : list Field :=
  match l with
  | [] => []
  | Some f :: l' => f :: keep_fields l'
  | None :: l' => keep_fields l'
  end.

Definition metadataFields (vectorStore sampleMetadata : jsval) : list Field :=
  keep_fields
    (map metadata_field
       (filter
          (fun entry =>
             differs (fst entry) (get vectorStore (lit "primaryField"))
             && differs (fst entry) (get vectorStore (lit "partitionKey")))
          (own_props sampleMetadata))).

(** The [fields] of [createCollection]: the metadata fields, then the
    primary key, the text and the vector. *)
Definition fields (vectorStore : jsval) (dim : nat) (documents : list jsval)
  : list Field :=
  let sampleMetadata :=
    coalesce (get (nth 0 documents JUndefined) (lit "metadata")) (JObj []) in
  metadataFields vectorStore sampleMetadata
    ++ [mkField (get vectorStore (lit "primaryField")) (lit "Primary key")
          TInt64 true true [];
        mkField (get vectorStore (lit "textField")) (lit "Text field")
          TVarChar false false
          [(lit "max_length",
            to_string (or_else (get vectorStore (lit "textFieldMaxLength"))
                         (JNum 65535)))];
        mkField (get vectorStore (lit "vectorField")) (lit "Vector field")
          TFloatVector false false
          [(lit "dim", N_to_chars (N.of_nat dim))]].

(** *** What [showVectorStore] asks for *)

Fixpoint find_primary (schemaFields : list object) : option object :=
  match schemaFields with
  | [] => None
  | f :: l =>
      if truthy (obj_get (lit "is_primary_key") f) then Some f
      else find_primary l
  end.

(** [schemaFields.find((f) => f.is_primary_key)?.name
     ?? vectorStore.primaryField]. *)
Definition primaryField (vectorStore : jsval) (schemaFields : list object)
  : jsval :=
  coalesce
    match find_primary schemaFields with
    | Some f => obj_get (lit "name") f
    | None => JUndefined
    end
    (get vectorStore (lit "primaryField")).

(** [a !== b] on the values a field name can be. *)
Definition strict_eq (a b : jsval) : bool :=
  match a, b with
  | JUndefined, JUndefined | JNull, JNull => true
  | JBool x, JBool y => Bool.eqb x y
  | JNum x, JNum y => Z.eqb x y
  | JStr x, JStr y => jsstring_eqb x y
  | _, _ => false
  end.

Definition output_fields (vectorStore : jsval) (schemaFields : list object)
  : list jsval :=
  filter
    (fun name =>
       truthy name
       && negb (strict_eq name (get vectorStore (lit "vectorField"))))
    (map (obj_get (lit "name")) schemaFields).

Definition final_output_fields (vectorStore : jsval)
  (schemaFields : list object) : list jsval :=
  match output_fields vectorStore schemaFields with
  | [] =>
      filter truthy
        [get vectorStore (lit "primaryField");
         get vectorStore (lit "textField"); JStr (lit "source")]
  | (_ :: _) as fs => fs
  end.

Definition expr (vectorStore : jsval) (schemaFields : list object)
  : jsstring :=
  match primaryField vectorStore schemaFields with
  | JStr ((_ :: _) as p) => p ++ lit " >= 0"
  | _ => lit "pk >= 0"
  end.

(** *** The client *)

Inductive Call : Type :=
| NewMilvus                           (* loadVectorStore: new Milvus(...) *)
| HasCollection
| LoadCollectionSync
| DropCollection
| EmbedQuery
| CreateCollection (schema : list Field)
| CreateIndex
| AddDocuments (documents : list jsval).

(** The outcome of the [n]-th call is decided outside. *)
Record Env : Type := {
  answer : nat -> Call -> result jsval
}.

(** The calls made so far, oldest first. *)
Definition World : Type := list Call.

Definition M (A : Type) : Type := World -> result A * World.

Definition ret {A : Type} (a : A) : M A := fun w => (Ok a, w).

Definition throw {A : Type} (e : Error) : M A := fun w => (Throw e, w).

Definition mbind {A B : Type} (m : M A) (k : A -> M B) : M B :=
  fun w =>
    match m w with
    | (Ok a, w') => k a w'
    | (Throw e, w') => (Throw e, w')
    end.

Definition try_catch {A : Type} (body : M A) (handler : Error -> M A) : M A :=
  fun w =>
    match body w with
    | (Ok a, w') => (Ok a, w')
    | (Throw e, w') => handler e w'
    end.

Definition call (env : Env) (c : Call) : M jsval :=
  fun w => (answer env (length w) c, w ++ [c]).

Declare Scope vs_scope.
Delimit Scope vs_scope with vs.
Notation "x <~ m ;; k" := (mbind m (fun x => k))
  (at level 61, m at next level, right associativity) : vs_scope.
Notation "m ;;; k" := (mbind m (fun _ => k))
  (at level 61, right associativity) : vs_scope.

Section WithEnv.

Variable env : Env.
Variable collectionName : jsstring.

Local Open Scope vs_scope.

Definition loadVectorStore : M jsval := call env NewMilvus.

(** [res.value === true]. *)
Definition is_true (v : jsval) : bool :=
  match v with JBool true => true | _ => false end.

(** [code && code !== "Success"]. *)
Definition is_failure_code (code : jsval) : bool :=
  truthy code && negb (strict_eq code (JStr (lit "Success"))).

(** [checkCollectionExists]: a failing [hasCollection] counts as an
    absent collection. *)
Definition checkCollectionExists : M bool :=
  try_catch
    (res <~ call env HasCollection ;; ret (is_true (get res (lit "value"))))
    (fun _ => ret false).

(** [deleteVectorStore]: the constructor is called before any promise
    exists, so that its failure is a throw of [deleteVectorStore]
    itself; a failing [dropCollection] is swallowed. *)
Definition deleteVectorStore : M unit :=
  loadVectorStore ;;;
  try_catch (call env DropCollection ;;; ret tt) (fun _ => ret tt).

(** [`...${JSON.stringify(v)}`]. *)
Definition stringified (v : jsval) : jsstring :=
  match stringify v with
  | Some s => s
  | None => lit "undefined"
  end.

Definition type_error : Error := Failure (lit "Cannot read properties").

Definition ensureCollection (vectorStore : jsval) (documents : list jsval)
  : M unit :=
  hasColResp <~ call env HasCollection ;;
  if nullish hasColResp then throw type_error
  else if is_failure_code (get (get hasColResp (lit "status"))
                             (lit "error_code"))
  then throw (Failure (lit "Error checking collection: "
                         ++ stringified hasColResp))
  else if is_true (get hasColResp (lit "value")) then ret tt
  else
    dimProbe <~ call env EmbedQuery ;;
    match (match dimProbe with JArr l => length l | _ => 0 end) with
    | O => throw (Failure (lit "Failed to determine embedding dimension."))
    | S _ as dim =>
        createRes <~ call env
                       (CreateCollection (fields vectorStore dim documents)) ;;
        if nullish createRes then throw type_error
        else if is_failure_code (get createRes (lit "error_code"))
        then throw (Failure (lit "Failed to create collection: "
                               ++ stringified createRes))
        else
          call env CreateIndex ;;;
          call env LoadCollectionSync ;;;
          ret tt
    end.

(** The message of the error thrown without collection and without
    documents. *)
Definition nothing_to_build : Error :=
  Failure
    ([77; 105; 108; 118; 117; 115; 32; 99; 111; 108; 108; 101; 99; 116; 105;
      111; 110; 32; 34]%N
       ++ collectionName
       ++ [34; 32; 19981; 23384; 22312; 65292; 19988; 26410; 25552; 20379;
           21487; 29992; 20110; 26500; 24314; 30340; 32; 100; 111; 99; 117;
           109; 101; 110; 116; 115; 12290]%N).

(** The [try] block of [buildOrLoadVectorStore]; [documents] is [None]
    for [null] or [undefined]. *)
Definition buildOrLoad_body (documents : option (list jsval)) : M jsval :=
  vectorStore <~ loadVectorStore ;;
  exists_ <~ checkCollectionExists ;;
  if exists_ then call env LoadCollectionSync ;;; ret vectorStore
  else
    match documents with
    | None | Some [] => throw nothing_to_build
    | Some documents =>
        ensureCollection vectorStore documents ;;;
        call env (AddDocuments documents) ;;;
        ret vectorStore
    end.

(** [buildOrLoadVectorStore]: on any error the collection is deleted
    and the error thrown again. *)
Definition buildOrLoadVectorStore (documents : option (list jsval))
  : M jsval :=
  try_catch (buildOrLoad_body documents)
    (fun err => deleteVectorStore ;;; throw err).

End WithEnv.

End VectorStore.
(* ================================================================= *)
(** ** Lemmas on the reasoning-markup pattern *)

Section ThinkFacts.
Import Think.

Lemma ci_prefix_length pat : forall s r,
  ci_prefix pat s = Some r -> length s = length pat + length r.
Proof.
  induction pat as [|p pat IH]; intros s r H; simpl in *.
  - now inversion H.
  - destruct s as [|c s]; [discriminate|].
    destruct (ci_eq p c); [|discriminate].
    simpl. now rewrite (IH _ _ H).
Qed.

Lemma find_close_length : forall s r,
  find_close s = Some r -> length r + 8 <= length s.
Proof.
  induction s as [|c s IH]; intros r H.
  - simpl in H. discriminate.
  - cbn [find_close] in H.
    destruct (ci_prefix close_tag (c :: s)) as [r'|] eqn:E.
    + inversion H; subst. apply ci_prefix_length in E.
      change (length close_tag) with 8 in E. lia.
    + apply IH in H. simpl. lia.
Qed.

Lemma drop_spaces_length s : length (drop_spaces s) <= length s.
Proof.
  induction s as [|c s IH]; simpl; [lia|].
  destruct (is_space c); simpl; lia.
Qed.

Lemma match_at_length s r :
  match_at s = Some r -> length r + 15 <= length s.
Proof.
  unfold match_at. intros H.
  destruct (ci_prefix open_tag s) as [body|] eqn:E; [|discriminate].
  destruct (find_close body) as [r'|] eqn:F; [|discriminate].
  inversion H; subst.
  apply ci_prefix_length in E. change (length open_tag) with 7 in E.
  apply find_close_length in F.
  pose proof (drop_spaces_length r'). lia.
Qed.

Lemma replace_fuel_enough : forall n m s,
  length s <= n -> length s <= m -> replace_fuel n s = replace_fuel m s.
Proof.
  induction n as [|n IH]; intros m s Hn Hm.
  - destruct s; [|simpl in Hn; lia]. destruct m; reflexivity.
  - destruct m as [|m].
    + destruct s; [reflexivity|simpl in Hm; lia].
    + simpl. destruct (match_at s) as [r|] eqn:E.
      * apply match_at_length in E. apply IH; lia.
      * destruct s as [|c s]; [reflexivity|].
        simpl in Hn, Hm. f_equal. apply IH; lia.
Qed.

(** The unfolding equation of the global replace. *)
Lemma replace_think_eq s :
  replace_think s =
  match match_at s with
  | Some r => replace_think r
  | None => match s with [] => [] | c :: s' => c :: replace_think s' end
  end.
Proof.
  unfold replace_think. destruct s as [|c s].
  - simpl. destruct (match_at []) eqn:E; [|reflexivity].
    apply match_at_length in E. simpl in E. lia.
  - cbn [length replace_fuel].
    destruct (match_at (c :: s)) as [r|] eqn:E.
    + apply match_at_length in E. simpl in E.
      apply replace_fuel_enough; lia.
    + reflexivity.
Qed.

Lemma replace_think_length s : length (replace_think s) <= length s.
Proof.
  remember (length s) as n eqn:Hn.
  assert (Hle : length s <= n) by lia. clear Hn.
  revert s Hle. induction n as [|n IH]; intros s Hle.
  - destruct s; [|simpl in Hle; lia]. cbv. lia.
  - rewrite replace_think_eq.
    destruct (match_at s) as [r|] eqn:E.
    + apply match_at_length in E.
      assert (length (replace_think r) <= n) by (apply IH; lia). lia.
    + destruct s as [|c s]; simpl; [lia|].
      simpl in Hle. assert (length (replace_think s) <= n) by (apply IH; lia).
      lia.
Qed.

Lemma match_at_nil : match_at [] = None.
Proof. reflexivity. Qed.

Lemma has_segmentb_spec s : has_segmentb s = true <-> has_segment s.
Proof.
  unfold has_segment. induction s as [|c s IH].
  - split.
    + cbn [has_segmentb]. rewrite match_at_nil. discriminate.
    + intros [i H]. destruct i; cbn [skipn] in H;
        rewrite match_at_nil in H; congruence.
  - cbn [has_segmentb]. destruct (match_at (c :: s)) eqn:E.
    + split; [|reflexivity]. intros _. exists 0. cbn [skipn]. rewrite E.
      discriminate.
    + rewrite IH. split.
      * intros [i H]. exists (S i). exact H.
      * intros [i H]. destruct i as [|i]; [cbn [skipn] in H; congruence|].
        exists i. exact H.
Qed.

(** Without a segment the replace leaves the string alone. *)
Lemma replace_think_no_segment s :
  has_segmentb s = false -> replace_think s = s.
Proof.
  induction s as [|c s IH]; intros H.
  - reflexivity.
  - rewrite replace_think_eq. cbn [has_segmentb] in H.
    destruct (match_at (c :: s)); [discriminate|].
    f_equal. now apply IH.
Qed.

(** With a segment the replace shortens the string. *)
Lemma replace_think_segment_shorter s :
  has_segmentb s = true -> length (replace_think s) < length s.
Proof.
  induction s as [|c s IH]; intros H.
  - cbn [has_segmentb] in H. rewrite match_at_nil in H. discriminate.
  - rewrite replace_think_eq. cbn [has_segmentb] in H.
    destruct (match_at (c :: s)) as [r|] eqn:E.
    + apply match_at_length in E.
      pose proof (replace_think_length r). lia.
    + simpl. apply IH in H. lia.
Qed.

(** What a match takes away. *)
Lemma ci_prefix_split pat : forall s r,
  ci_prefix pat s = Some r -> exists o, s = o ++ r /\ is_tag pat o.
Proof.
  induction pat as [|p pat IH]; intros s r H; cbn [ci_prefix] in H.
  - injection H as <-. exists []. split; [reflexivity|constructor].
  - destruct s as [|c s]; [discriminate|].
    destruct (ci_eq p c) eqn:E; [|discriminate].
    destruct (IH _ _ H) as (o & -> & Ho).
    exists (c :: o). split; [reflexivity|]. now constructor.
Qed.

Lemma find_close_split : forall s r,
  find_close s = Some r ->
  exists body c, s = body ++ c ++ r /\ is_tag close_tag c.
Proof.
  induction s as [|x s IH]; intros r H.
  - cbn in H. discriminate.
  - cbn [find_close] in H.
    destruct (ci_prefix close_tag (x :: s)) as [r'|] eqn:E.
    + injection H as <-. apply ci_prefix_split in E as (c & E & Hc).
      exists [], c. split; [exact E|exact Hc].
    + destruct (IH _ H) as (body & c & -> & Hc).
      exists (x :: body), c. split; [reflexivity|exact Hc].
Qed.

Lemma drop_spaces_split s :
  exists ws, s = ws ++ drop_spaces s
             /\ Forall (fun x => is_space x = true) ws.
Proof.
  induction s as [|c s (ws & E & Hws)]; cbn [drop_spaces].
  - exists []. split; [reflexivity|constructor].
  - destruct (is_space c) eqn:Ec.
    + exists (c :: ws). split; [cbn [app]; now rewrite <- E|].
      now constructor.
    + exists []. split; [reflexivity|constructor].
Qed.

Lemma match_at_split s r :
  match_at s = Some r -> exists seg, s = seg ++ r /\ think_match seg.
Proof.
  unfold match_at. intros H.
  destruct (ci_prefix open_tag s) as [body|] eqn:E; [|discriminate].
  destruct (find_close body) as [r'|] eqn:F; [|discriminate].
  injection H as <-.
  apply ci_prefix_split in E as (o & -> & Ho).
  apply find_close_split in F as (b & c & -> & Hc).
  destruct (drop_spaces_split r') as (ws & E & Hws).
  exists (o ++ b ++ c ++ ws). split.
  - rewrite E at 1. now rewrite <- !app_assoc.
  - exists o, b, c, ws. auto.
Qed.

(** The replace removes matches and nothing else. *)
Lemma replace_think_removes_bounded n : forall s,
  length s <= n -> removes_matches s (replace_think s).
Proof.
  induction n as [|n IH]; intros s Hn.
  - destruct s; [constructor|simpl in Hn; lia].
  - rewrite replace_think_eq.
    destruct (match_at s) as [r|] eqn:E.
    + pose proof (match_at_length _ E) as Hl.
      apply match_at_split in E as (seg & -> & Hseg).
      apply removes_drop; [exact Hseg|]. apply IH. lia.
    + destruct s as [|c s]; [constructor|].
      apply removes_keep, IH. simpl in Hn. lia.
Qed.

Lemma replace_think_removes s : removes_matches s (replace_think s).
Proof. now apply (@replace_think_removes_bounded (length s)). Qed.

End ThinkFacts.

(* ================================================================= *)
(** ** Lemmas on strings and objects *)

Section JsFacts.
Import Js.

Lemma jsstring_eqb_eq a : forall b, jsstring_eqb a b = true <-> a = b.
Proof.
  induction a as [|x a IH]; intros [|y b]; simpl; split;
    try discriminate; try reflexivity.
  - intros H. apply andb_true_iff in H as [H1 H2].
    apply N.eqb_eq in H1. apply IH in H2. now subst.
  - intros H. injection H as -> ->. rewrite N.eqb_refl.
    now apply IH.
Qed.

Lemma jsstring_eqb_refl a : jsstring_eqb a a = true.
Proof. now apply jsstring_eqb_eq. Qed.

Lemma jsstring_eqb_neq a b : a <> b -> jsstring_eqb a b = false.
Proof.
  intros H. destruct (jsstring_eqb a b) eqn:E; [|reflexivity].
  apply jsstring_eqb_eq in E. contradiction.
Qed.

Lemma jsstring_eqb_sym a b : jsstring_eqb a b = jsstring_eqb b a.
Proof.
  destruct (jsstring_eqb a b) eqn:E.
  - apply jsstring_eqb_eq in E. subst. now rewrite jsstring_eqb_refl.
  - destruct (jsstring_eqb b a) eqn:F; [|reflexivity].
    apply jsstring_eqb_eq in F. subst.
    now rewrite jsstring_eqb_refl in E.
Qed.

Lemma obj_get_set_same k v o : obj_get k (obj_set k v o) = v.
Proof.
  induction o as [|[k' v'] o IH]; simpl.
  - now rewrite jsstring_eqb_refl.
  - destruct (jsstring_eqb k k') eqn:E; simpl.
    + now rewrite jsstring_eqb_refl.
    + now rewrite E.
Qed.

Lemma obj_get_set_other k k' v o :
  k <> k' -> obj_get k (obj_set k' v o) = obj_get k o.
Proof.
  intros Hne. induction o as [|[k2 v2] o IH]; simpl.
  - now rewrite (jsstring_eqb_neq Hne).
  - destruct (jsstring_eqb k' k2) eqn:E; simpl.
    + apply jsstring_eqb_eq in E. subst k2.
      now rewrite (jsstring_eqb_neq Hne).
    + now rewrite IH.
Qed.

Lemma obj_get_delete_same k o : obj_get k (obj_delete k o) = JUndefined.
Proof.
  induction o as [|[k' v'] o IH]; simpl; [reflexivity|].
  destruct (jsstring_eqb k k') eqn:E; simpl; [exact IH|].
  now rewrite E.
Qed.

Lemma obj_get_delete_other k k' o :
  k <> k' -> obj_get k (obj_delete k' o) = obj_get k o.
Proof.
  intros Hne. induction o as [|[k2 v2] o IH]; simpl; [reflexivity|].
  destruct (jsstring_eqb k' k2) eqn:E; simpl.
  - apply jsstring_eqb_eq in E. subst k2.
    now rewrite (jsstring_eqb_neq Hne).
  - now rewrite IH.
Qed.

(** Decimal digits. *)

Lemma uint_chars_digits d : Forall is_digit_char (uint_chars d).
Proof.
  induction d; simpl; constructor; try assumption;
    unfold is_digit_char; lia.
Qed.

Lemma N_to_chars_digits n : Forall is_digit_char (N_to_chars n).
Proof. apply uint_chars_digits. Qed.

Lemma uint_chars_nil d : uint_chars d = [] -> d = Decimal.Nil.
Proof. destruct d; simpl; intros H; try discriminate; reflexivity. Qed.

Lemma N_to_chars_nonempty n : N_to_chars n <> [].
Proof.
  unfold N_to_chars. intros H. apply uint_chars_nil in H.
  destruct n as [|p]; simpl in H; [discriminate|].
  now apply (DecimalPos.Unsigned.to_uint_nonnil p).
Qed.

(** The index keys of an array or a string are decimal numbers. *)
Lemma obj_get_index_from k : forall l i,
  (exists c, In c k /\ ~ is_digit_char c) ->
  obj_get k (index_from i l) = JUndefined.
Proof.
  intros l i [c [Hin Hc]]. revert i.
  induction l as [|x l IH]; intros i; simpl; [reflexivity|].
  rewrite jsstring_eqb_neq; [apply IH|].
  intros ->. pose proof (N_to_chars_digits i) as HF.
  rewrite Forall_forall in HF. apply Hc. now apply HF.
Qed.

End JsFacts.

(* ================================================================= *)
(** ** The serialised payload and its byte length *)

Section PayloadFacts.
Import Js Json LangChain Qa.

Lemma byteLength_ascii_app a b :
  ascii_only a -> byteLength (a ++ b) = length a + byteLength b.
Proof.
  induction 1 as [|c a Hc Ha IH]; [reflexivity|].
  cbn [app byteLength length].
  apply N.ltb_lt in Hc. rewrite Hc. now rewrite IH.
Qed.

Lemma number_to_string_ascii z : ascii_only (number_to_string z).
Proof.
  assert (H : forall n, ascii_only (N_to_chars n)).
  { intros n. unfold ascii_only.
    eapply Forall_impl; [|apply N_to_chars_digits].
    unfold is_digit_char. intros c. simpl. lia. }
  destruct z; simpl; try apply H.
  constructor; [lia|apply H].
Qed.

(** The payload is serialised with the time stamp in second place,
    before the messages. *)
Lemma stringify_payload_at t msgs :
  stringify (payload_at t msgs)
  = Some ((123%N :: quote (lit "schemaVersion") ++ lit ":1,"
             ++ quote (lit "updatedAt") ++ lit ":")
            ++ number_to_string t
            ++ (44%N :: quote (lit "messages") ++ 58%N
                  :: (91%N :: join (lit ",")
                                (map (element stringify)
                                   (mapMessagesForStorage msgs)) ++ [93%N])
                  ++ [125%N])).
Proof.
  unfold payload_at. cbn -[mapMessagesForStorage number_to_string join].
  cbn [join]. change (number_to_string 1) with [49%N].
  cbn -[mapMessagesForStorage number_to_string join].
  repeat (rewrite <- ?app_assoc; cbn [app]). reflexivity.
Qed.

Lemma byteLength_same_digits a n1 n2 tail :
  ascii_only a -> ascii_only n1 -> ascii_only n2 ->
  length n1 = length n2 ->
  byteLength (a ++ n1 ++ tail) = byteLength (a ++ n2 ++ tail).
Proof.
  intros Ha H1 H2 Hlen.
  rewrite (byteLength_ascii_app (n1 ++ tail) Ha).
  rewrite (byteLength_ascii_app (n2 ++ tail) Ha).
  rewrite (byteLength_ascii_app tail H1).
  rewrite (byteLength_ascii_app tail H2).
  now rewrite Hlen.
Qed.

Lemma payload_head_ascii :
  ascii_only (123%N :: quote (lit "schemaVersion") ++ lit ":1,"
                ++ quote (lit "updatedAt") ++ lit ":").
Proof. unfold ascii_only. vm_compute. repeat constructor. Qed.

Lemma byteLength_payload t t' msgs s s' :
  stringify (payload_at t msgs) = Some s ->
  stringify (payload_at t' msgs) = Some s' ->
  length (number_to_string t) = length (number_to_string t') ->
  byteLength s = byteLength s'.
Proof.
  intros Hs Hs' Hlen.
  rewrite stringify_payload_at in Hs, Hs'.
  apply (f_equal (fun o => match o with Some x => x | None => [] end)) in Hs.
  apply (f_equal (fun o => match o with Some x => x | None => [] end)) in Hs'.
  cbv beta iota in Hs, Hs'. subst s s'.
  apply byteLength_same_digits; auto using number_to_string_ascii.
  exact payload_head_ascii.
Qed.

End PayloadFacts.

(* ================================================================= *)
(** ** Reading back a quoted string *)

Section QuoteFacts.
Import Js Json.

Lemma hex_digits_value (c : N) :
  (c < 65536)%N ->
  (4096 * ((c / 4096) mod 16) + 256 * ((c / 256) mod 16)
   + 16 * ((c / 16) mod 16) + c mod 16 = c)%N.
Proof.
  intros H.
  pose proof (N.div_mod c 16) as E0.
  pose proof (N.div_mod (c / 16) 16) as E1.
  pose proof (N.div_mod (c / 16 / 16) 16) as E2.
  rewrite !N.Div0.div_div in E1, E2.
  change (16 * 16)%N with 256%N in *. change (256 * 16)%N with 4096%N in *.
  assert (E3 : (c / 4096 < 16)%N) by (apply N.Div0.div_lt_upper_bound; lia).
  rewrite (N.mod_small (c / 4096) 16) by exact E3.
  specialize (E0 ltac:(lia)). specialize (E1 ltac:(lia)).
  specialize (E2 ltac:(lia)).
  rewrite N.Div0.div_div in E2. change (256 * 16)%N with 4096%N in E2.
  lia.
Qed.

Lemma hexval_hexdig d : (d < 16)%N -> hexval (hexdig d) = Some d.
Proof.
  intros H. unfold hexdig, hexval.
  destruct (N.ltb_spec d 10).
  - replace ((48 <=? 48 + d) && (48 + d <=? 57))%N with true.
    + f_equal. lia.
    + symmetry. apply andb_true_iff. split; apply N.leb_le; lia.
  - replace ((48 <=? 87 + d) && (87 + d <=? 57))%N with false.
    + replace ((97 <=? 87 + d) && (87 + d <=? 102))%N with true.
      * f_equal. lia.
      * symmetry. apply andb_true_iff. split; apply N.leb_le; lia.
    + symmetry. apply andb_false_iff. right. apply N.leb_gt. lia.
Qed.

Lemma parse_unicode_escape c t :
  (c < 65536)%N ->
  parse_string_chars (unicode_escape c ++ t)
  = then_cons c (parse_string_chars t).
Proof.
  intros H. unfold unicode_escape, then_cons.
  cbn [app parse_string_chars].
  change (92 =? 34)%N with false. change (92 =? 92)%N with true.
  change (117 =? 117)%N with true. cbv iota.
  rewrite !hexval_hexdig by (apply N.mod_lt; lia).
  rewrite (@hex_digits_value c H). reflexivity.
Qed.

Lemma parse_literal_unit c t :
  c <> 34%N -> c <> 92%N -> (32 <= c)%N ->
  parse_string_chars (c :: t) = then_cons c (parse_string_chars t).
Proof.
  intros H1 H2 H3. cbn [parse_string_chars].
  apply N.eqb_neq in H1, H2. rewrite H1, H2.
  replace (c <? 32)%N with false by (symmetry; apply N.ltb_ge; lia).
  reflexivity.
Qed.

Lemma is_high_range c : is_high c = true -> (55296 <= c <= 56319)%N.
Proof.
  unfold is_high. intros H. apply andb_true_iff in H as [H1 H2].
  apply N.leb_le in H1, H2. lia.
Qed.

Lemma is_low_range c : is_low c = true -> (56320 <= c <= 57343)%N.
Proof.
  unfold is_low. intros H. apply andb_true_iff in H as [H1 H2].
  apply N.leb_le in H1, H2. lia.
Qed.

Lemma parse_escape_unit c t :
  parse_string_chars (escape_unit c ++ t) = then_cons c (parse_string_chars t).
Proof.
  unfold escape_unit.
  repeat match goal with
         | |- context [(c =? ?k)%N] =>
             destruct (N.eqb_spec c k);
             [subst c; reflexivity|]
         end.
  destruct (N.ltb_spec c 32).
  { apply parse_unicode_escape. lia. }
  destruct (is_high c || is_low c) eqn:E.
  { apply parse_unicode_escape.
    apply orb_true_iff in E as [E|E];
      [apply is_high_range in E | apply is_low_range in E]; lia. }
  now apply parse_literal_unit.
Qed.

(** A quoted string is read back as it was. *)
Lemma parse_quote_chars_bounded n : forall s rest,
  length s <= n ->
  parse_string_chars (quote_chars s ++ 34%N :: rest) = Ok (s, rest).
Proof.
  induction n as [|n IH]; intros s rest Hn.
  - destruct s; [reflexivity|simpl in Hn; lia].
  - destruct s as [|c s1]; [reflexivity|].
    cbn [quote_chars]. simpl in Hn.
    destruct (is_high c) eqn:Eh.
    + apply is_high_range in Eh as Hc.
      destruct s1 as [|d s2].
      * rewrite parse_unicode_escape by lia. reflexivity.
      * destruct (is_low d) eqn:El.
        -- apply is_low_range in El as Hd. simpl in Hn.
           cbn [app].
           rewrite parse_literal_unit by lia.
           rewrite parse_literal_unit by lia.
           rewrite IH by lia. reflexivity.
        -- rewrite <- app_assoc, parse_unicode_escape by lia.
           rewrite IH by lia. reflexivity.
    + rewrite <- app_assoc, parse_escape_unit.
      rewrite IH by lia. reflexivity.
Qed.

Lemma parse_quote_chars s rest :
  parse_string_chars (quote_chars s ++ 34%N :: rest) = Ok (s, rest).
Proof. now apply (@parse_quote_chars_bounded (length s)). Qed.

End QuoteFacts.

(* ================================================================= *)
(** ** Reading back a number *)

Section NumberFacts.
Import Js Json.

Lemma is_digit_true c : is_digit_char c -> is_digit c = true.
Proof.
  unfold is_digit_char, is_digit. intros [H1 H2].
  apply andb_true_iff. split; apply N.leb_le; assumption.
Qed.

Lemma ends_value_not_digit c rest :
  ends_value (c :: rest) ->
  is_digit c = false
  /\ ((c =? 46) || (c =? 101) || (c =? 69))%N = false.
Proof.
  cbn. intros [->|[->| ->]]; split; reflexivity.
Qed.

Lemma take_digits_app ds rest :
  Forall is_digit_char ds -> ends_value rest ->
  take_digits (ds ++ rest) = (ds, rest).
Proof.
  intros Hd Hr. induction Hd as [|c ds Hc _ IH]; cbn [app take_digits].
  - destruct rest as [|c rest]; [reflexivity|].
    cbn [take_digits].
    now rewrite (proj1 (@ends_value_not_digit _ _ Hr)).
  - now rewrite (@is_digit_true _ Hc), IH.
Qed.

Lemma chars_uint_uint_chars d : chars_uint (uint_chars d) = d.
Proof. induction d; cbn; now rewrite ?IHd. Qed.

(** The decimal form of a number has no superfluous leading zero. *)
Lemma unorm_fixed_head d d' :
  Decimal.unorm d = d -> d = Decimal.D0 d' -> d' = Decimal.Nil.
Proof.
  intros Hn ->. destruct d' as [| | | | | | | | | |]; try reflexivity;
    exfalso;
    rewrite DecimalFacts.unorm_D0 in Hn;
    match type of Hn with
    | Decimal.unorm ?u = _ =>
        assert (Hu : u <> Decimal.Nil) by discriminate;
        pose proof (DecimalFacts.nb_digits_unorm u Hu) as Hle;
        rewrite Hn in Hle; cbn [Decimal.nb_digits] in Hle; lia
    end.
Qed.

Lemma to_uint_normal n : Decimal.unorm (N.to_uint n) = N.to_uint n.
Proof.
  rewrite <- (DecimalN.Unsigned.to_of (N.to_uint n)).
  now rewrite DecimalN.Unsigned.of_to.
Qed.

Lemma N_to_chars_head n :
  exists c cs,
    N_to_chars n = c :: cs /\ is_digit_char c
    /\ ((c =? 48)%N && negb (Nat.eqb (length cs) 0)) = false.
Proof.
  unfold N_to_chars.
  pose proof (to_uint_normal n) as Hn.
  pose proof (uint_chars_digits (N.to_uint n)) as Hd.
  pose proof (@N_to_chars_nonempty n) as Hne. unfold N_to_chars in Hne.
  destruct (N.to_uint n) as [|d'|d'|d'|d'|d'|d'|d'|d'|d'|d'] eqn:E;
    [contradiction| |..];
    cbn [uint_chars] in *; inversion Hd as [|? ? Hc _]; subst;
    do 2 eexists; (split; [reflexivity|]); (split; [exact Hc|]);
    try reflexivity.
  rewrite (@unorm_fixed_head _ _ Hn eq_refl). reflexivity.
Qed.

Lemma parse_unsigned_N n rest :
  ends_value rest ->
  parse_unsigned (N_to_chars n ++ rest) = Ok (n, rest).
Proof.
  intros Hr. unfold parse_unsigned.
  rewrite (@take_digits_app _ _ (N_to_chars_digits n) Hr).
  destruct (N_to_chars_head n) as (c & cs & E & _ & Hz).
  rewrite E, Hz. rewrite <- E.
  unfold N_to_chars. rewrite chars_uint_uint_chars, DecimalN.Unsigned.of_to.
  destruct rest as [|c0 rest]; [reflexivity|].
  now rewrite (proj2 (@ends_value_not_digit _ _ Hr)).
Qed.

Lemma parse_number_Z z rest :
  ends_value rest ->
  parse_number (number_to_string z ++ rest) = Ok (z, rest).
Proof.
  intros Hr.
  assert (Hpos : forall n,
    parse_number (N_to_chars n ++ rest) = Ok (Z.of_N n, rest)).
  { intros n. unfold parse_number.
    destruct (N_to_chars_head n) as (c & cs & E & [Hc1 Hc2] & _).
    rewrite E. cbn [app].
    replace (c =? 45)%N with false by (symmetry; apply N.eqb_neq; lia).
    change (c :: cs ++ rest) with ((c :: cs) ++ rest). rewrite <- E.
    now rewrite (@parse_unsigned_N n rest Hr). }
  destruct z as [|p|p]; cbn [number_to_string].
  - apply (Hpos 0%N).
  - apply (Hpos (Npos p)).
  - cbn [app parse_number]. change (45 =? 45)%N with true. cbv iota.
    now rewrite (@parse_unsigned_N (Npos p) rest Hr).
Qed.

End NumberFacts.

(* ================================================================= *)
(** ** Reading back a serialised value *)

Section RoundTrip.
Import Js Json.

Lemma stringify_none v : stringify v = None -> v = JUndefined.
Proof. destruct v as [| |[|]| | | |]; cbn; intros H; try discriminate; reflexivity. Qed.

Lemma number_to_string_head z :
  exists c cs, number_to_string z = c :: cs /\ (c = 45%N \/ is_digit_char c).
Proof.
  destruct z as [|p|p]; cbn [number_to_string].
  - destruct (N_to_chars_head 0) as (c & cs & E & Hc & _). eauto.
  - destruct (N_to_chars_head (Npos p)) as (c & cs & E & Hc & _). eauto.
  - eauto.
Qed.

Lemma stringify_head v t :
  stringify v = Some t -> exists c t', t = c :: t' /\ value_start c.
Proof.
  destruct v as [| |[|]|z|s|l|o]; cbn [stringify]; intros H;
    try discriminate; injection H as <-;
    try (do 2 eexists; split; [reflexivity|]; repeat split; reflexivity).
  destruct (number_to_string_head z) as (c & cs & -> & Hc).
  do 2 eexists. split; [reflexivity|].
  unfold value_start, is_ws.
  destruct Hc as [->|[H1 H2]]; [repeat split; reflexivity|].
  repeat split;
    repeat match goal with
           | |- context [(c =? ?k)%N] =>
               replace (c =? k)%N with false
                 by (symmetry; apply N.eqb_neq; lia)
           end; reflexivity.
Qed.

Lemma element_head x :
  exists c t', element stringify x = c :: t' /\ value_start c.
Proof.
  unfold element. destruct (stringify x) as [t|] eqn:E.
  - now apply stringify_head in E.
  - do 2 eexists. split; [reflexivity|]. repeat split; reflexivity.
Qed.

Lemma skip_ws_start c t : value_start c -> skip_ws (c :: t) = c :: t.
Proof. intros [H _]. cbn [skip_ws]. now rewrite H. Qed.

Lemma join_one (sep x : jsstring) : join sep [x] = x.
Proof. reflexivity. Qed.

Lemma join_more (sep x y : jsstring) l :
  join sep (x :: y :: l) = x ++ sep ++ join sep (y :: l).
Proof. reflexivity. Qed.

Lemma join_head (sep : jsstring) c t l :
  exists t', join sep ((c :: t) :: l) = c :: t'.
Proof. destruct l; cbn [join app]; eauto. Qed.

(** The unfolding equations of the parser. *)
Lemma parse_elements_S fuel s :
  parse_elements (S fuel) s =
  bind (parse_value fuel s)
    (fun x => let (v, r) := x in
       match skip_ws r with
       | c :: r' =>
           if (c =? 44)%N then
             bind (parse_elements fuel (skip_ws r'))
               (fun y => let (l, r2) := y in Ok (v :: l, r2))
           else if (c =? 93)%N then Ok ([v], r')
           else Throw SyntaxError
       | [] => Throw SyntaxError
       end).
Proof. reflexivity. Qed.

Lemma parse_members_quote fuel k s :
  parse_members (S fuel) (quote k ++ 58%N :: s) =
  bind (parse_value fuel (skip_ws s))
    (fun x => let (v, r2) := x in
       match skip_ws r2 with
       | c3 :: r3 =>
           if (c3 =? 44)%N then
             bind (parse_members fuel (skip_ws r3))
               (fun y => let (ms, r4) := y in Ok ((k, v) :: ms, r4))
           else if (c3 =? 125)%N then Ok ([(k, v)], r3)
           else Throw SyntaxError
       | [] => Throw SyntaxError
       end).
Proof.
  unfold quote. cbn [parse_members app]. change (34 =? 34)%N with true.
  cbv iota. rewrite <- app_assoc. cbn [app].
  rewrite parse_quote_chars. cbn [bind skip_ws].
  change (is_ws 58) with false. cbv iota.
  change (58 =? 58)%N with true. cbv iota. reflexivity.
Qed.

Lemma parse_value_array fuel s :
  parse_value (S fuel) (91%N :: s) =
  match skip_ws s with
  | c1 :: r1 =>
      if (c1 =? 93)%N then Ok (JArr [], r1)
      else bind (parse_elements fuel (c1 :: r1))
             (fun x => let (l, r) := x in Ok (JArr l, r))
  | [] => Throw SyntaxError
  end.
Proof. reflexivity. Qed.

Lemma parse_value_object fuel s :
  parse_value (S fuel) (123%N :: s) =
  match skip_ws s with
  | c1 :: r1 =>
      if (c1 =? 125)%N then Ok (JObj [], r1)
      else bind (parse_members fuel (c1 :: r1))
             (fun x => let (ms, r) := x in Ok (JObj (build_object ms), r))
  | [] => Throw SyntaxError
  end.
Proof. reflexivity. Qed.

Lemma parse_value_string fuel s :
  parse_value (S fuel) (34%N :: s) =
  bind (parse_string_chars s) (fun x => let (t, r) := x in Ok (JStr t, r)).
Proof. reflexivity. Qed.

Lemma parse_value_number fuel c s :
  c = 45%N \/ is_digit_char c ->
  parse_value (S fuel) (c :: s) =
  bind (parse_number (c :: s)) (fun x => let (z, r) := x in Ok (JNum z, r)).
Proof.
  intros H. cbn [parse_value].
  repeat match goal with
         | |- context [(c =? ?k)%N] =>
             replace (c =? k)%N with false
               by (symmetry; apply N.eqb_neq;
                   destruct H as [->|[? ?]]; [discriminate|lia])
         end.
  reflexivity.
Qed.

Lemma reads_back_element x :
  reads_back x ->
  forall fuel rest,
    length (element stringify x) < fuel -> ends_value rest ->
    parse_value fuel (element stringify x ++ rest)
    = Ok (normal_element normal x, rest).
Proof.
  intros Hx fuel rest Hf Hr. unfold element in *.
  destruct (stringify x) as [t|] eqn:E.
  - rewrite (Hx t E fuel rest Hf Hr).
    destruct x; try reflexivity. discriminate.
  - apply stringify_none in E. subst x.
    destruct fuel as [|fuel]; [inversion Hf|]. reflexivity.
Qed.

Lemma reads_back_elements xs :
  Forall reads_back xs -> xs <> [] ->
  forall fuel rest,
    length (join (lit ",") (map (element stringify) xs)) + 1 < fuel ->
    parse_elements fuel
      (join (lit ",") (map (element stringify) xs) ++ 93%N :: rest)
    = Ok (map (normal_element normal) xs, rest).
Proof.
  induction 1 as [|x xs Hx Hxs IH]; intros Hne fuel rest Hf;
    [contradiction|].
  destruct fuel as [|fuel]; [inversion Hf|].
  rewrite parse_elements_S.
  destruct xs as [|y xs].
  - cbn [map] in *. rewrite join_one in *.
    rewrite (reads_back_element Hx); [|lia|cbn; auto].
    reflexivity.
  - cbn [map] in *. rewrite join_more in *.
    rewrite <- !app_assoc. change (lit "," ++ ?a) with (44%N :: a).
    rewrite !length_app in Hf. change (length (lit ",")) with 1 in Hf.
    rewrite (reads_back_element Hx); [|lia|cbn; auto].
    cbn [bind skip_ws]. change (is_ws 44) with false. cbv iota.
    change (44 =? 44)%N with true. cbv iota.
    destruct (element_head y) as (c & t' & Ey & Hc).
    assert (Hs : forall r,
      skip_ws (join (lit ",")
                 (element stringify y :: map (element stringify) xs) ++ r)
      = join (lit ",")
          (element stringify y :: map (element stringify) xs) ++ r).
    { intros r. rewrite Ey.
      destruct (join_head (lit ",") c t' (map (element stringify) xs))
        as [t2 ->].
      now apply skip_ws_start. }
    rewrite Hs, IH; [reflexivity|discriminate|lia].
Qed.

Lemma members_quoted o :
  Forall (fun m => exists t, m = 34%N :: t) (members stringify o).
Proof.
  induction o as [|[k x] o IH]; cbn [members]; [constructor|].
  destruct (stringify x); [|exact IH].
  constructor; [|exact IH]. unfold quote. cbn [app]. eauto.
Qed.

Lemma members_nil o :
  members stringify o = [] -> normal_members normal o = [].
Proof.
  induction o as [|[k x] o IH]; cbn [members normal_members];
    [reflexivity|].
  destruct (stringify x) eqn:E; [discriminate|].
  apply stringify_none in E. subst x. exact IH.
Qed.

Lemma reads_back_members o :
  Forall (fun kv => reads_back (snd kv)) o ->
  members stringify o <> [] ->
  forall fuel rest,
    length (join (lit ",") (members stringify o)) + 1 < fuel ->
    parse_members fuel (join (lit ",") (members stringify o) ++ 125%N :: rest)
    = Ok (normal_members normal o, rest).
Proof.
  induction 1 as [|[k x] o Hx Ho IH]; intros Hne fuel rest Hf;
    [contradiction|].
  cbn [members normal_members snd] in *.
  destruct (stringify x) as [t|] eqn:E.
  2:{ apply stringify_none in E. subst x. now apply IH. }
  assert (Hn : match x with
               | JUndefined => normal_members normal o
               | _ => (k, normal x) :: normal_members normal o
               end = (k, normal x) :: normal_members normal o).
  { destruct x; try reflexivity. discriminate. }
  rewrite Hn. clear Hn.
  destruct fuel as [|fuel]; [inversion Hf|].
  destruct (stringify_head _ E) as (c & t' & Et & Hc).
  destruct (members stringify o) as [|m2 ms] eqn:Em.
  - rewrite join_one in *. rewrite <- app_assoc. cbn [app].
    rewrite length_app in Hf. cbn [length] in Hf.
    rewrite parse_members_quote.
    rewrite Et at 1. cbn [app]. rewrite (skip_ws_start _ Hc).
    change (c :: t' ++ 125%N :: rest) with ((c :: t') ++ 125%N :: rest).
    rewrite <- Et.
    rewrite (Hx t E); [|lia|cbn; auto].
    rewrite (members_nil _ Em). reflexivity.
  - rewrite join_more in *. rewrite <- !app_assoc. cbn [app].
    change (lit "," ++ ?a) with (44%N :: a).
    rewrite !length_app in Hf. change (length (lit ",")) with 1 in Hf.
    cbn [length] in Hf.
    rewrite parse_members_quote.
    rewrite Et at 1. cbn [app]. rewrite (skip_ws_start _ Hc).
    match goal with
    | |- context [parse_value fuel (c :: t' ++ ?r)] =>
        change (c :: t' ++ r) with ((c :: t') ++ r)
    end.
    rewrite <- Et.
    rewrite (Hx t E); [|lia|cbn; auto].
    cbn [bind skip_ws]. change (is_ws 44) with false. cbv iota.
    change (44 =? 44)%N with true. cbv iota.
    pose proof (members_quoted o) as Hq. rewrite Em in Hq.
    inversion Hq as [|? ? [t2 ->] _]; subst.
    destruct (join_head (lit ",") 34%N t2 ms) as [t3 Ej].
    rewrite Ej in *. cbn [app skip_ws]. change (is_ws 34) with false.
    cbv iota.
    change (34%N :: t3 ++ 125%N :: rest) with ((34%N :: t3) ++ 125%N :: rest).
    rewrite IH; [reflexivity|discriminate|].
    cbn [length] in *. lia.
Qed.

(** Every value that [stringify] writes is read back as its normal
    form. *)
Lemma stringify_reads_back v : reads_back v.
Proof.
  induction v as [| |b|z|s|l IH|o IH] using jsval_ind;
    intros t Ht fuel rest Hf Hr;
    cbn [stringify] in Ht; try discriminate;
    (destruct fuel as [|fuel]; [inversion Hf|]).
  - injection Ht as <-. reflexivity.
  - destruct b; injection Ht as <-; reflexivity.
  - injection Ht as <-.
    destruct (number_to_string_head z) as (c & cs & E & Hc).
    rewrite E. cbn [app]. rewrite (@parse_value_number fuel c (cs ++ rest) Hc).
    change (c :: cs ++ rest) with ((c :: cs) ++ rest). rewrite <- E.
    now rewrite (@parse_number_Z z rest Hr).
  - injection Ht as <-. unfold quote. cbn [app].
    rewrite parse_value_string, <- app_assoc. cbn [app].
    now rewrite parse_quote_chars.
  - injection Ht as <-. cbn [app length] in *.
    rewrite length_app in Hf. cbn [length] in Hf.
    rewrite parse_value_array, <- app_assoc. cbn [app normal].
    destruct l as [|x l].
    + reflexivity.
    + destruct (element_head x) as (c & t' & Ex & Hc).
      cbn [map] in *. set (J := join _ _) in *.
      destruct (join_head (lit ",") c t' (map (element stringify) l))
        as [t2 Ej].
      rewrite <- Ex in Ej. fold J in Ej.
      assert (Hs : skip_ws (J ++ 93%N :: rest) = c :: t2 ++ 93%N :: rest).
      { rewrite Ej. cbn [app]. now apply skip_ws_start. }
      rewrite Hs. destruct Hc as (_ & -> & _).
      change (c :: t2 ++ 93%N :: rest) with ((c :: t2) ++ 93%N :: rest).
      rewrite <- Ej. unfold J.
      rewrite (@reads_back_elements (x :: l) IH); [reflexivity|discriminate|].
      subst J. cbn [map]. lia.
  - injection Ht as <-. cbn [app length] in *.
    rewrite length_app in Hf. cbn [length] in Hf.
    rewrite parse_value_object, <- app_assoc. cbn [app normal].
    destruct (members stringify o) as [|m ms] eqn:Em.
    + rewrite (members_nil _ Em). reflexivity.
    + pose proof (members_quoted o) as Hq. rewrite Em in Hq.
      inversion Hq as [|? ? [t2 ->] _]; subst.
      destruct (join_head (lit ",") 34%N t2 ms) as [t3 Ej].
      rewrite Ej in *. cbn [app skip_ws]. change (is_ws 34) with false.
      cbv iota. change (34 =? 125)%N with false. cbv iota.
      change (34%N :: t3 ++ 125%N :: rest)
        with ((34%N :: t3) ++ 125%N :: rest).
      rewrite <- Ej, <- Em.
      rewrite (@reads_back_members o IH); [reflexivity| |].
      * rewrite Em. discriminate.
      * rewrite Em, Ej. cbn [length] in *. lia.
Qed.

(** [JSON.parse (JSON.stringify v)] is the normal form of [v]. *)
Lemma JSON_parse_stringify v t :
  stringify v = Some t -> JSON_parse t = Ok (normal v).
Proof.
  intros Ht. unfold JSON_parse.
  destruct (stringify_head _ Ht) as (c & t' & -> & Hc).
  rewrite (skip_ws_start _ Hc).
  pose proof (@stringify_reads_back v _ Ht (2 * length (c :: t') + 1) []) as H.
  rewrite List.app_nil_r in H. rewrite H; [reflexivity|lia|exact I].
Qed.

End RoundTrip.

(* ================================================================= *)
(** ** The parser never runs out of fuel *)

Section ParserTotal.
Import Js Json.

Lemma progress_bind {A B : Type} n m (r : result (A * jsstring))
  (k : A * jsstring -> result (B * jsstring)) :
  progress n r ->
  (forall a rest, length rest < n -> progress m (k (a, rest))) ->
  progress m (bind r k).
Proof.
  destruct r as [[a rest]|e]; cbn [progress bind]; auto.
Qed.

Lemma progress_weaken {A : Type} n m (r : result (A * jsstring)) :
  progress n r -> n <= m -> progress m r.
Proof.
  destruct r as [[a rest]|e]; cbn [progress]; [lia|auto].
Qed.

Lemma progress_syntax {A : Type} n :
  progress n (Throw SyntaxError : result (A * jsstring)).
Proof. cbn. discriminate. Qed.

Lemma skip_ws_length s : length (skip_ws s) <= length s.
Proof.
  induction s as [|c s IH]; cbn [skip_ws length]; [lia|].
  destruct (is_ws c); cbn [length]; lia.
Qed.

Lemma parse_string_chars_progress_bounded n : forall s,
  length s <= n -> progress (length s) (parse_string_chars s).
Proof.
  induction n as [|n IH]; intros s Hn.
  - destruct s; [apply progress_syntax|simpl in Hn; lia].
  - destruct s as [|c s1]; [apply progress_syntax|].
    cbn [parse_string_chars]. cbn [length] in *.
    destruct (c =? 34)%N; [cbn; lia|].
    destruct (c =? 92)%N.
    + destruct s1 as [|e s2]; [apply progress_syntax|].
      cbn [length] in *.
      destruct (e =? 117)%N.
      * destruct s2 as [|h1 [|h2 [|h3 [|h4 s6]]]];
          try apply progress_syntax.
        destruct (hexval h1), (hexval h2), (hexval h3), (hexval h4);
          try apply progress_syntax.
        cbn [length] in *.
        eapply progress_bind; [apply (IH s6); lia|].
        intros a rest Hr. cbn. lia.
      * destruct (unescape e); [|apply progress_syntax].
        eapply progress_bind; [apply (IH s2); lia|].
        intros a rest Hr. cbn. lia.
    + destruct (c <? 32)%N; [apply progress_syntax|].
      eapply progress_bind; [apply (IH s1); lia|].
      intros a rest Hr. cbn. lia.
Qed.

Lemma parse_string_chars_progress s :
  progress (length s) (parse_string_chars s).
Proof. now apply (@parse_string_chars_progress_bounded (length s)). Qed.

Lemma take_digits_length s :
  length (fst (take_digits s)) + length (snd (take_digits s)) = length s.
Proof.
  induction s as [|c s IH]; cbn [take_digits]; [reflexivity|].
  destruct (is_digit c); [|reflexivity].
  destruct (take_digits s) as [d r]. cbn [fst snd length] in *. lia.
Qed.

Lemma parse_unsigned_progress s : progress (length s) (parse_unsigned s).
Proof.
  unfold parse_unsigned. pose proof (take_digits_length s) as H.
  destruct (take_digits s) as [ds r]. cbn [fst snd] in H.
  destruct ds as [|d ds']; [apply progress_syntax|].
  destruct ((d =? 48)%N && negb (Nat.eqb (length ds') 0));
    [apply progress_syntax|].
  destruct r as [|c r']; cbn [length] in H; [cbn; lia|].
  destruct ((c =? 46) || (c =? 101) || (c =? 69))%N; cbn;
    [discriminate|lia].
Qed.

Lemma parse_number_progress s : progress (length s) (parse_number s).
Proof.
  unfold parse_number. destruct s as [|c s']; [apply progress_syntax|].
  destruct (c =? 45)%N.
  - eapply progress_bind; [apply parse_unsigned_progress|].
    intros a rest Hr. cbn [progress length]. lia.
  - eapply progress_bind; [apply parse_unsigned_progress|].
    intros a rest Hr. cbn [progress]. exact Hr.
Qed.

Lemma strip_prefix_length p : forall s r,
  strip_prefix p s = Some r -> length r <= length s.
Proof.
  induction p as [|a p IH]; intros s r H; cbn [strip_prefix] in H.
  - injection H as <-. lia.
  - destruct s as [|c s]; [discriminate|].
    destruct (a =? c)%N; [|discriminate].
    apply IH in H. cbn [length]. lia.
Qed.

Lemma expect_progress p v s : progress (S (length s)) (expect p v s).
Proof.
  unfold expect. destruct (strip_prefix p s) as [r|] eqn:E;
    [|apply progress_syntax].
  apply strip_prefix_length in E. cbn. lia.
Qed.

(** With fuel for twice the length of the input, every call of the
    parser makes progress. *)
Lemma parser_progress fuel :
  (forall s, 2 * length s + 1 <= fuel ->
             progress (length s) (parse_value fuel s)
             \/ (s = [] /\ parse_value fuel s = Throw SyntaxError))
  /\ (forall s, 2 * length s + 2 <= fuel ->
                progress (length s) (parse_elements fuel s)
                \/ (s = [] /\ parse_elements fuel s = Throw SyntaxError))
  /\ (forall s, 2 * length s + 2 <= fuel ->
                progress (length s) (parse_members fuel s)
                \/ (s = [] /\ parse_members fuel s = Throw SyntaxError)).
Proof.
  induction fuel as [|fuel (IHv & IHe & IHm)].
  - repeat split; intros s H; lia.
  - assert (Hv : forall s, 2 * length s + 1 <= fuel ->
                 forall n, length s <= n -> n <> 0 ->
                 progress n (parse_value fuel s)).
    { intros s Hs n Hn Hn0. destruct (IHv s Hs) as [H|[-> H]].
      - eapply progress_weaken; eauto.
      - rewrite H. apply progress_syntax. }
    assert (He : forall s, 2 * length s + 2 <= fuel ->
                 forall n, length s <= n ->
                 progress n (parse_elements fuel s)).
    { intros s Hs n Hn. destruct (IHe s Hs) as [H|[-> H]].
      - eapply progress_weaken; eauto.
      - rewrite H. apply progress_syntax. }
    assert (Hm : forall s, 2 * length s + 2 <= fuel ->
                 forall n, length s <= n ->
                 progress n (parse_members fuel s)).
    { intros s Hs n Hn. destruct (IHm s Hs) as [H|[-> H]].
      - eapply progress_weaken; eauto.
      - rewrite H. apply progress_syntax. }
    clear IHv IHe IHm.
    split; [|split]; intros s Hf.
    + destruct s as [|c s']; [right; split; reflexivity|]. left.
      cbn [parse_value]. cbn [length] in *.
      destruct (c =? 123)%N.
      { pose proof (skip_ws_length s') as Hw.
        destruct (skip_ws s') as [|c1 r1]; [apply progress_syntax|].
        cbn [length] in Hw.
        destruct (c1 =? 125)%N; [cbn; lia|].
        eapply progress_bind;
          [apply (Hm (c1 :: r1)) with (n := length s'); cbn [length]; lia|].
        intros a rest Hr. cbn. lia. }
      destruct (c =? 91)%N.
      { pose proof (skip_ws_length s') as Hw.
        destruct (skip_ws s') as [|c1 r1]; [apply progress_syntax|].
        cbn [length] in Hw.
        destruct (c1 =? 93)%N; [cbn; lia|].
        eapply progress_bind;
          [apply (He (c1 :: r1)) with (n := length s'); cbn [length]; lia|].
        intros a rest Hr. cbn. lia. }
      destruct (c =? 34)%N.
      { eapply progress_bind; [apply parse_string_chars_progress|].
        intros a rest Hr. cbn. lia. }
      destruct (c =? 116)%N; [apply expect_progress|].
      destruct (c =? 102)%N; [apply expect_progress|].
      destruct (c =? 110)%N; [apply expect_progress|].
      eapply progress_bind; [apply parse_number_progress|].
      intros a rest Hr. cbn [progress length] in *. exact Hr.
    + destruct s as [|c0 s0] eqn:Es.
      { right. split; [reflexivity|]. cbn [parse_elements].
        destruct fuel; [cbn in Hf; lia|reflexivity]. }
      left. rewrite <- Es in *. assert (Hlen : length s <> 0) by (subst; discriminate).
      cbn [parse_elements].
      eapply progress_bind; [apply (Hv s) with (n := length s); lia|].
      intros v r Hr.
      pose proof (skip_ws_length r) as Hw.
      destruct (skip_ws r) as [|c r']; [apply progress_syntax|].
      cbn [length] in Hw.
      destruct (c =? 44)%N.
      { pose proof (skip_ws_length r') as Hw'.
        eapply progress_bind;
          [apply (He (skip_ws r')) with (n := length s); lia|].
        intros a rest Hr'. cbn. exact Hr'. }
      destruct (c =? 93)%N; [cbn; lia|apply progress_syntax].
    + destruct s as [|c s']; [right; split; reflexivity|]. left.
      cbn [parse_members]. cbn [length] in *.
      destruct (c =? 34)%N; [|apply progress_syntax].
      eapply progress_bind; [apply parse_string_chars_progress|].
      intros k r Hr.
      pose proof (skip_ws_length r) as Hw.
      destruct (skip_ws r) as [|c1 r1]; [apply progress_syntax|].
      cbn [length] in Hw.
      destruct (c1 =? 58)%N; [|apply progress_syntax].
      pose proof (skip_ws_length r1) as Hw1.
      eapply progress_bind;
        [apply (Hv (skip_ws r1)) with (n := length s'); lia|].
      intros v r2 Hr2.
      pose proof (skip_ws_length r2) as Hw2.
      destruct (skip_ws r2) as [|c3 r3]; [apply progress_syntax|].
      cbn [length] in Hw2.
      destruct (c3 =? 44)%N.
      { pose proof (skip_ws_length r3) as Hw3.
        eapply progress_bind;
          [apply (Hm (skip_ws r3)) with (n := length s'); lia|].
        intros a rest Hr'. cbn. lia. }
      destruct (c3 =? 125)%N; [cbn; lia|apply progress_syntax].
Qed.

(** [JSON.parse] returns a value or throws a syntax error (or meets a
    number outside the model): the fuel it provides is enough. *)
Lemma JSON_parse_total text : JSON_parse text <> Throw OutOfFuel.
Proof.
  unfold JSON_parse.
  pose proof (skip_ws_length text) as Hw.
  destruct (parser_progress (2 * length text + 1)) as [Hv _].
  destruct (Hv (skip_ws text) ltac:(lia)) as [H|[_ H]].
  - destruct (parse_value _ (skip_ws text)) as [[v r]|e]; cbn [bind].
    + destruct (skip_ws r); discriminate.
    + cbn in H. congruence.
  - rewrite H. discriminate.
Qed.

End ParserTotal.

(* ================================================================= *)
(** ** Sequencing *)

Section MonadFacts.
Import Qa.

Lemma mbind_ok {A B : Type} (m : M A) (k : A -> M B) w a w' :
  m w = (Ok a, w') -> mbind m k w = k a w'.
Proof. intros H. unfold mbind. now rewrite H. Qed.

Lemma mbind_throw {A B : Type} (m : M A) (k : A -> M B) w e w' :
  m w = (Throw e, w') -> mbind m k w = (Throw e, w').
Proof. intros H. unfold mbind. now rewrite H. Qed.

End MonadFacts.

(* ================================================================= *)
(** ** The store adapter *)

Section StoreFacts.
Import Js Json LangChain Qa.

Variable config : Config.
Variable env : Env.

Ltac run_monad :=
  unfold saveMessagesToRedis, loadMessagesFromRedis, estimateRedisValueBytes,
    buildRedisPayload, JSON_stringify, getRedisClient, client_get, client_set,
    redis_op, set_connected, Date_now, mbind, ret, throw, lift in *;
  cbn [db connected ops ticks uuids warnings fst snd] in *.

(** A successful [getRedisClient] only touches the connection. *)
Lemma getRedisClient_ok w w1 :
  getRedisClient config env w = (Ok tt, w1) ->
  db w1 = db w /\ ticks w1 = ticks w /\ uuids w1 = uuids w
  /\ warnings w1 = warnings w /\ connected w1 = true.
Proof.
  run_monad. destruct (connected w) eqn:Ec.
  - intros H. injection H as <-. tauto.
  - destruct (redis_field config url []); [discriminate|].
    destruct (redis_fault env (ops w)); [discriminate|].
    intros H. injection H as <-. cbn. tauto.
Qed.

(** The serialised payload is always a string. *)
Lemma stringify_payload_some t msgs :
  exists s, stringify (payload_at t msgs) = Some s.
Proof. eexists. apply stringify_payload_at. Qed.

Lemma estimateRedisValueBytes_total msgs w :
  exists s,
    stringify (payload_at (now env (ticks w)) msgs) = Some s
    /\ estimateRedisValueBytes env msgs w
       = (Ok (byteLength s),
          mkWorld (db w) (connected w) (ops w) (S (ticks w)) (uuids w)
            (warnings w)).
Proof.
  destruct (stringify_payload_some (now env (ticks w)) msgs) as [s Hs].
  exists s. split; [exact Hs|].
  run_monad. now rewrite Hs.
Qed.

(** A successful save leaves the serialised payload under the thread's
    key. *)
Lemma saveMessagesToRedis_ok tid msgs w w2 :
  saveMessagesToRedis config env tid msgs w = (Ok tt, w2) ->
  exists s ex,
    stringify (payload_at (now env (ticks w)) msgs) = Some s
    /\ db w2 (redisKeyForThread config tid) = Some (Build_Entry s ex)
    /\ connected w2 = true.
Proof.
  destruct (stringify_payload_some (now env (ticks w)) msgs) as [s Hs].
  intros H. exists s.
  assert (Hset : forall w1 ex,
    connected w1 = true ->
    client_set env (redisKeyForThread config tid) s ex w1 = (Ok tt, w2) ->
    db w2 (redisKeyForThread config tid) = Some (Build_Entry s ex)
    /\ connected w2 = true).
  { intros w1 ex Hc. run_monad.
    destruct (redis_fault env (ops w1)); [discriminate|].
    intros E. injection E as <-. cbn.
    now rewrite jsstring_eqb_refl. }
  revert H. unfold saveMessagesToRedis. unfold mbind at 1.
  destruct (getRedisClient config env w) as [[[]|e] w1] eqn:Eg; [|discriminate].
  apply getRedisClient_ok in Eg as (_ & Ht & _ & _ & Hc).
  unfold mbind at 1. unfold buildRedisPayload, mbind at 1, Date_now, ret.
  rewrite Ht, Hs. unfold JSON_stringify. rewrite Hs.
  unfold mbind, ret.
  destruct (redis_field config ttlSeconds (Finite 0)) as [z| | |];
    [destruct (0 <? z)%Z|..]; intros H; eexists;
    (split; [reflexivity|]); eapply Hset; try exact H; exact Hc.
Qed.

End StoreFacts.

Section LoadFacts.
Import Js Json LangChain Qa.

Variable config : Config.
Variable env : Env.

(** What [loadMessagesFromRedis] does once the client is there and the
    GET goes through. *)
Lemma loadMessagesFromRedis_reached tid w w0 :
  getRedisClient config env w = (Ok tt, w0) ->
  redis_fault env (ops w0) = None ->
  loadMessagesFromRedis config env tid w =
  (match option_map value (db w (redisKeyForThread config tid)) with
   | None | Some [] => Ok []
   | Some text =>
       match JSON_parse text with
       | Ok parsed =>
           mapStoredMessagesToChatMessages
             match get parsed (lit "messages") with
             | JArr l => l
             | _ => []
             end
       | Throw e => Throw e
       end
   end,
   mkWorld (db w) true (S (ops w0)) (ticks w) (uuids w) (warnings w)).
Proof.
  intros Hg Hf. unfold loadMessagesFromRedis.
  rewrite (@mbind_ok _ _ _ _ _ _ _ Hg).
  apply getRedisClient_ok in Hg as (Hd & Ht & Hu & Hw & Hc).
  unfold mbind, client_get, redis_op, ret, lift.
  rewrite Hf. cbn [db connected ops ticks uuids warnings].
  rewrite Hd, Ht, Hu, Hw, Hc.
  destruct (db w (redisKeyForThread config tid)) as [[text ex]|];
    cbn [option_map value]; [|reflexivity].
  destruct text as [|c text]; [reflexivity|].
  destruct (JSON_parse (c :: text)); reflexivity.
Qed.

Lemma getRedisClient_connected w :
  connected w = true -> getRedisClient config env w = (Ok tt, w).
Proof. intros H. unfold getRedisClient. now rewrite H. Qed.

Lemma loadMessagesFromRedis_connected tid w :
  connected w = true -> redis_fault env (ops w) = None ->
  loadMessagesFromRedis config env tid w =
  (match option_map value (db w (redisKeyForThread config tid)) with
   | None | Some [] => Ok []
   | Some text =>
       match JSON_parse text with
       | Ok parsed =>
           mapStoredMessagesToChatMessages
             match get parsed (lit "messages") with
             | JArr l => l
             | _ => []
             end
       | Throw e => Throw e
       end
   end,
   mkWorld (db w) true (S (ops w)) (ticks w) (uuids w) (warnings w)).
Proof.
  intros Hc Hf.
  now apply loadMessagesFromRedis_reached; [apply getRedisClient_connected|].
Qed.

(** The result of [loadMessagesFromRedis] is the empty list or comes out
    of [mapStoredMessagesToChatMessages]. *)
Lemma loadMessagesFromRedis_ok tid w restored w1 :
  loadMessagesFromRedis config env tid w = (Ok restored, w1) ->
  (restored = [] \/ exists l, mapStoredMessagesToChatMessages l = Ok restored)
  /\ uuids w1 = uuids w /\ warnings w1 = warnings w.
Proof.
  unfold loadMessagesFromRedis. unfold mbind at 1.
  destruct (getRedisClient config env w) as [[[]|e] w0] eqn:Eg; [|discriminate].
  apply getRedisClient_ok in Eg as (_ & _ & Hu & Hw & _).
  unfold mbind, client_get, redis_op, ret, lift.
  destruct (redis_fault env (ops w0)); [discriminate|].
  cbn [db connected ops ticks uuids warnings].
  destruct (option_map value (db w0 (redisKeyForThread config tid)))
    as [[|c text]|].
  - intros H. injection H as <- <-. cbn. auto.
  - destruct (JSON_parse (c :: text)) as [parsed|e]; [|discriminate].
    intros H. injection H as H <-. cbn. split; [|auto].
    right. eexists. exact H.
  - intros H. injection H as <- <-. cbn. auto.
Qed.

Lemma new_message_kind k fields m :
  new_message k fields = Ok m -> kind m = k.
Proof.
  unfold new_message. destruct fields; try discriminate;
    intros H; injection H as <-; reflexivity.
Qed.

Lemma mapStoredMessageToChatMessage_kind sm m :
  mapStoredMessageToChatMessage sm = Ok m -> kind m <> Remove.
Proof.
  unfold mapStoredMessageToChatMessage.
  destruct (nullish sm); [discriminate|].
  set (data := match get sm (lit "data") with JUndefined => _ | d => d end).
  destruct (get sm (lit "type")); try discriminate.
  repeat match goal with
         | |- context [if ?b then _ else _] => destruct b
         | |- context [match get data ?k with _ => _ end] =>
             destruct (get data k)
         end;
    try discriminate;
    intros H; apply new_message_kind in H; rewrite H; discriminate.
Qed.

Lemma mapStoredMessagesToChatMessages_kinds l : forall ms,
  mapStoredMessagesToChatMessages l = Ok ms ->
  Forall (fun m => kind m <> Remove) ms.
Proof.
  induction l as [|sm l IH]; intros ms H; simpl in H.
  - injection H as <-. constructor.
  - destruct (mapStoredMessageToChatMessage sm) as [m|] eqn:Em;
      [|discriminate].
    cbn [bind] in H.
    destruct (mapStoredMessagesToChatMessages l) as [ms'|]; [|discriminate].
    cbn [bind] in H. injection H as <-.
    constructor; [now apply mapStoredMessageToChatMessage_kind in Em|].
    now apply IH.
Qed.

(** No restored message is a [RemoveMessage]. *)
Lemma loadMessagesFromRedis_kinds tid w restored w1 :
  loadMessagesFromRedis config env tid w = (Ok restored, w1) ->
  Forall (fun m => kind m <> Remove) restored.
Proof.
  intros H. apply loadMessagesFromRedis_ok in H as [[->|[l Hl]] _].
  - constructor.
  - now apply mapStoredMessagesToChatMessages_kinds in Hl.
Qed.

End LoadFacts.

(* ================================================================= *)
(** ** The message reducer *)

Section ReducerFacts.
Import Js LangChain.

Variable uuid : nat -> jsstring.

Lemma same_but_id_kind m r : same_but_id m r -> kind m = kind r.
Proof. intros [->|[id [_ ->]]]; reflexivity. Qed.

Lemma same_but_id_content m r : same_but_id m r -> content m = content r.
Proof.
  intros [->|[id [_ ->]]]; [reflexivity|].
  unfold content, set_id. cbn [lc_kwargs].
  now rewrite obj_get_set_other by discriminate.
Qed.

Lemma ensure_ids_same ms : forall n,
  Forall2 same_but_id (fst (ensure_ids uuid n ms)) ms.
Proof.
  induction ms as [|m ms IH]; intros n; cbn [ensure_ids].
  - constructor.
  - destruct (nullish (message_id m)) eqn:E.
    + specialize (IH (S n)). destruct (ensure_ids uuid (S n) ms).
      constructor; [|exact IH]. right. now exists (uuid n).
    + specialize (IH n). destruct (ensure_ids uuid n ms).
      constructor; [|exact IH]. now left.
Qed.

Lemma Forall2_same_kinds ms rs :
  Forall2 same_but_id ms rs -> map kind ms = map kind rs.
Proof.
  induction 1 as [|m r ms rs H _ IH]; [reflexivity|].
  cbn [map]. now rewrite (same_but_id_kind H), IH.
Qed.

Lemma Forall2_same_contents ms rs :
  Forall2 same_but_id ms rs -> map content ms = map content rs.
Proof.
  induction 1 as [|m r ms rs H _ IH]; [reflexivity|].
  cbn [map]. now rewrite (same_but_id_content H), IH.
Qed.

Lemma is_remove_all_kind m : is_remove_all m = true -> kind m = Remove.
Proof.
  unfold is_remove_all, RemoveMessage_isInstance. intros H.
  apply andb_true_iff in H as [H _]. now destruct (kind m).
Qed.

Lemma after_remove_all_none ms :
  Forall (fun m => kind m <> Remove) ms -> after_remove_all ms = None.
Proof.
  induction 1 as [|m ms Hm _ IH]; [reflexivity|].
  cbn [after_remove_all]. rewrite IH.
  destruct (is_remove_all m) eqn:E; [|reflexivity].
  now apply is_remove_all_kind in E.
Qed.

Lemma is_remove_all_marker :
  is_remove_all (RemoveMessage REMOVE_ALL_MESSAGES) = true.
Proof. reflexivity. Qed.

(** An update that begins with the remove-all marker and holds no other
    [RemoveMessage] replaces the whole channel. *)
Lemma after_remove_all_head ms :
  Forall (fun m => kind m <> Remove) ms ->
  after_remove_all (RemoveMessage REMOVE_ALL_MESSAGES :: ms) = Some ms.
Proof.
  intros H. cbn [after_remove_all].
  now rewrite (after_remove_all_none H), is_remove_all_marker.
Qed.

(** Whatever follows the marker, the update is accepted. *)
Lemma after_remove_all_some ms :
  exists rest, after_remove_all (RemoveMessage REMOVE_ALL_MESSAGES :: ms)
               = Some rest.
Proof.
  cbn [after_remove_all]. rewrite is_remove_all_marker.
  destruct (after_remove_all ms); eauto.
Qed.

Lemma ensure_ids_kinds ms n :
  Forall (fun m => kind m <> Remove) ms ->
  Forall (fun m => kind m <> Remove) (fst (ensure_ids uuid n ms)).
Proof.
  intros H. pose proof (ensure_ids_same ms n) as S.
  revert H. induction S as [|m r ms' rs Hm _ IH]; intros H; constructor.
  - inversion H; subst. now rewrite (same_but_id_kind Hm).
  - inversion H; subst. now apply IH.
Qed.

Lemma ensure_ids_marker ms n :
  ensure_ids uuid n (RemoveMessage REMOVE_ALL_MESSAGES :: ms)
  = (RemoveMessage REMOVE_ALL_MESSAGES :: fst (ensure_ids uuid n ms),
     snd (ensure_ids uuid n ms)).
Proof.
  cbn [ensure_ids]. change (nullish (message_id (RemoveMessage REMOVE_ALL_MESSAGES)))
    with false. cbv iota.
  now destruct (ensure_ids uuid n ms).
Qed.

(** The reducer on an update that begins with the marker. *)
Lemma reducer_remove_all left ms n :
  exists rest,
    messagesStateReducer uuid n left (RemoveMessage REMOVE_ALL_MESSAGES :: ms)
    = (Ok rest,
       snd (ensure_ids uuid (snd (ensure_ids uuid n left)) ms))
    /\ (Forall (fun m => kind m <> Remove) ms ->
        rest = fst (ensure_ids uuid (snd (ensure_ids uuid n left)) ms)).
Proof.
  unfold messagesStateReducer.
  destruct (ensure_ids uuid n left) as [l' n1] eqn:El. cbn [snd].
  rewrite ensure_ids_marker.
  destruct (after_remove_all_some (fst (ensure_ids uuid n1 ms))) as [rest Hr].
  exists rest. rewrite Hr. split; [reflexivity|].
  intros H. apply (ensure_ids_kinds n1) in H.
  rewrite (after_remove_all_head H) in Hr. now injection Hr.
Qed.

(** An update that holds no [RemoveMessage] is always accepted. *)
Lemma merge_right_total right : forall merged idx removed,
  Forall (fun m => kind m <> Remove) right ->
  exists r, merge_right right merged idx removed = Ok r.
Proof.
  induction right as [|m right IH]; intros merged idx removed H.
  - eexists. reflexivity.
  - inversion H as [|? ? Hm Hr]; subst. cbn [merge_right].
    assert (E : RemoveMessage_isInstance m = false).
    { unfold RemoveMessage_isInstance. now destruct (kind m). }
    rewrite E. destruct (index_of (message_id m) idx); now apply IH.
Qed.

Lemma reducer_total left right n :
  Forall (fun m => kind m <> Remove) right ->
  exists ms, fst (messagesStateReducer uuid n left right) = Ok ms.
Proof.
  intros H. unfold messagesStateReducer.
  destruct (ensure_ids uuid n left) as [l' n1].
  pose proof (ensure_ids_kinds n1 H) as H'.
  destruct (ensure_ids uuid n1 right) as [r' n2]. cbn [fst] in H'.
  rewrite (after_remove_all_none H').
  destruct (merge_right_total l' (index_left 0 l' []) [] H') as [[mg rm] E].
  rewrite E. eexists. reflexivity.
Qed.

End ReducerFacts.

(* ================================================================= *)
(** ** Writing an update to the channels *)

Section ApplyUpdate.
Import Js LangChain Qa.

Variable env : Env.

Lemma apply_no_update state w :
  apply_update env state no_update w = (Ok state, w).
Proof. destruct state. reflexivity. Qed.

Lemma apply_messages_update state ms w :
  apply_update env state (messages_update ms) w =
  (match fst (messagesStateReducer (uuid env) (uuids w) (messages state) ms) with
   | Ok ms' =>
       Ok (mkState ms' (threadId state) (input state) (answer state)
             (context state))
   | Throw e => Throw e
   end,
   mkWorld (db w) (connected w) (ops w) (ticks w)
     (snd (messagesStateReducer (uuid env) (uuids w) (messages state) ms))
     (warnings w)).
Proof.
  unfold apply_update, messages_update. cbn [u_messages u_answer u_context].
  destruct (messagesStateReducer (uuid env) (uuids w) (messages state) ms)
    as [[ms'|e] n]; reflexivity.
Qed.

End ApplyUpdate.

(* ================================================================= *)
(** ** The nodes of the graph *)

Section NodeFacts.
Import Js Json LangChain Qa.

Variable config : Config.
Variable env : Env.

Lemma hydrate_body_update state w u w1 :
  hydrate_body config env state w = (Ok u, w1) -> guarded_update u.
Proof.
  unfold hydrate_body, mbind, ret.
  destruct (loadMessagesFromRedis config env _ w) as [[[|m ms]|e] w0];
    intros H; try discriminate; injection H as <- _.
  - now left.
  - right. now eexists.
Qed.

Lemma summarize_body_update state w u w1 :
  summarize_body config env state w = (Ok u, w1) -> guarded_update u.
Proof.
  unfold summarize_body.
  destruct (positive_finite _) as [limit|];
    [|intros H; injection H as <- _; now left].
  unfold mbind at 1.
  destruct (estimateRedisValueBytes_total env (messages state) w)
    as (s & _ & ->).
  destruct (Z.of_nat (byteLength s) <=? limit)%Z;
    [intros H; injection H as <- _; now left|].
  destruct (filter _ (messages state)) as [|m0 ms0];
    [intros H; injection H as <- _; now left|].
  unfold mbind, lift, ret.
  destruct (beforeModel env _ _ _) as [[res|]|e]; try discriminate;
    [|intros H; injection H as <- _; now left].
  destruct (filter _ res);
    intros H; injection H as <- _; [now left|].
  right. now eexists.
Qed.

(** A guarded node returns, whatever happens inside it. *)
Lemma hydrate_returns state w :
  exists u w', hydrate config env state w = (Ok u, w') /\ guarded_update u.
Proof.
  unfold hydrate, try_catch.
  destruct (hydrate_body config env state w) as [[u|e] w1] eqn:E.
  - exists u, w1. split; [reflexivity|]. eapply hydrate_body_update; eauto.
  - do 2 eexists. split; [reflexivity|]. now left.
Qed.

Lemma summarize_returns state w :
  exists u w', summarize config env state w = (Ok u, w') /\ guarded_update u.
Proof.
  unfold summarize, try_catch.
  destruct (summarize_body config env state w) as [[u|e] w1] eqn:E.
  - exists u, w1. split; [reflexivity|]. eapply summarize_body_update; eauto.
  - do 2 eexists. split; [reflexivity|]. now left.
Qed.

Lemma persist_returns state w :
  exists w', persist config env state w = (Ok no_update, w').
Proof.
  unfold persist, mbind, try_catch, ret.
  destruct (saveMessagesToRedis config env _ (messages state) w)
    as [[[]|e] w1]; eexists; reflexivity.
Qed.

(** What the catch clauses do. *)
Lemma summarize_catches state w e w1 :
  summarize_body config env state w = (Throw e, w1) ->
  summarize config env state w
  = (Ok no_update,
     mkWorld (db w1) (connected w1) (ops w1) (ticks w1) (uuids w1)
       (warnings w1 ++ [(SummarizeStage, e)])).
Proof. intros H. unfold summarize, try_catch. now rewrite H. Qed.

Lemma persist_catches state w e w1 :
  saveMessagesToRedis config env
    (coalesce (threadId state) (JStr (lit "default"))) (messages state) w
  = (Throw e, w1) ->
  persist config env state w
  = (Ok no_update,
     mkWorld (db w1) (connected w1) (ops w1) (ticks w1) (uuids w1)
       (warnings w1 ++ [(PersistStage, e)])).
Proof. intros H. unfold persist, mbind, try_catch. now rewrite H. Qed.

(** A guarded update is always accepted by the channels, and leaves the
    other channels alone. *)
Lemma apply_guarded state u w :
  guarded_update u ->
  exists state' w',
    apply_update env state u w = (Ok state', w')
    /\ threadId state' = threadId state /\ input state' = input state
    /\ answer state' = answer state /\ context state' = context state.
Proof.
  intros [->|[ms ->]].
  - rewrite apply_no_update. do 2 eexists. split; [reflexivity|]. auto.
  - rewrite apply_messages_update.
    destruct (reducer_remove_all (uuid env) (messages state) ms (uuids w))
      as [rest [-> _]].
    do 2 eexists. split; [reflexivity|]. cbn. auto.
Qed.

Lemma step_guarded (node : GraphState -> M Update) state w :
  (exists u w', node state w = (Ok u, w') /\ guarded_update u) ->
  exists state' w',
    step env node state w = (Ok state', w')
    /\ threadId state' = threadId state /\ input state' = input state
    /\ answer state' = answer state /\ context state' = context state.
Proof.
  intros (u & w1 & Hn & Hg). unfold step, mbind. rewrite Hn.
  now apply apply_guarded.
Qed.

Lemma step_ingest state w :
  exists state' w',
    step env ingest state w = (Ok state', w')
    /\ threadId state' = threadId state /\ input state' = input state
    /\ answer state' = answer state /\ context state' = context state.
Proof.
  unfold step, mbind, ingest, ret. rewrite apply_messages_update.
  destruct (@reducer_total (uuid env) (messages state)
              [text_message Human (input state)] (uuids w)) as [ms ->].
  { repeat constructor. discriminate. }
  do 2 eexists. split; [reflexivity|]. cbn. auto.
Qed.

(** The rag node is the one that can throw: it does so exactly when the
    chain does. *)
Lemma step_rag state w :
  match ragChain_invoke env (input state) with
  | Throw e => step env (rag env) state w = (Throw e, w)
  | Ok res =>
      exists state' w',
        step env (rag env) state w = (Ok state', w')
        /\ threadId state' = threadId state /\ input state' = input state
        /\ answer state'
           = JStr (to_string
                     (coalesce (get res (lit "answer"))
                        (coalesce (get res (lit "output")) (JStr []))))
  end.
Proof.
  unfold step, rag, mbind, lift, ret.
  destruct (ragChain_invoke env (input state)) as [res|e]; [|reflexivity].
  set (ans := to_string _).
  unfold apply_update. cbn [u_messages u_answer u_context].
  destruct (@reducer_total (uuid env) (messages state)
              [ai_message ans] (uuids w)) as [ms Hms].
  { repeat constructor. discriminate. }
  destruct (messagesStateReducer _ _ _ _) as [r n]. cbn [fst] in Hms.
  subst r. do 2 eexists. split; [reflexivity|]. cbn. auto.
Qed.

End NodeFacts.

(* ================================================================= *)
(** ** The definitions on concrete inputs *)

Section Examples.
Import Js Json LangChain Qa.

Example replace_think_mixed_case :
  Think.replace_think (lit "a<THINK>x</Think>  b") = lit "ab".
Proof. vm_compute. reflexivity. Qed.

Example replace_think_two_segments :
  Think.replace_think (lit "<think>1</think>x<think>2</think>y") = lit "xy".
Proof. vm_compute. reflexivity. Qed.

Example replace_think_unclosed :
  Think.replace_think (lit "<think>no end") = lit "<think>no end".
Proof. vm_compute. reflexivity. Qed.

(** The lazy star stops at the first closing tag. *)
Example replace_think_first_close :
  Think.replace_think (lit "<think>a</think>b</think>") = lit "b</think>".
Proof. vm_compute. reflexivity. Qed.

(** A quote, a backslash, a line feed, a control character, a surrogate
    pair and a lone surrogate. *)
Example stringify_escapes :
  stringify (JStr [34; 92; 10; 1; 55357; 56832; 55357]%N)
  = Some ([34; 92; 34; 92; 92; 92; 110]%N ++ lit "\u0001"
            ++ [55357; 56832]%N ++ lit "\ud83d" ++ [34%N]).
Proof. vm_compute. reflexivity. Qed.

(** One, two, three and four bytes. *)
Example byteLength_utf8 : byteLength [97; 233; 8364; 55357; 56832]%N = 10.
Proof. reflexivity. Qed.

Example JSON_parse_array :
  JSON_parse (lit " [1 , -2, true,null] ")
  = Ok (JArr [JNum 1; JNum (-2); JBool true; JNull]).
Proof. vm_compute. reflexivity. Qed.

Example JSON_parse_leading_zero : JSON_parse (lit "01") = Throw SyntaxError.
Proof. vm_compute. reflexivity. Qed.

(** A repeated name keeps its first place and its last value. *)
Example JSON_parse_repeated_name :
  JSON_parse (lit "{" ++ quote (lit "a") ++ lit ":1," ++ quote (lit "b")
                ++ lit ":2," ++ quote (lit "a") ++ lit ":3}")
  = Ok (JObj [(lit "a", JNum 3); (lit "b", JNum 2)]).
Proof. vm_compute. reflexivity. Qed.

Example to_string_array :
  to_string (JArr [JNum 1; JNull; JStr (lit "x"); JArr [JBool true; JUndefined]])
  = lit "1,,x,true,".
Proof. vm_compute. reflexivity. Qed.

(** A first turn on an empty store: the answer comes back and the record
    of the thread holds the question and the answer. *)
Example first_turn :
  let config := Sample.with_redis None None in
  let env := Sample.env_with (fun _ => 1700000000000%Z)
               Sample.failing_summarizer in
  let state := mkState [] (JStr (lit "t1")) [] JUndefined JUndefined in
  let r := ask config env state (lit "What is the refund policy?")
             Sample.empty_world in
  match fst r, db (snd r) (lit "rag:mem:t1") with
  | Ok a, Some e =>
      a_answer a = lit "42"
      /\ match JSON_parse (value e) with
         | Ok payload =>
             match get payload (lit "messages") with
             | JArr l =>
                 map (fun m => get m (lit "type")) l
                 = [JStr (lit "human"); JStr (lit "ai")]
                 /\ map (fun m => get (get m (lit "data")) (lit "content")) l
                    = [JStr (lit "What is the refund policy?");
                       JStr (lit "42")]
             | _ => False
             end
         | Throw _ => False
         end
  | _, _ => False
  end.
Proof. vm_compute. repeat split. Qed.

(** A threshold of one byte, ten messages, two kept: the summary and the
    last two. *)
Example summarize_ten_keep_two :
  let config := Sample.with_redis (Some (Finite 1)) (Some (Finite 2)) in
  let env := Sample.env_with (fun _ => 1700000000000%Z)
               Sample.spec_summarizer in
  let history :=
    map (fun n => text_message Human (N_to_chars n))
      [0; 1; 2; 3; 4; 5; 6; 7; 8; 9]%N in
  let state := mkState history (JStr (lit "t1")) [] JUndefined JUndefined in
  fst (summarize config env state Sample.empty_world)
  = Ok (messages_update
          [RemoveMessage REMOVE_ALL_MESSAGES;
           Sample.summary_message default_summary_prefix;
           text_message Human (lit "8"); text_message Human (lit "9")]).
Proof. vm_compute. reflexivity. Qed.

End Examples.

(* ================================================================= *)
(** ** Sanitisation: the reasoning-markup strip applied twice *)

(** C9, counterexample.  Removing the inner segment of
    [<thi<think></think>nk></think>] splices the pieces [<thi] and
    [nk></think>] into a new segment [<think></think>], which only a
    second pass removes: the strip is not idempotent. *)
Lemma stripThink_twice_differs :
  let c := JStr (lit "<thi<think></think>nk></think>") in
  Qa.stripThinkFromContent c = JStr (lit "<think></think>") /\
  Qa.stripThinkFromContent (Qa.stripThinkFromContent c) = JStr [] /\
  Qa.stripThinkFromContent (Qa.stripThinkFromContent c)
    <> Qa.stripThinkFromContent c.
Proof.
  cbv zeta. repeat split; try (vm_compute; reflexivity).
  vm_compute. discriminate.
Qed.

(** C9, amended.  Applying the strip twice gives the same result as
    applying it once exactly when the first pass leaves no complete
    [<think>...</think>] segment behind (a content that is not a string
    is never changed). *)
Theorem stripThink_twice_iff (c : jsval) :
  Qa.stripThinkFromContent (Qa.stripThinkFromContent c)
    = Qa.stripThinkFromContent c
  <->
  match Qa.stripThinkFromContent c with
  | JStr t => ~ Think.has_segment t
  | _ => True
  end.
Proof.
  destruct c; cbn [Qa.stripThinkFromContent]; try tauto.
  rewrite <- has_segmentb_spec.
  destruct (Think.has_segmentb (Think.replace_think s)) eqn:E.
  - split; [|intros H; exfalso; now apply H].
    intros H. apply replace_think_segment_shorter in E.
    injection H as H. rewrite H in E. lia.
  - split; [intros _; discriminate|].
    intros _. now rewrite (replace_think_no_segment _ E).
Qed.

(* ================================================================= *)
(** ** Key derivation *)

Section KeyDerivation.
Import Js Qa.

Variable config : Config.

(** A thread identifier that is falsy ([undefined], [null], the empty
    string, [0], [false]) resolves to the sentinel. *)
Lemma redisKeyForThread_falsy t :
  truthy t = false ->
  redisKeyForThread config t = redis_field config keyPrefix (lit "rag:mem:") ++ lit "default".
Proof.
  intros H. unfold redisKeyForThread, or_else. now rewrite H.
Qed.

Lemma redisKeyForThread_string s :
  s <> [] -> redisKeyForThread config (JStr s) = redis_field config keyPrefix (lit "rag:mem:") ++ s.
Proof.
  intros H. unfold redisKeyForThread, or_else.
  destruct s; [contradiction|reflexivity].
Qed.

End KeyDerivation.

(** C7, counterexample.  The empty string and ["default"] are distinct
    thread identifiers with the same key: [threadId || "default"] treats
    the empty string as unset. *)
Lemma redisKeyForThread_collision :
  let config := Qa.Build_Config None in
  JStr [] <> JStr (lit "default") /\
  Qa.redisKeyForThread config (JStr [])
    = Qa.redisKeyForThread config (JStr (lit "default")).
Proof. split; [discriminate|reflexivity]. Qed.

(** C7, amended.  Two distinct non-empty string identifiers have
    distinct keys, and an unset identifier ([undefined], [null] or the
    empty string) has the key made of the configured prefix and the
    sentinel ["default"], which is also the key of the identifier
    ["default"]. *)
Theorem redisKeyForThread_distinct (config : Qa.Config) (a b : jsstring) :
  a <> [] -> b <> [] -> a <> b ->
  Qa.redisKeyForThread config (JStr a) <> Qa.redisKeyForThread config (JStr b)
  /\ Qa.redisKeyForThread config JUndefined = Qa.redis_field config Qa.keyPrefix (lit "rag:mem:") ++ lit "default"
  /\ Qa.redisKeyForThread config JNull = Qa.redis_field config Qa.keyPrefix (lit "rag:mem:") ++ lit "default"
  /\ Qa.redisKeyForThread config (JStr []) = Qa.redis_field config Qa.keyPrefix (lit "rag:mem:") ++ lit "default"
  /\ Qa.redisKeyForThread config (JStr (lit "default"))
       = Qa.redis_field config Qa.keyPrefix (lit "rag:mem:") ++ lit "default".
Proof.
  intros Ha Hb Hab. split.
  - rewrite !redisKeyForThread_string by assumption.
    intros H. apply app_inv_head in H. contradiction.
  - repeat split; now apply redisKeyForThread_falsy.
Qed.

Lemma redisKeyForThread_distinct_witness :
  let config := Qa.Build_Config None in
  Qa.redisKeyForThread config (JStr (lit "t1"))
    <> Qa.redisKeyForThread config (JStr (lit "t2"))
  /\ Qa.redisKeyForThread config JUndefined = lit "rag:mem:default".
Proof.
  cbv zeta.
  destruct (@redisKeyForThread_distinct (Qa.Build_Config None)
              (lit "t1") (lit "t2")) as [H1 [H2 _]];
    [discriminate | discriminate | discriminate |].
  split; [exact H1 | exact H2].
Defined.

(* ================================================================= *)
(** ** Sanitisation before storage: what it leaves alone *)

Section Sanitize.
Import Js LangChain Qa.

Lemma think_not_digits : exists c, In c (lit "think") /\ ~ is_digit_char c.
Proof.
  exists 116%N. split; [now left|]. unfold is_digit_char. lia.
Qed.

Lemma get_think_primitive v :
  negb (truthy v) || negb (typeof_object v) = true ->
  get v (lit "think") = JUndefined.
Proof.
  destruct v; simpl; try discriminate; try reflexivity.
  intros _. apply obj_get_index_from, think_not_digits.
Qed.

Lemma stripThinkFields_get v k :
  k <> lit "think" -> get (stripThinkFields v) k = get v k.
Proof.
  intros Hk. unfold stripThinkFields.
  destruct (negb (truthy v) || negb (typeof_object v)); [reflexivity|].
  unfold get at 1. cbn [own_props]. now apply obj_get_delete_other.
Qed.

Lemma stripThinkFields_think v :
  get (stripThinkFields v) (lit "think") = JUndefined.
Proof.
  unfold stripThinkFields.
  destruct (negb (truthy v) || negb (typeof_object v)) eqn:E.
  - now apply get_think_primitive.
  - unfold get. cbn [own_props]. apply obj_get_delete_same.
Qed.

(** The stored form of a message: its type, and its fields with the
    three sanitised ones written over. *)
Lemma sanitize_toDict m :
  sanitize (toDict m) =
  JObj [(lit "type", JStr (type_name (kind m)));
        (lit "data",
         JObj (obj_set (lit "response_metadata")
                 (stripThinkFields (obj_get (lit "response_metadata") (lc_kwargs m)))
                 (obj_set (lit "additional_kwargs")
                    (stripThinkFields (obj_get (lit "additional_kwargs") (lc_kwargs m)))
                    (obj_set (lit "content")
                       (stripThinkFromContent (content m))
                       (lc_kwargs m)))))].
Proof. reflexivity. Qed.

End Sanitize.

(** C10, counterexample.  In the content [a<think>b</think> c] the
    pattern matches the segment and the space behind it: the stored
    content is [ac], where removing the [<think>...</think>] segment
    alone would leave [a c]. *)
Lemma sanitize_removes_space :
  let m := LangChain.text_message LangChain.AI (lit "a<think>b</think> c") in
  let data := Js.get (Qa.sanitize (LangChain.toDict m)) (lit "data") in
  Js.get data (lit "content") = JStr (lit "ac")
  /\ Js.get data (lit "content") <> JStr (lit "a c").
Proof.
  cbv zeta. split; [vm_compute; reflexivity|vm_compute; discriminate].
Qed.

(** C10, amended.  The stored form of a message keeps its type; in both
    metadata maps every key other than [think] keeps its value and
    [think] is gone; a content that is not a string is unchanged; a
    string content is the original without the matches of the
    reasoning-markup pattern, a match being a [<think>...</think>]
    segment together with the white space that directly follows it, and
    nothing else is removed; every other field of the message is
    unchanged. *)
Theorem sanitize_frame (m : LangChain.BaseMessage) (k : jsstring) :
  k <> lit "think" ->
  let stored := Qa.sanitize (LangChain.toDict m) in
  let data := Js.get stored (lit "data") in
  let fields := LangChain.lc_kwargs m in
  Js.get stored (lit "type") = JStr (LangChain.type_name (LangChain.kind m))
  /\ Js.get (Js.get data (lit "additional_kwargs")) k
       = Js.get (Js.obj_get (lit "additional_kwargs") fields) k
  /\ Js.get (Js.get data (lit "response_metadata")) k
       = Js.get (Js.obj_get (lit "response_metadata") fields) k
  /\ Js.get (Js.get data (lit "additional_kwargs")) (lit "think") = JUndefined
  /\ Js.get (Js.get data (lit "response_metadata")) (lit "think") = JUndefined
  /\ (Js.is_string (LangChain.content m) = false ->
      Js.get data (lit "content") = LangChain.content m)
  /\ (forall s, LangChain.content m = JStr s ->
      Js.get data (lit "content") = JStr (Think.replace_think s)
      /\ Think.removes_matches s (Think.replace_think s))
  /\ (k <> lit "content" -> k <> lit "additional_kwargs" ->
      k <> lit "response_metadata" ->
      Js.get data k = Js.obj_get k fields).
Proof.
  intros Hk stored data fields. subst stored data fields.
  rewrite sanitize_toDict.
  set (d := Js.obj_set _ _ _).
  change (Js.get (JObj [(lit "type", JStr (LangChain.type_name (LangChain.kind m)));
                        (lit "data", JObj d)]) (lit "data")) with (JObj d).
  change (Js.get (JObj [(lit "type", JStr (LangChain.type_name (LangChain.kind m)));
                        (lit "data", JObj d)]) (lit "type"))
    with (JStr (LangChain.type_name (LangChain.kind m))).
  assert (Hak : Js.get (JObj d) (lit "additional_kwargs")
                = Qa.stripThinkFields
                    (Js.obj_get (lit "additional_kwargs") (LangChain.lc_kwargs m))).
  { unfold Js.get, d. cbn [Js.own_props].
    rewrite obj_get_set_other by discriminate.
    apply obj_get_set_same. }
  assert (Hrm : Js.get (JObj d) (lit "response_metadata")
                = Qa.stripThinkFields
                    (Js.obj_get (lit "response_metadata") (LangChain.lc_kwargs m))).
  { unfold Js.get, d. cbn [Js.own_props]. apply obj_get_set_same. }
  assert (Hc : Js.get (JObj d) (lit "content")
               = Qa.stripThinkFromContent (LangChain.content m)).
  { unfold Js.get, d. cbn [Js.own_props].
    rewrite !obj_get_set_other by discriminate.
    apply obj_get_set_same. }
  rewrite Hak, Hrm, Hc.
  repeat split.
  - now apply stripThinkFields_get.
  - now apply stripThinkFields_get.
  - apply stripThinkFields_think.
  - apply stripThinkFields_think.
  - intros Hs. destruct (LangChain.content m); try reflexivity. discriminate.
  - now rewrite H.
  - apply replace_think_removes.
  - intros H1 H2 H3. unfold Js.get, d. cbn [Js.own_props].
    now rewrite !obj_get_set_other by assumption.
Qed.

Lemma sanitize_frame_witness :
  let m := LangChain.mkMessage LangChain.AI
             [(lit "content", JStr (lit "<think>plan</think> Paris"));
              (lit "additional_kwargs",
               JObj [(lit "think", JStr (lit "plan")); (lit "model", JStr (lit "llama3.1"))]);
              (lit "response_metadata", JObj [(lit "done", JBool true)]);
              (lit "id", JStr (lit "m1"))] in
  let data := Js.get (Qa.sanitize (LangChain.toDict m)) (lit "data") in
  Js.get (Js.get data (lit "additional_kwargs")) (lit "model") = JStr (lit "llama3.1")
  /\ Js.get (Js.get data (lit "additional_kwargs")) (lit "think") = JUndefined
  /\ Js.get data (lit "content") = JStr (lit "Paris").
Proof.
  cbv zeta.
  pose proof (@sanitize_frame
    (LangChain.mkMessage LangChain.AI
       [(lit "content", JStr (lit "<think>plan</think> Paris"));
        (lit "additional_kwargs",
         JObj [(lit "think", JStr (lit "plan")); (lit "model", JStr (lit "llama3.1"))]);
        (lit "response_metadata", JObj [(lit "done", JBool true)]);
        (lit "id", JStr (lit "m1"))])
    (lit "model")) as H.
  cbv zeta in H.
  destruct H as (_ & H2 & _ & H4 & _ & _ & H7 & _); [discriminate|].
  split; [exact H2|]. split; [exact H4|].
  exact (proj1 (H7 _ eq_refl)).
Defined.

(* ================================================================= *)
(** ** The size estimate and the stored value *)

(** C8, counterexample.  The payload carries [Date.now()], read once by
    the estimate and once more by the save.  When the estimate reads
    9999999999999 and the save, one millisecond later, 10000000000000,
    the stored value is one byte longer than the estimate. *)
Lemma estimate_differs_from_stored :
  let config := Sample.with_redis None None in
  let env := Sample.env_with
               (fun n => match n with
                         | O => 9999999999999%Z
                         | S _ => 10000000000000%Z
                         end)
               Sample.failing_summarizer in
  let est := Qa.estimateRedisValueBytes env Sample.hello Sample.empty_world in
  let saved := Qa.saveMessagesToRedis config env (JStr (lit "t1")) Sample.hello
                 (snd est) in
  fst saved = Ok tt
  /\ fst est = Ok 148
  /\ option_map (fun e => Json.byteLength (Qa.value e))
       (Qa.db (snd saved) (Qa.redisKeyForThread config (JStr (lit "t1"))))
     = Some 149.
Proof. cbv zeta. split; [|split]; vm_compute; reflexivity. Qed.

(** C8, amended.  The estimate equals the byte length of the value that
    a successful save writes for the same list whenever the two readings
    of the clock, the one made by the estimate and the one made by the
    save, have the same number of decimal digits (in particular when
    they are equal). *)
Theorem estimate_matches_stored
  (config : Qa.Config) (env : Qa.Env) (tid : jsval)
  (msgs : list LangChain.BaseMessage) (w w' w'' : Qa.World) :
  Qa.saveMessagesToRedis config env tid msgs w' = (Ok tt, w'') ->
  length (Js.number_to_string (Qa.now env (Qa.ticks w)))
    = length (Js.number_to_string (Qa.now env (Qa.ticks w'))) ->
  exists v,
    option_map Qa.value (Qa.db w'' (Qa.redisKeyForThread config tid)) = Some v
    /\ fst (Qa.estimateRedisValueBytes env msgs w) = Ok (Json.byteLength v).
Proof.
  intros Hsave Hlen.
  apply saveMessagesToRedis_ok in Hsave as (s & ex & Hs & Hdb & _).
  destruct (estimateRedisValueBytes_total env msgs w) as (s0 & Hs0 & He).
  exists s. split.
  - now rewrite Hdb.
  - rewrite He. cbn [fst]. f_equal.
    eapply byteLength_payload; eauto.
Qed.

Lemma estimate_matches_stored_witness :
  let config := Sample.with_redis None None in
  let env := Sample.env_with (fun n => 1700000000000 + Z.of_nat n)%Z
               Sample.failing_summarizer in
  let est := Qa.estimateRedisValueBytes env Sample.hello Sample.empty_world in
  let saved := Qa.saveMessagesToRedis config env (JStr (lit "t1")) Sample.hello
                 (snd est) in
  exists v,
    option_map Qa.value
      (Qa.db (snd saved) (Qa.redisKeyForThread config (JStr (lit "t1"))))
    = Some v
    /\ fst est = Ok (Json.byteLength v).
Proof.
  cbv zeta.
  apply (@estimate_matches_stored
           (Sample.with_redis None None)
           (Sample.env_with (fun n => 1700000000000 + Z.of_nat n)%Z
              Sample.failing_summarizer)
           (JStr (lit "t1")) Sample.hello Sample.empty_world
           (snd (Qa.estimateRedisValueBytes
                   (Sample.env_with (fun n => 1700000000000 + Z.of_nat n)%Z
                      Sample.failing_summarizer)
                   Sample.hello Sample.empty_world))).
  - vm_compute. reflexivity.
  - vm_compute. reflexivity.
Defined.

(* ================================================================= *)
(** ** Loading a missing or malformed payload *)

Section HydrateCatch.
Import Js Json LangChain Qa.

Variable config : Config.
Variable env : Env.

(** The hydrate node returns whatever its body does. *)
Lemma hydrate_catches state w e w1 :
  hydrate_body config env state w = (Throw e, w1) ->
  hydrate config env state w
  = (Ok no_update,
     mkWorld (db w1) (connected w1) (ops w1) (ticks w1) (uuids w1)
       (warnings w1 ++ [(HydrateStage, e)])).
Proof.
  intros H. unfold hydrate, try_catch. rewrite H.
  reflexivity.
Qed.

Lemma hydrate_body_throws state w e w1 :
  loadMessagesFromRedis config env
    (coalesce (threadId state) (JStr (lit "default"))) w = (Throw e, w1) ->
  hydrate_body config env state w = (Throw e, w1).
Proof.
  intros H. unfold hydrate_body, mbind. now rewrite H.
Qed.

End HydrateCatch.

(** C5, counterexample.  The key holds the text [{], which is not JSON:
    [JSON.parse] throws and [loadMessagesFromRedis] passes the error on
    to its caller instead of returning an empty list. *)
Lemma load_unparseable_throws :
  let config := Sample.with_redis None None in
  let env := Sample.env_with (fun _ => 0%Z) Sample.failing_summarizer in
  let w := Sample.world_with (lit "rag:mem:t1") (lit "{") in
  fst (Qa.loadMessagesFromRedis config env (JStr (lit "t1")) w)
    = Throw SyntaxError
  /\ fst (Qa.loadMessagesFromRedis config env (JStr (lit "t1")) w) <> Ok [].
Proof. cbv zeta. split; [vm_compute; reflexivity|vm_compute; discriminate]. Qed.

(** C5, amended.  When the client is obtained and the GET is answered, a
    missing key, an empty value, and a payload that parses but has no
    [messages] array all give the empty list.  A payload that is not
    JSON makes [loadMessagesFromRedis] throw the [SyntaxError] of
    [JSON.parse] to its caller, the hydrate node, which catches it: the
    node logs a warning and returns no state change. *)
Theorem load_missing_or_malformed
  (config : Qa.Config) (env : Qa.Env) (state : Qa.GraphState)
  (w w0 : Qa.World) :
  let tid := Js.coalesce (Qa.threadId state) (JStr (lit "default")) in
  let raw := option_map Qa.value (Qa.db w (Qa.redisKeyForThread config tid)) in
  Qa.getRedisClient config env w = (Ok tt, w0) ->
  Qa.redis_fault env (Qa.ops w0) = None ->
  (raw = None \/ raw = Some [] ->
   fst (Qa.loadMessagesFromRedis config env tid w) = Ok [])
  /\ (forall text parsed,
        raw = Some text -> Json.JSON_parse text = Ok parsed ->
        Js.is_array (Js.get parsed (lit "messages")) = false ->
        fst (Qa.loadMessagesFromRedis config env tid w) = Ok [])
  /\ (forall text,
        raw = Some text -> text <> [] ->
        Json.JSON_parse text = Throw SyntaxError ->
        fst (Qa.loadMessagesFromRedis config env tid w) = Throw SyntaxError
        /\ exists w',
             Qa.hydrate config env state w = (Ok Qa.no_update, w')
             /\ Qa.warnings w'
                = Qa.warnings w ++ [(Qa.HydrateStage, SyntaxError)]).
Proof.
  intros tid raw Hc Hf.
  pose proof (@loadMessagesFromRedis_reached config env tid w w0 Hc Hf) as E.
  fold raw in E. repeat split.
  - intros [H|H]; rewrite E, H; reflexivity.
  - intros text parsed H Hp Ha. rewrite E, H, Hp. cbn [fst].
    destruct text; [reflexivity|].
    destruct (Js.get parsed (lit "messages")); try reflexivity.
    discriminate.
  - rewrite E, H. destruct text; [contradiction|]. now rewrite H1.
  - rewrite H in E. destruct text as [|c text]; [contradiction|].
    rewrite H1 in E.
    eexists. split.
    + apply hydrate_catches, hydrate_body_throws. exact E.
    + reflexivity.
Qed.

Lemma load_missing_or_malformed_witness :
  let config := Sample.with_redis None None in
  let env := Sample.env_with (fun _ => 0%Z) Sample.failing_summarizer in
  let state := Qa.mkState [] (JStr (lit "t1")) (lit "q") JUndefined JUndefined in
  fst (Qa.loadMessagesFromRedis config env (JStr (lit "t1"))
         (Sample.world_with (lit "rag:mem:other") (lit "{}"))) = Ok []
  /\ fst (Qa.loadMessagesFromRedis config env (JStr (lit "t1"))
            (Sample.world_with (lit "rag:mem:t1") (lit "{}"))) = Ok []
  /\ exists w',
       Qa.hydrate config env state (Sample.world_with (lit "rag:mem:t1") (lit "{"))
       = (Ok Qa.no_update, w')
       /\ Qa.warnings w' = [(Qa.HydrateStage, SyntaxError)].
Proof.
  cbv zeta.
  pose (config := Sample.with_redis None None).
  pose (env := Sample.env_with (fun _ => 0%Z) Sample.failing_summarizer).
  pose (state := Qa.mkState [] (JStr (lit "t1")) (lit "q") JUndefined JUndefined).
  destruct (@load_missing_or_malformed config env state
              (Sample.world_with (lit "rag:mem:other") (lit "{}")) _
              eq_refl eq_refl) as [H1 _].
  destruct (@load_missing_or_malformed config env state
              (Sample.world_with (lit "rag:mem:t1") (lit "{}")) _
              eq_refl eq_refl) as [_ [H2 _]].
  destruct (@load_missing_or_malformed config env state
              (Sample.world_with (lit "rag:mem:t1") (lit "{")) _
              eq_refl eq_refl) as [_ [_ H3]].
  split; [|split].
  - apply H1. left. vm_compute. reflexivity.
  - apply (H2 (lit "{}") (JObj [])); vm_compute; reflexivity.
  - destruct (H3 (lit "{")) as [_ H4];
      [vm_compute; reflexivity | discriminate | vm_compute; reflexivity |].
    exact H4.
Defined.

(* ================================================================= *)
(** ** Hydrate: the restored history replaces the caller's *)


(** C6.  When the store holds a non-empty history for the thread, the
    hydrate node returns the remove-all marker followed by the restored
    messages, and the [messages] channel then holds exactly the restored
    messages in their order, each one as restored or with a fresh
    identifier when it had none: nothing of the caller's history is
    left. *)
Theorem hydrate_replaces
  (config : Qa.Config) (env : Qa.Env) (state : Qa.GraphState)
  (w w1 : Qa.World) (restored : list LangChain.BaseMessage) :
  Qa.loadMessagesFromRedis config env
    (Js.coalesce (Qa.threadId state) (JStr (lit "default"))) w
    = (Ok restored, w1) ->
  restored <> [] ->
  fst (Qa.hydrate config env state w)
    = Ok (Qa.messages_update
            (LangChain.RemoveMessage LangChain.REMOVE_ALL_MESSAGES :: restored))
  /\ exists state' w2,
       Qa.step env (Qa.hydrate config env) state w = (Ok state', w2)
       /\ Forall2 LangChain.same_but_id (Qa.messages state') restored
       /\ map LangChain.kind (Qa.messages state') = map LangChain.kind restored
       /\ map LangChain.content (Qa.messages state')
          = map LangChain.content restored
       /\ Qa.threadId state' = Qa.threadId state
       /\ Qa.input state' = Qa.input state.
Proof.
  intros Hload Hne.
  assert (Hh : Qa.hydrate config env state w
               = (Ok (Qa.messages_update
                        (LangChain.RemoveMessage LangChain.REMOVE_ALL_MESSAGES
                           :: restored)), w1)).
  { unfold Qa.hydrate, Qa.try_catch, Qa.hydrate_body, Qa.mbind.
    rewrite Hload. destruct restored; [contradiction|reflexivity]. }
  split; [now rewrite Hh|].
  unfold Qa.step, Qa.mbind. rewrite Hh, apply_messages_update.
  destruct (reducer_remove_all (Qa.uuid env) (Qa.messages state) restored
              (Qa.uuids w1)) as [rest [Hr Hrest]].
  rewrite Hr. cbn [fst snd].
  specialize (Hrest (loadMessagesFromRedis_kinds _ _ _ _ Hload)).
  do 2 eexists. split; [reflexivity|]. cbn [Qa.messages Qa.threadId Qa.input].
  assert (HS : Forall2 LangChain.same_but_id rest restored).
  { rewrite Hrest. apply ensure_ids_same. }
  repeat split; auto using Forall2_same_kinds, Forall2_same_contents.
Qed.

Lemma hydrate_replaces_witness :
  let config := Sample.with_redis None None in
  let env := Sample.env_with (fun _ => 0%Z) Sample.failing_summarizer in
  let stored :=
    lit "{" ++ Json.quote (lit "messages") ++ lit ":[{"
      ++ Json.quote (lit "type") ++ lit ":" ++ Json.quote (lit "human")
      ++ lit "," ++ Json.quote (lit "data") ++ lit ":{"
      ++ Json.quote (lit "content") ++ lit ":" ++ Json.quote (lit "earlier")
      ++ lit "}}]}" in
  let w := Sample.world_with (lit "rag:mem:t1") stored in
  let state := Qa.mkState Sample.hello (JStr (lit "t1")) (lit "q")
                 JUndefined JUndefined in
  exists state' w2,
    Qa.step env (Qa.hydrate config env) state w = (Ok state', w2)
    /\ map LangChain.content (Qa.messages state') = [JStr (lit "earlier")].
Proof.
  cbv zeta.
  set (config := Sample.with_redis None None).
  set (env := Sample.env_with (fun _ => 0%Z) Sample.failing_summarizer).
  set (w := Sample.world_with (lit "rag:mem:t1") _).
  set (state := Qa.mkState Sample.hello (JStr (lit "t1")) (lit "q")
                  JUndefined JUndefined).
  destruct (@hydrate_replaces config env state w
              (snd (Qa.loadMessagesFromRedis config env (JStr (lit "t1")) w))
              [LangChain.mkMessage LangChain.Human
                 [(lit "content", JStr (lit "earlier"));
                  (lit "additional_kwargs", JObj []);
                  (lit "response_metadata", JObj [])]])
    as [_ (state' & w2 & Hstep & _ & _ & Hc & _)].
  - vm_compute. reflexivity.
  - discriminate.
  - exists state', w2. split; [exact Hstep|exact Hc].
Defined.

(* ================================================================= *)
(** ** Failures inside the stages of a turn *)

Section TurnFacts.
Import Js Json LangChain Qa.

Variable config : Config.
Variable env : Env.

(** The five nodes in sequence: the outcome is decided by the chain. *)
Lemma run_nodes_outcome state w :
  match ragChain_invoke env (input state) with
  | Throw e => fst (run_nodes config env state w) = Throw e
  | Ok res =>
      exists state' w',
        run_nodes config env state w = (Ok state', w')
        /\ answer state'
           = JStr (to_string
                     (coalesce (get res (lit "answer"))
                        (coalesce (get res (lit "output")) (JStr []))))
  end.
Proof.
  unfold run_nodes.
  destruct (step_guarded env (hydrate config env) state w
              (hydrate_returns config env state w))
    as (s1 & w1 & H1 & _ & Hi1 & _).
  rewrite (@mbind_ok _ _ _ _ _ _ _ H1).
  destruct (step_ingest env s1 w1) as (s2 & w2 & H2 & _ & Hi2 & _).
  rewrite (@mbind_ok _ _ _ _ _ _ _ H2).
  pose proof (step_rag env s2 w2) as Hrag.
  rewrite Hi2, Hi1 in Hrag.
  destruct (ragChain_invoke env (input state)) as [res|e].
  - destruct Hrag as (s3 & w3 & H3 & _ & _ & Ha3).
    rewrite (@mbind_ok _ _ _ _ _ _ _ H3).
    destruct (step_guarded env (summarize config env) s3 w3
                (summarize_returns config env s3 w3))
      as (s4 & w4 & H4 & _ & _ & Ha4 & _).
    rewrite (@mbind_ok _ _ _ _ _ _ _ H4).
    destruct (persist_returns config env s4 w4) as [w5 Hp].
    unfold step. rewrite (@mbind_ok _ _ _ _ _ _ _ Hp), apply_no_update.
    do 2 eexists. split; [reflexivity|]. now rewrite Ha4.
  - now rewrite (@mbind_throw _ _ _ _ _ _ _ Hrag).
Qed.

(** The entry point, for a caller whose history holds no
    [RemoveMessage]. *)
Lemma ask_outcome state question w :
  Forall (fun m => kind m <> Remove) (messages state) ->
  match ragChain_invoke env question with
  | Throw e => fst (ask config env state question w) = Throw e
  | Ok res =>
      exists a w',
        ask config env state question w = (Ok a, w')
        /\ a_answer a
           = to_string (coalesce (get res (lit "answer"))
                          (coalesce (get res (lit "output")) (JStr [])))
  end.
Proof.
  intros Hm.
  destruct (@reducer_total (uuid env) [] (messages state) (uuids w) Hm)
    as [ms Hms].
  assert (Hinit : exists w0,
    apply_update env
      (mkState [] (threadId state) question (answer state) (context state))
      (messages_update (messages state)) w
    = (Ok (mkState ms (threadId state) question (answer state)
             (context state)), w0)).
  { rewrite apply_messages_update. cbn [messages threadId input answer context].
    rewrite Hms. eexists. reflexivity. }
  destruct Hinit as [w0 Hinit].
  set (s0 := mkState ms (threadId state) question (answer state)
               (context state)) in *.
  pose proof (run_nodes_outcome s0 w0) as Hrun.
  change (input s0) with question in Hrun.
  unfold ask, invoke. cbn [messages threadId input answer context].
  destruct (ragChain_invoke env question) as [res|e].
  - destruct Hrun as (s' & w' & Hr & Ha).
    assert (Hinv : mbind
              (apply_update env
                 (mkState [] (threadId state) question (answer state)
                    (context state))
                 (messages_update (messages state)))
              (fun s1 => run_nodes config env s1) w = (Ok s', w')).
    { now rewrite (@mbind_ok _ _ _ _ _ _ _ Hinit). }
    rewrite (@mbind_ok _ _ _ _ _ _ _ Hinv).
    do 2 eexists. split; [reflexivity|]. cbn [a_answer].
    now rewrite Ha.
  - destruct (run_nodes config env s0 w0) as [[s'|e'] w'] eqn:Er;
      cbn [fst] in Hrun; [discriminate|]. injection Hrun as ->.
    assert (Hinv : mbind
              (apply_update env
                 (mkState [] (threadId state) question (answer state)
                    (context state))
                 (messages_update (messages state)))
              (fun s1 => run_nodes config env s1) w = (Throw e, w')).
    { now rewrite (@mbind_ok _ _ _ _ _ _ _ Hinit). }
    now rewrite (@mbind_throw _ _ _ _ _ _ _ Hinv).
Qed.

End TurnFacts.

(** C1.  The hydrate, summarize and persist nodes always return: a
    failure inside one of them is caught there, logged as a warning, and
    the node yields no state change.  The turn as a whole fails exactly
    when the retrieval chain of the rag node fails, with that error;
    otherwise it completes and carries the answer.  The same holds at
    the entry point [ask] for a caller whose history holds no
    [RemoveMessage]: the error reaches the caller, or the answer does. *)
Theorem turn_fails_only_in_rag
  (config : Qa.Config) (env : Qa.Env) (state : Qa.GraphState) (w : Qa.World) :
  (exists u w', Qa.hydrate config env state w = (Ok u, w'))
  /\ (exists u w', Qa.summarize config env state w = (Ok u, w'))
  /\ (exists w', Qa.persist config env state w = (Ok Qa.no_update, w'))
  /\ (forall e w1,
        Qa.hydrate_body config env state w = (Throw e, w1) ->
        exists w',
          Qa.step env (Qa.hydrate config env) state w = (Ok state, w')
          /\ Qa.warnings w' = Qa.warnings w1 ++ [(Qa.HydrateStage, e)])
  /\ (forall e w1,
        Qa.summarize_body config env state w = (Throw e, w1) ->
        exists w',
          Qa.step env (Qa.summarize config env) state w = (Ok state, w')
          /\ Qa.warnings w' = Qa.warnings w1 ++ [(Qa.SummarizeStage, e)])
  /\ (forall e w1,
        Qa.saveMessagesToRedis config env
          (Js.coalesce (Qa.threadId state) (JStr (lit "default")))
          (Qa.messages state) w = (Throw e, w1) ->
        exists w',
          Qa.step env (Qa.persist config env) state w = (Ok state, w')
          /\ Qa.warnings w' = Qa.warnings w1 ++ [(Qa.PersistStage, e)])
  /\ match Qa.ragChain_invoke env (Qa.input state) with
     | Throw e => fst (Qa.run_nodes config env state w) = Throw e
     | Ok res =>
         exists state' w',
           Qa.run_nodes config env state w = (Ok state', w')
           /\ Qa.answer state'
              = JStr (Js.to_string
                        (Js.coalesce (Js.get res (lit "answer"))
                           (Js.coalesce (Js.get res (lit "output"))
                              (JStr []))))
     end
  /\ (forall question,
        Forall (fun m => LangChain.kind m <> LangChain.Remove)
          (Qa.messages state) ->
        match Qa.ragChain_invoke env question with
        | Throw e => fst (Qa.ask config env state question w) = Throw e
        | Ok res =>
            exists a w',
              Qa.ask config env state question w = (Ok a, w')
              /\ Qa.a_answer a
                 = Js.to_string
                     (Js.coalesce (Js.get res (lit "answer"))
                        (Js.coalesce (Js.get res (lit "output")) (JStr [])))
        end).
Proof.
  split; [|split; [|split; [|split; [|split; [|split; [|split]]]]]].
  - destruct (hydrate_returns config env state w) as (u & w' & H & _). eauto.
  - destruct (summarize_returns config env state w) as (u & w' & H & _). eauto.
  - apply persist_returns.
  - intros e w1 H. apply hydrate_catches in H.
    unfold Qa.step, Qa.mbind. rewrite H, apply_no_update. eauto.
  - intros e w1 H. apply summarize_catches in H.
    unfold Qa.step, Qa.mbind. rewrite H, apply_no_update. eauto.
  - intros e w1 H. apply persist_catches in H.
    unfold Qa.step, Qa.mbind. rewrite H, apply_no_update. eauto.
  - apply run_nodes_outcome.
  - intros question Hm. now apply ask_outcome.
Qed.

Lemma turn_fails_only_in_rag_witness :
  let env := Sample.env_with (fun _ => 1700000000000%Z) Sample.spec_summarizer in
  let state := Qa.mkState Sample.hello (JStr (lit "t1")) (lit "q")
                 JUndefined JUndefined in
  (exists w',
     Qa.step env (Qa.hydrate Sample.no_redis env) state Sample.empty_world
     = (Ok state, w')
     /\ Qa.warnings w'
        = [(Qa.HydrateStage, Failure (lit "Redis url is not configured."))])
  /\ (exists state' w',
        Qa.run_nodes Sample.no_redis env state Sample.empty_world
        = (Ok state', w')
        /\ Qa.answer state' = JStr (lit "42"))
  /\ (exists a w',
        Qa.ask Sample.no_redis env state (lit "q") Sample.empty_world
        = (Ok a, w')
        /\ Qa.a_answer a = lit "42").
Proof.
  cbv zeta.
  destruct (@turn_fails_only_in_rag Sample.no_redis
              (Sample.env_with (fun _ => 1700000000000%Z) Sample.spec_summarizer)
              (Qa.mkState Sample.hello (JStr (lit "t1")) (lit "q")
                 JUndefined JUndefined)
              Sample.empty_world)
    as (_ & _ & _ & Hh & _ & _ & Hrun & Hask).
  split; [|split].
  - apply (Hh (Failure (lit "Redis url is not configured."))
              Sample.empty_world).
    reflexivity.
  - exact Hrun.
  - apply (Hask (lit "q")). repeat constructor. discriminate.
Defined.

(* ================================================================= *)
(** ** Summarize: when nothing happens *)

Section SummarizeFacts.
Import Js Json LangChain Qa.

Lemma filter_non_system_nil (ms : list BaseMessage) :
  Forall (fun m => SystemMessage_isInstance m = true) ms ->
  filter (fun m => negb (SystemMessage_isInstance m)
                   && negb (RemoveMessage_isInstance m)) ms = [].
Proof.
  induction 1 as [|m ms Hm _ IH]; [reflexivity|].
  cbn [filter]. now rewrite Hm, IH.
Qed.

End SummarizeFacts.

(** C3.  The summarize node yields no state change whenever the byte
    threshold is unset or not a positive finite number, or the estimated
    size is at or below the threshold, or every message is a system
    message. *)
Theorem summarize_identity
  (config : Qa.Config) (env : Qa.Env) (state : Qa.GraphState) (w : Qa.World) :
  let threshold := Qa.redis_field config Qa.maxValueBytes (Qa.Finite 0) in
  Qa.positive_finite threshold = None
  \/ (exists limit size,
        Qa.positive_finite threshold = Some limit
        /\ fst (Qa.estimateRedisValueBytes env (Qa.messages state) w) = Ok size
        /\ (Z.of_nat size <= limit)%Z)
  \/ Forall (fun m => LangChain.SystemMessage_isInstance m = true)
       (Qa.messages state) ->
  exists w',
    Qa.summarize config env state w = (Ok Qa.no_update, w')
    /\ Qa.step env (Qa.summarize config env) state w = (Ok state, w')
    /\ Qa.warnings w' = Qa.warnings w /\ Qa.db w' = Qa.db w.
Proof.
  intros threshold H.
  assert (Hb : exists w',
             Qa.summarize_body config env state w = (Ok Qa.no_update, w')
             /\ Qa.warnings w' = Qa.warnings w /\ Qa.db w' = Qa.db w).
  { unfold Qa.summarize_body. fold threshold.
    destruct (Qa.positive_finite threshold) as [limit|] eqn:Et.
    2:{ eexists. split; [reflexivity|]. auto. }
    destruct (estimateRedisValueBytes_total env (Qa.messages state) w)
      as (s & _ & He).
    rewrite (@mbind_ok _ _ _ _ _ _ _ He).
    destruct H as [H|[(limit' & size & Hl & Hs & Hle)|H]].
    - discriminate.
    - rewrite He in Hs. cbn [fst] in Hs. injection Hs as <-.
      injection Hl as <-. apply Z.leb_le in Hle. rewrite Hle.
      eexists. split; [reflexivity|]. auto.
    - destruct (Z.of_nat (Json.byteLength s) <=? limit)%Z.
      + eexists. split; [reflexivity|]. auto.
      + rewrite (filter_non_system_nil H).
        eexists. split; [reflexivity|]. auto. }
  destruct Hb as (w' & Hb & Hw & Hd). exists w'.
  assert (Hs : Qa.summarize config env state w = (Ok Qa.no_update, w')).
  { unfold Qa.summarize, Qa.try_catch. now rewrite Hb. }
  repeat split; auto.
  unfold Qa.step. now rewrite (@mbind_ok _ _ _ _ _ _ _ Hs), apply_no_update.
Qed.

Lemma summarize_identity_witness :
  let env := Sample.env_with (fun _ => 1700000000000%Z) Sample.spec_summarizer in
  let state := Qa.mkState Sample.hello (JStr (lit "t1")) (lit "q")
                 JUndefined JUndefined in
  (exists w', Qa.step env (Qa.summarize Sample.no_redis env) state
                Sample.empty_world = (Ok state, w'))
  /\ (exists w', Qa.step env
                   (Qa.summarize
                      (Sample.with_redis (Some (Qa.Finite 4096)) None) env)
                   state Sample.empty_world = (Ok state, w'))
  /\ (exists w',
        Qa.summarize (Sample.with_redis (Some (Qa.Finite 1)) None) env
          (Qa.mkState [LangChain.text_message LangChain.System (lit "rules")]
             (JStr (lit "t1")) (lit "q") JUndefined JUndefined)
          Sample.empty_world = (Ok Qa.no_update, w')).
Proof.
  cbv zeta. split; [|split].
  - destruct (@summarize_identity Sample.no_redis
                (Sample.env_with (fun _ => 1700000000000%Z) Sample.spec_summarizer)
                (Qa.mkState Sample.hello (JStr (lit "t1")) (lit "q")
                   JUndefined JUndefined)
                Sample.empty_world) as (w' & _ & H & _).
    + left. reflexivity.
    + now exists w'.
  - destruct (@summarize_identity
                (Sample.with_redis (Some (Qa.Finite 4096)) None)
                (Sample.env_with (fun _ => 1700000000000%Z) Sample.spec_summarizer)
                (Qa.mkState Sample.hello (JStr (lit "t1")) (lit "q")
                   JUndefined JUndefined)
                Sample.empty_world) as (w' & _ & H & _).
    + right. left. exists 4096%Z, 148. split; [reflexivity|].
      split; [vm_compute; reflexivity|]. lia.
    + now exists w'.
  - destruct (@summarize_identity
                (Sample.with_redis (Some (Qa.Finite 1)) None)
                (Sample.env_with (fun _ => 1700000000000%Z) Sample.spec_summarizer)
                (Qa.mkState
                   [LangChain.text_message LangChain.System (lit "rules")]
                   (JStr (lit "t1")) (lit "q") JUndefined JUndefined)
                Sample.empty_world) as (w' & H & _).
    + right. right. repeat constructor.
    + now exists w'.
Defined.

(* ================================================================= *)
(** ** Summarize: what the stage makes of the middleware's answer *)

Section KeepFacts.
Import Js Json LangChain Qa.

Lemma system_kinds (ms : list BaseMessage) :
  Forall (fun m => kind m <> Remove) (filter SystemMessage_isInstance ms).
Proof.
  apply Forall_forall. intros m Hm. apply filter_In in Hm as [_ Hm].
  unfold SystemMessage_isInstance in Hm. intros E. rewrite E in Hm.
  discriminate.
Qed.

Lemma match_nonempty {A B : Type} (l : list A) (x y : B) :
  l <> [] -> match l with [] => x | _ :: _ => y end = y.
Proof. destruct l; [contradiction|reflexivity]. Qed.

Lemma filter_not_remove_kinds (ms : list BaseMessage) :
  Forall (fun m => kind m <> Remove)
    (filter (fun m => negb (RemoveMessage_isInstance m)) ms).
Proof.
  apply Forall_forall. intros m Hm. apply filter_In in Hm as [_ Hm].
  unfold RemoveMessage_isInstance in Hm. intros E. rewrite E in Hm.
  discriminate.
Qed.

End KeepFacts.

(** C2, counterexample.  The threshold is one byte, two messages are to
    be kept and the history has one human message: the stage calls the
    middleware, which has nothing older than the messages to keep and
    returns nothing.  The stage then yields no update and logs nothing:
    the history stays the one message, without any summary message,
    where the claim has a summary followed by min(2, 1) = 1 message. *)
Lemma summarize_without_summary :
  let config := Sample.with_redis (Some (Qa.Finite 1)) (Some (Qa.Finite 2)) in
  let env := Sample.env_with (fun _ => 1700000000000%Z)
               Sample.idle_summarizer in
  let state := Qa.mkState Sample.hello (JStr (lit "t1")) (lit "q")
                 JUndefined JUndefined in
  fst (Qa.estimateRedisValueBytes env (Qa.messages state) Sample.empty_world)
    = Ok 148
  /\ filter (fun m => negb (LangChain.SystemMessage_isInstance m)
                      && negb (LangChain.RemoveMessage_isInstance m))
       (Qa.messages state) = Sample.hello
  /\ fst (Qa.summarize config env state Sample.empty_world) = Ok Qa.no_update
  /\ Qa.warnings (snd (Qa.summarize config env state Sample.empty_world)) = []
  /\ fst (Qa.step env (Qa.summarize config env) state Sample.empty_world)
     = Ok state.
Proof.
  cbv zeta. split; [|split; [|split; [|split]]]; vm_compute; reflexivity.
Qed.

(** C2, amended.  When the estimated size exceeds the positive threshold
    and at least one message is neither a system message nor a removal,
    the stage gives these messages, [keepLastN] (the configured count,
    six by default, never below zero) and the summary prefix to the
    summarising middleware, and what it returns is decided by the
    middleware's answer.  When the middleware throws, the stage logs one
    warning and changes nothing.  When it returns nothing, or removals
    only, the stage changes nothing and logs nothing.  Otherwise the
    stage returns the marker followed by all system messages in their
    order and the messages of the middleware in its order, removals left
    out, and the channel then holds exactly these messages: how many
    recent messages are kept is the middleware's decision. *)
Theorem summarize_follows_middleware
  (config : Qa.Config) (env : Qa.Env) (state : Qa.GraphState) (w : Qa.World)
  (limit : Z) (size : nat) :
  let systemMessages :=
    filter LangChain.SystemMessage_isInstance (Qa.messages state) in
  let nonSystemMessages :=
    filter (fun m => negb (LangChain.SystemMessage_isInstance m)
                     && negb (LangChain.RemoveMessage_isInstance m))
      (Qa.messages state) in
  let keepLastN :=
    Qa.max_zero (Qa.redis_field config Qa.summaryKeepLastN (Qa.Finite 6)) in
  let answer :=
    Qa.beforeModel env keepLastN
      (Qa.redis_field config Qa.summaryPrefix Qa.default_summary_prefix)
      nonSystemMessages in
  let unchanged (notes : list (Qa.Stage * Error)) :=
    fst (Qa.summarize config env state w) = Ok Qa.no_update
    /\ exists w',
         Qa.step env (Qa.summarize config env) state w = (Ok state, w')
         /\ Qa.warnings w' = Qa.warnings w ++ notes in
  Qa.positive_finite (Qa.redis_field config Qa.maxValueBytes (Qa.Finite 0))
    = Some limit ->
  fst (Qa.estimateRedisValueBytes env (Qa.messages state) w) = Ok size ->
  (limit < Z.of_nat size)%Z ->
  nonSystemMessages <> [] ->
  match answer with
  | Throw e => unchanged [(Qa.SummarizeStage, e)]
  | Ok None => unchanged []
  | Ok (Some res) =>
      match filter (fun m => negb (LangChain.RemoveMessage_isInstance m)) res
      with
      | [] => unchanged []
      | (_ :: _) as summarized =>
          fst (Qa.summarize config env state w)
          = Ok (Qa.messages_update
                  (LangChain.RemoveMessage LangChain.REMOVE_ALL_MESSAGES
                     :: systemMessages ++ summarized))
          /\ exists state' w',
               Qa.step env (Qa.summarize config env) state w = (Ok state', w')
               /\ Forall2 LangChain.same_but_id (Qa.messages state')
                    (systemMessages ++ summarized)
               /\ Qa.warnings w' = Qa.warnings w
      end
  end.
Proof.
  intros systemMessages nonSystemMessages keepLastN answer unchanged
    Hl Hs Hlt Hne.
  destruct (estimateRedisValueBytes_total env (Qa.messages state) w)
    as (s & _ & He).
  rewrite He in Hs. cbn [fst] in Hs. injection Hs as Hs.
  set (w1 := Qa.mkWorld (Qa.db w) (Qa.connected w) (Qa.ops w)
               (S (Qa.ticks w)) (Qa.uuids w) (Qa.warnings w)) in He.
  assert (Hbody :
    Qa.summarize_body config env state w
    = match answer with
      | Throw e => (Throw e, w1)
      | Ok None => (Ok Qa.no_update, w1)
      | Ok (Some res) =>
          match filter (fun m => negb (LangChain.RemoveMessage_isInstance m))
                  res with
          | [] => (Ok Qa.no_update, w1)
          | (_ :: _) as summarized =>
              (Ok (Qa.messages_update
                     (LangChain.RemoveMessage LangChain.REMOVE_ALL_MESSAGES
                        :: systemMessages ++ summarized)), w1)
          end
      end).
  { unfold Qa.summarize_body. rewrite Hl.
    rewrite (@mbind_ok _ _ _ _ _ _ _ He), Hs.
    apply Z.leb_gt in Hlt. rewrite Hlt.
    fold nonSystemMessages. fold systemMessages.
    rewrite (match_nonempty _ _ Hne). fold keepLastN. fold answer.
    unfold Qa.mbind, Qa.lift, Qa.ret.
    destruct answer as [[res|]|e]; try reflexivity.
    destruct (filter _ res); reflexivity. }
  assert (Hquiet : forall notes w2,
    Qa.summarize config env state w = (Ok Qa.no_update, w2) ->
    Qa.warnings w2 = Qa.warnings w ++ notes -> unchanged notes).
  { intros notes w2 Hn Hw. split; [now rewrite Hn|].
    exists w2. split; [|exact Hw].
    unfold Qa.step. rewrite (@mbind_ok _ _ _ _ _ _ _ Hn).
    apply apply_no_update. }
  destruct answer as [[res|]|e].
  - destruct (filter (fun m => negb (LangChain.RemoveMessage_isInstance m))
                res) as [|m ms] eqn:Ef.
    + apply Hquiet with (w2 := w1).
      * unfold Qa.summarize, Qa.try_catch. now rewrite Hbody.
      * cbn. now rewrite List.app_nil_r.
    + assert (Hnode : Qa.summarize config env state w
                = (Ok (Qa.messages_update
                         (LangChain.RemoveMessage LangChain.REMOVE_ALL_MESSAGES
                            :: systemMessages ++ m :: ms)), w1))
        by (unfold Qa.summarize, Qa.try_catch; now rewrite Hbody).
      split; [now rewrite Hnode|].
      unfold Qa.step. rewrite (@mbind_ok _ _ _ _ _ _ _ Hnode).
      rewrite apply_messages_update.
      destruct (reducer_remove_all (Qa.uuid env) (Qa.messages state)
                  (systemMessages ++ m :: ms) (Qa.uuids w1))
        as [rest [Hr Hrest]].
      rewrite Hr. cbn [fst snd]. do 2 eexists.
      split; [reflexivity|]. split; [|reflexivity].
      cbn [Qa.messages]. rewrite Hrest; [apply ensure_ids_same|].
      apply Forall_app. split; [apply system_kinds|].
      rewrite <- Ef. apply filter_not_remove_kinds.
  - apply Hquiet with (w2 := w1).
    + unfold Qa.summarize, Qa.try_catch. now rewrite Hbody.
    + cbn. now rewrite List.app_nil_r.
  - apply Hquiet with
      (w2 := Qa.mkWorld (Qa.db w1) (Qa.connected w1) (Qa.ops w1) (Qa.ticks w1)
               (Qa.uuids w1) (Qa.warnings w1 ++ [(Qa.SummarizeStage, e)])).
    + apply summarize_catches. exact Hbody.
    + reflexivity.
Qed.

Lemma summarize_follows_middleware_witness :
  let config := Sample.with_redis (Some (Qa.Finite 1)) (Some (Qa.Finite 2)) in
  let env := Sample.env_with (fun _ => 1700000000000%Z) Sample.spec_summarizer in
  let sys := LangChain.text_message LangChain.System (lit "rules") in
  let m1 := LangChain.text_message LangChain.Human (lit "one") in
  let m2 := LangChain.ai_message (lit "two") in
  let m3 := LangChain.text_message LangChain.Human (lit "three") in
  let state := Qa.mkState [m1; sys; m2; m3] (JStr (lit "t1")) (lit "q")
                 JUndefined JUndefined in
  fst (Qa.summarize config env state Sample.empty_world)
  = Ok (Qa.messages_update
          [LangChain.RemoveMessage LangChain.REMOVE_ALL_MESSAGES; sys;
           Sample.summary_message Qa.default_summary_prefix; m2; m3]).
Proof.
  cbv zeta.
  pose proof (@summarize_follows_middleware
              (Sample.with_redis (Some (Qa.Finite 1)) (Some (Qa.Finite 2)))
              (Sample.env_with (fun _ => 1700000000000%Z) Sample.spec_summarizer)
              (Qa.mkState
                 [LangChain.text_message LangChain.Human (lit "one");
                  LangChain.text_message LangChain.System (lit "rules");
                  LangChain.ai_message (lit "two");
                  LangChain.text_message LangChain.Human (lit "three")]
                 (JStr (lit "t1")) (lit "q") JUndefined JUndefined)
              Sample.empty_world 1%Z
              (Json.byteLength
                 match Json.stringify
                         (Qa.payload_at 1700000000000
                            [LangChain.text_message LangChain.Human (lit "one");
                             LangChain.text_message LangChain.System
                               (lit "rules");
                             LangChain.ai_message (lit "two");
                             LangChain.text_message LangChain.Human
                               (lit "three")])
                 with Some s => s | None => [] end)
              eq_refl eq_refl) as H.
  cbv zeta in H.
  apply H.
  - vm_compute. reflexivity.
  - discriminate.
Defined.

(* ================================================================= *)
(** ** Saving and loading back *)

Section ObjectFacts.
Import Js Json.

Lemma obj_has_In k o : obj_has k o = true <-> In k (map fst o).
Proof.
  induction o as [|[k' v] o IH]; cbn [obj_has map fst In].
  - split; [discriminate|contradiction].
  - rewrite orb_true_iff, IH, jsstring_eqb_eq. split; intros [H|H]; auto.
Qed.

Lemma obj_set_fresh k v o : ~ In k (map fst o) -> obj_set k v o = o ++ [(k, v)].
Proof.
  induction o as [|[k' v'] o IH]; intros H; cbn [obj_set app]; [reflexivity|].
  cbn [map fst In] in H.
  rewrite jsstring_eqb_neq by (intros ->; apply H; now left).
  rewrite IH; [reflexivity|]. intros Hin. apply H. now right.
Qed.

Lemma fold_obj_set_nodup ms : forall acc,
  NoDup (map fst (acc ++ ms)) ->
  fold_left (fun o kv => obj_set (fst kv) (snd kv) o) ms acc = acc ++ ms.
Proof.
  induction ms as [|[k v] ms IH]; intros acc H; cbn [fold_left fst snd].
  - now rewrite List.app_nil_r.
  - assert (Hk : ~ In k (map fst acc)).
    { rewrite map_app in H. apply NoDup_remove_2 in H.
      intros Hin. apply H. apply in_or_app. now left. }
    rewrite obj_set_fresh by exact Hk.
    change ((k, v) :: ms) with ([(k, v)] ++ ms) in *.
    rewrite app_assoc in H. rewrite IH by exact H. now rewrite <- app_assoc.
Qed.

(** Members with distinct names become the properties as they are. *)
Lemma build_object_nodup ms : NoDup (map fst ms) -> build_object ms = ms.
Proof. intros H. now apply (@fold_obj_set_nodup ms []). Qed.

Lemma obj_set_keys k v o :
  map fst (obj_set k v o)
  = if obj_has k o then map fst o else map fst o ++ [k].
Proof.
  induction o as [|[k' v'] o IH]; cbn [obj_set obj_has map fst app];
    [reflexivity|].
  destruct (jsstring_eqb k k') eqn:E; cbn [orb map fst].
  - apply jsstring_eqb_eq in E. now subst.
  - rewrite IH. now destruct (obj_has k o).
Qed.

Lemma obj_set_nodup k v o :
  NoDup (map fst o) -> NoDup (map fst (obj_set k v o)).
Proof.
  intros H. rewrite obj_set_keys. destruct (obj_has k o) eqn:E; [exact H|].
  apply NoDup_app; [exact H|repeat constructor; intros []|].
  intros x Hx [<-|[]]. apply obj_has_In in Hx. congruence.
Qed.

Lemma normal_members_keys nf o x :
  In x (map fst (normal_members nf o)) -> In x (map fst o).
Proof.
  induction o as [|[k v] o IH]; cbn [normal_members map fst In]; [auto|].
  destruct v; cbn [map fst In]; intros H; try (destruct H; auto); auto.
Qed.

Lemma normal_members_nodup nf o :
  NoDup (map fst o) -> NoDup (map fst (normal_members nf o)).
Proof.
  induction o as [|[k v] o IH]; cbn [normal_members map fst]; intros H;
    [constructor|].
  inversion H as [|? ? Hk Ho]; subst.
  destruct v; cbn [map fst]; auto;
    (constructor; [|auto]);
    intros Hin; apply Hk; eapply normal_members_keys; eauto.
Qed.

Lemma obj_get_normal_members nf k o :
  obj_get k o <> JUndefined ->
  obj_get k (normal_members nf o) = nf (obj_get k o).
Proof.
  induction o as [|[k' v] o IH]; cbn [obj_get normal_members];
    [contradiction|].
  destruct (jsstring_eqb k k') eqn:E.
  - intros Hv. destruct v; try contradiction; cbn [obj_get];
      now rewrite E.
  - intros Hv. destruct v; cbn [obj_get]; rewrite ?E; auto.
Qed.

Lemma obj_get_with_default k k' o :
  k <> k' ->
  obj_get k (LangChain.with_default k' o) = obj_get k o.
Proof.
  intros H. unfold LangChain.with_default.
  destruct (truthy (obj_get k' o)); [reflexivity|].
  now apply obj_get_set_other.
Qed.

End ObjectFacts.

Section RoundTripMessages.
Import Js Json LangChain Qa.

(** One message, through [toDict], the sanitiser, the serialiser, the
    parser and [mapStoredMessageToChatMessage]. *)
Lemma roundtrip_message m s :
  wf_message m -> spec_role (kind m) -> content m = JStr s ->
  exists m',
    mapStoredMessageToChatMessage
      (normal_element normal (sanitize (toDict m))) = Ok m'
    /\ kind m' = kind m
    /\ content m' = JStr (Think.replace_think s).
Proof.
  intros Hwf Hrole Hc. rewrite sanitize_toDict, Hc.
  cbn [stripThinkFromContent].
  set (d := obj_set (lit "response_metadata") _ _).
  assert (Hd : NoDup (map fst d)) by (unfold d; auto using obj_set_nodup).
  assert (Hdc : obj_get (lit "content") d = JStr (Think.replace_think s)).
  { unfold d. rewrite !obj_get_set_other by discriminate.
    apply obj_get_set_same. }
  assert (Hn : normal_element normal
                 (JObj [(lit "type", JStr (type_name (kind m)));
                        (lit "data", JObj d)])
               = JObj [(lit "type", JStr (type_name (kind m)));
                       (lit "data", JObj (normal_members normal d))]).
  { cbn [normal_element normal normal_members].
    rewrite (@build_object_nodup (normal_members normal d))
      by (apply normal_members_nodup; exact Hd).
    reflexivity. }
  rewrite Hn. clear Hn.
  assert (Hcontent : forall K,
    content (mkMessage K
               (with_default (lit "response_metadata")
                  (with_default (lit "additional_kwargs")
                     (normal_members normal d))))
    = JStr (Think.replace_think s)).
  { intros K. unfold content. cbn [lc_kwargs].
    rewrite !obj_get_with_default by discriminate.
    rewrite obj_get_normal_members; rewrite Hdc; [reflexivity|discriminate]. }
  destruct Hrole as [Hk|[Hk|Hk]]; rewrite Hk;
    eexists; (split; [reflexivity|]); (split; [reflexivity|]);
    apply Hcontent.
Qed.

Lemma roundtrip_messages ms :
  Forall (fun m => wf_message m /\ spec_role (kind m)
                   /\ exists s, content m = JStr s /\ ~ Think.has_segment s)
    ms ->
  exists ms',
    mapStoredMessagesToChatMessages
      (map (normal_element normal) (mapMessagesForStorage ms)) = Ok ms'
    /\ map kind ms' = map kind ms
    /\ map content ms' = map content ms.
Proof.
  induction 1 as [|m ms (Hwf & Hrole & s & Hc & Hs) _ (ms' & E & Hk & Hcs)].
  - exists []. repeat split; reflexivity.
  - destruct (@roundtrip_message m s Hwf Hrole Hc) as (m' & Em & Hk' & Hc').
    exists (m' :: ms').
    unfold mapMessagesForStorage, mapChatMessagesToStoredMessages in *.
    cbn [map mapStoredMessagesToChatMessages].
    rewrite Em. cbn [bind]. rewrite E. cbn [bind].
    repeat split; [congruence|].
    rewrite Hc', Hcs, Hc. f_equal. f_equal.
    apply replace_think_no_segment.
    destruct (Think.has_segmentb s) eqn:Eb; [|reflexivity].
    apply has_segmentb_spec in Eb. contradiction.
Qed.

Lemma payload_messages t ms :
  get (normal (payload_at t ms)) (lit "messages")
  = JArr (map (normal_element normal) (mapMessagesForStorage ms)).
Proof. reflexivity. Qed.

(** A message built from a text is a message of the data model. *)
Lemma text_message_spec k text :
  spec_role k -> Think.has_segmentb text = false ->
  wf_message (text_message k text)
  /\ spec_role (kind (text_message k text))
  /\ exists s, content (text_message k text) = JStr s
               /\ ~ Think.has_segment s.
Proof.
  intros Hk Hs. split; [|split; [exact Hk|]].
  - unfold wf_message. cbn [text_message lc_kwargs map fst].
    repeat constructor; cbn [In]; intuition discriminate.
  - exists text. split; [reflexivity|].
    rewrite <- has_segmentb_spec. now rewrite Hs.
Qed.

End RoundTripMessages.

(** C4.  For messages of the data model (role human, assistant or
    system, content a text) whose contents hold no reasoning-markup
    segment, a successful save followed by a load whose GET goes through
    gives back a sequence of the same length with the same roles and the
    same contents in the same order.  (Keys [think] in the metadata maps
    do not matter for roles and contents; the entry is read before any
    expiry.) *)
Theorem save_then_load
  (config : Qa.Config) (env : Qa.Env) (tid : jsval)
  (msgs : list LangChain.BaseMessage) (w w1 : Qa.World) :
  Forall (fun m => LangChain.wf_message m
                   /\ LangChain.spec_role (LangChain.kind m)
                   /\ exists s, LangChain.content m = JStr s
                                /\ ~ Think.has_segment s) msgs ->
  Qa.saveMessagesToRedis config env tid msgs w = (Ok tt, w1) ->
  Qa.redis_fault env (Qa.ops w1) = None ->
  exists loaded,
    fst (Qa.loadMessagesFromRedis config env tid w1) = Ok loaded
    /\ length loaded = length msgs
    /\ map LangChain.kind loaded = map LangChain.kind msgs
    /\ map LangChain.content loaded = map LangChain.content msgs.
Proof.
  intros Hm Hsave Hget.
  apply saveMessagesToRedis_ok in Hsave as (s & ex & Hs & Hdb & Hconn).
  destruct (@roundtrip_messages msgs Hm) as (loaded & Hl & Hk & Hc).
  exists loaded.
  rewrite (@loadMessagesFromRedis_connected config env tid w1 Hconn Hget).
  rewrite Hdb. cbn [option_map Qa.value fst].
  rewrite (@JSON_parse_stringify _ _ Hs), payload_messages.
  destruct (@stringify_head _ _ Hs) as (c & t' & -> & _).
  repeat split; auto.
  rewrite <- (length_map LangChain.kind loaded), Hk. apply length_map.
Qed.

Lemma save_then_load_witness :
  let config := Sample.with_redis None None in
  let env := Sample.env_with (fun _ => 1700000000000%Z)
               Sample.failing_summarizer in
  let msgs := [LangChain.text_message LangChain.System (lit "rules");
               LangChain.text_message LangChain.Human (lit "question");
               LangChain.text_message LangChain.AI (lit "answer")] in
  let w1 := snd (Qa.saveMessagesToRedis config env (JStr (lit "t1")) msgs
                   Sample.empty_world) in
  exists loaded,
    fst (Qa.loadMessagesFromRedis config env (JStr (lit "t1")) w1) = Ok loaded
    /\ map LangChain.content loaded
       = [JStr (lit "rules"); JStr (lit "question"); JStr (lit "answer")].
Proof.
  cbv zeta.
  destruct (@save_then_load
              (Sample.with_redis None None)
              (Sample.env_with (fun _ => 1700000000000%Z)
                 Sample.failing_summarizer)
              (JStr (lit "t1"))
              [LangChain.text_message LangChain.System (lit "rules");
               LangChain.text_message LangChain.Human (lit "question");
               LangChain.text_message LangChain.AI (lit "answer")]
              Sample.empty_world
              (snd (Qa.saveMessagesToRedis (Sample.with_redis None None)
                      (Sample.env_with (fun _ => 1700000000000%Z)
                         Sample.failing_summarizer)
                      (JStr (lit "t1"))
                      [LangChain.text_message LangChain.System (lit "rules");
                       LangChain.text_message LangChain.Human (lit "question");
                       LangChain.text_message LangChain.AI (lit "answer")]
                      Sample.empty_world)))
    as (loaded & Hl & _ & _ & Hc).
  - repeat (apply Forall_cons || apply Forall_nil);
      apply text_message_spec;
      solve [unfold LangChain.spec_role; auto | vm_compute; reflexivity].
  - vm_compute. reflexivity.
  - reflexivity.
  - exists loaded. split; [exact Hl|exact Hc].
Defined.

(* ================================================================= *)
(** ** The Redis client across calls *)

Section ClientFacts.
Import Js Json LangChain Qa.

Variable config : Config.
Variable env : Env.

(** Whatever [getRedisClient] does, the key space, the clock, the
    identifiers and the log are as before. *)
Lemma getRedisClient_frame w :
  let w1 := snd (getRedisClient config env w) in
  db w1 = db w /\ ticks w1 = ticks w /\ uuids w1 = uuids w
  /\ warnings w1 = warnings w.
Proof.
  unfold getRedisClient, mbind, redis_op, set_connected.
  destruct (connected w); [cbn; tauto|].
  destruct (redis_field config url []); [cbn; tauto|].
  destruct (redis_fault env (ops w)); cbn; tauto.
Qed.

Lemma getRedisClient_throws w e w1 :
  getRedisClient config env w = (Throw e, w1) ->
  connected w = false /\ connected w1 = false /\ db w1 = db w
  /\ (redis_field config url [] = [] ->
      e = Failure (lit "Redis url is not configured.") /\ w1 = w)
  /\ (redis_field config url [] <> [] ->
      redis_fault env (ops w) = Some e /\ ops w1 = S (ops w)).
Proof.
  unfold getRedisClient, mbind, redis_op, set_connected.
  destruct (connected w) eqn:Ec; [discriminate|].
  destruct (redis_field config url []) as [|c u].
  - intros H. injection H as <- <-.
    split; [reflexivity|]. split; [first [reflexivity|exact Ec]|]. split; [reflexivity|].
    split; [auto|]. intros Hn. now contradiction Hn.
  - destruct (redis_fault env (ops w)) as [e'|]; [|discriminate].
    intros H. injection H as <- <-. cbn.
    split; [reflexivity|]. split; [first [reflexivity|exact Ec]|]. split; [reflexivity|].
    split; [discriminate|]. auto.
Qed.

Lemma getRedisClient_no_url w :
  redis_field config url [] = [] -> connected w = false ->
  getRedisClient config env w
  = (Throw (Failure (lit "Redis url is not configured.")), w).
Proof. intros Hu Hc. unfold getRedisClient. now rewrite Hc, Hu. Qed.

End ClientFacts.

(** X1.  The client is a singleton: once [getRedisClient] has succeeded,
    every later call succeeds at once, without a Redis operation and
    without any change of the world; the successful call itself made
    one connection attempt if no client was held and none otherwise,
    and left the key space alone. *)
Theorem getRedisClient_once
  (config : Qa.Config) (env env' : Qa.Env) (w w1 : Qa.World) :
  Qa.getRedisClient config env w = (Ok tt, w1) ->
  Qa.getRedisClient config env' w1 = (Ok tt, w1)
  /\ Qa.connected w1 = true
  /\ Qa.db w1 = Qa.db w
  /\ Qa.ops w1 = (if Qa.connected w then Qa.ops w else S (Qa.ops w)).
Proof.
  intros H.
  pose proof (getRedisClient_ok _ _ _ H) as (Hd & _ & _ & _ & Hc).
  split; [now apply getRedisClient_connected|].
  split; [exact Hc|]. split; [exact Hd|].
  revert H. unfold Qa.getRedisClient, Qa.mbind, Qa.redis_op, Qa.set_connected.
  destruct (Qa.connected w).
  - intros H. now injection H as <-.
  - destruct (Qa.redis_field config Qa.url []); [discriminate|].
    destruct (Qa.redis_fault env (Qa.ops w)); [discriminate|].
    intros H. now injection H as <-.
Qed.

Lemma getRedisClient_once_witness :
  let config := Sample.with_redis None None in
  let env := Sample.env_with (fun _ => 0%Z) Sample.failing_summarizer in
  let w1 := Qa.mkWorld (fun _ => None) true 1 0 0 [] in
  Qa.getRedisClient config env w1 = (Ok tt, w1)
  /\ Qa.ops w1 = 1.
Proof.
  cbv zeta.
  destruct (@getRedisClient_once (Sample.with_redis None None)
              (Sample.env_with (fun _ => 0%Z) Sample.failing_summarizer)
              (Sample.env_with (fun _ => 0%Z) Sample.failing_summarizer)
              Sample.empty_world
              (Qa.mkWorld (fun _ => None) true 1 0 0 []) eq_refl)
    as (H & _ & _ & Ho).
  split; [exact H|exact Ho].
Defined.

(** X2.  A failed [getRedisClient] leaves no client behind and does not
    touch the key space.  Without a configured URL it throws
    [Redis url is not configured.] and the world is as before; with a
    URL the error is the one of the connection attempt, and the next
    call connects again: it succeeds as soon as that attempt does. *)
Theorem getRedisClient_failure_retries
  (config : Qa.Config) (env : Qa.Env) (w w1 : Qa.World) (e : Error) :
  Qa.getRedisClient config env w = (Throw e, w1) ->
  Qa.connected w1 = false
  /\ Qa.db w1 = Qa.db w
  /\ (Qa.redis_field config Qa.url [] = [] ->
      e = Failure (lit "Redis url is not configured.") /\ w1 = w)
  /\ (Qa.redis_field config Qa.url [] <> [] ->
      Qa.redis_fault env (Qa.ops w) = Some e
      /\ forall env',
           Qa.redis_fault env' (Qa.ops w1) = None ->
           exists w2,
             Qa.getRedisClient config env' w1 = (Ok tt, w2)
             /\ Qa.connected w2 = true /\ Qa.ops w2 = S (Qa.ops w1)).
Proof.
  intros H.
  destruct (getRedisClient_throws _ _ _ H) as (_ & Hc1 & Hd & Hno & Hyes).
  repeat split; auto; try (now apply Hno); try (now apply Hyes).
  intros env' Hf.
  unfold Qa.getRedisClient, Qa.mbind, Qa.redis_op, Qa.set_connected.
  rewrite Hc1.
  destruct (Qa.redis_field config Qa.url []); [contradiction|].
  rewrite Hf. cbn. eexists. repeat split.
Qed.

Lemma getRedisClient_failure_retries_witness :
  let config := Sample.with_redis None None in
  let down :=
    Qa.Build_Env (fun n => if Nat.eqb n 0 then Some (External 3) else None)
      (fun _ => 0%Z) (fun _ => []) (fun _ => Ok JUndefined)
      Sample.failing_summarizer in
  let w1 := Qa.mkWorld (fun _ => None) false 1 0 0 [] in
  Qa.getRedisClient config down Sample.empty_world = (Throw (External 3), w1)
  /\ exists w2,
       Qa.getRedisClient config down w1 = (Ok tt, w2)
       /\ Qa.connected w2 = true /\ Qa.ops w2 = 2.
Proof.
  cbv zeta.
  set (down := Qa.Build_Env _ _ _ _ _).
  split; [reflexivity|].
  destruct (@getRedisClient_failure_retries (Sample.with_redis None None)
              down Sample.empty_world
              (Qa.mkWorld (fun _ => None) false 1 0 0 []) (External 3)
              eq_refl)
    as (_ & _ & _ & Hyes).
  destruct Hyes as [_ Hnext]; [discriminate|].
  exact (Hnext down eq_refl).
Defined.

(* ================================================================= *)
(** ** Who writes to the key space *)

Section FrameFacts.
Import Js Json LangChain Qa.

Variable config : Config.
Variable env : Env.

(** Writing an update to the channels draws identifiers and nothing
    else. *)
Lemma apply_update_frame state u w :
  let w1 := snd (apply_update env state u w) in
  db w1 = db w /\ connected w1 = connected w /\ ops w1 = ops w
  /\ ticks w1 = ticks w /\ warnings w1 = warnings w.
Proof.
  cbv zeta. unfold apply_update. destruct (u_messages u); [|cbn; tauto].
  destruct (messagesStateReducer _ _ _ _) as [[ms|e] n]; cbn; tauto.
Qed.

Lemma step_frame (node : GraphState -> M Update) state w :
  let w0 := snd (node state w) in
  let w1 := snd (step env node state w) in
  db w1 = db w0 /\ connected w1 = connected w0 /\ ops w1 = ops w0
  /\ ticks w1 = ticks w0 /\ warnings w1 = warnings w0.
Proof.
  cbv zeta. unfold step, mbind.
  destruct (node state w) as [[u|e] w0]; cbn [snd].
  - apply apply_update_frame.
  - tauto.
Qed.

Lemma loadMessagesFromRedis_frame tid w :
  let w1 := snd (loadMessagesFromRedis config env tid w) in
  db w1 = db w /\ ticks w1 = ticks w /\ uuids w1 = uuids w
  /\ warnings w1 = warnings w.
Proof.
  cbv zeta.
  destruct (loadMessagesFromRedis config env tid w) as [r w1] eqn:E.
  cbn [snd]. revert E.
  unfold loadMessagesFromRedis. unfold mbind at 1.
  pose proof (getRedisClient_frame config env w) as Hg. cbv zeta in Hg.
  destruct (getRedisClient config env w) as [[[]|e] w0]; cbn [snd] in *;
    [|intros E; injection E as _ <-; exact Hg].
  destruct Hg as (Hd & Ht & Hu & Hw).
  unfold mbind, client_get, redis_op, ret, lift.
  destruct (redis_fault env (ops w0));
    [intros E; injection E as _ <-; cbn; tauto|].
  cbn [db connected ops ticks uuids warnings].
  destruct (option_map value (db w0 (redisKeyForThread config tid)))
    as [[|c text]|]; try (intros E; injection E as _ <-; cbn; tauto).
  destruct (JSON_parse (c :: text)); intros E; injection E as _ <-; cbn; tauto.
Qed.

Lemma hydrate_frame state w :
  let w1 := snd (hydrate config env state w) in
  db w1 = db w /\ ticks w1 = ticks w /\ uuids w1 = uuids w.
Proof.
  cbv zeta.
  destruct (hydrate config env state w) as [r w1] eqn:E.
  cbn [snd]. revert E.
  unfold hydrate, try_catch, hydrate_body. unfold mbind at 1.
  pose proof (loadMessagesFromRedis_frame
                (coalesce (threadId state) (JStr (lit "default"))) w) as Hl.
  cbv zeta in Hl.
  destruct (loadMessagesFromRedis config env _ w) as [[[|m ms]|e] w0];
    cbn [snd] in *; unfold ret, mbind, console_warn;
    intros E; injection E as _ <-; cbn; tauto.
Qed.

(** The summarize node reads the clock and may log a warning. *)
Lemma summarize_frame state w :
  let w1 := snd (summarize config env state w) in
  db w1 = db w /\ connected w1 = connected w /\ ops w1 = ops w
  /\ uuids w1 = uuids w
  /\ (warnings w1 = warnings w
      \/ exists e, warnings w1 = warnings w ++ [(SummarizeStage, e)]).
Proof.
  cbv zeta.
  destruct (summarize config env state w) as [r w1] eqn:E.
  cbn [snd]. revert E.
  unfold summarize, try_catch, summarize_body.
  destruct (positive_finite _) as [limit|];
    [|intros E; injection E as _ <-; cbn; tauto].
  unfold mbind at 1.
  destruct (estimateRedisValueBytes_total env (messages state) w)
    as (s & _ & ->).
  destruct (Z.of_nat (byteLength s) <=? limit)%Z;
    [intros E; injection E as _ <-; cbn; tauto|].
  destruct (filter _ (messages state)) as [|m0 ms0];
    [intros E; injection E as _ <-; cbn; tauto|].
  unfold mbind, lift, ret, console_warn.
  destruct (beforeModel env _ _ _) as [[res|]|e];
    [|intros E; injection E as _ <-; cbn; tauto
     |intros E; injection E as _ <-; cbn; eauto 10].
  destruct (filter _ res); intros E; injection E as _ <-; cbn; tauto.
Qed.

Lemma ingest_frame state w : snd (ingest state w) = w.
Proof. reflexivity. Qed.

Lemma rag_frame state w : snd (rag env state w) = w.
Proof.
  unfold rag, mbind, lift, ret.
  now destruct (ragChain_invoke env (input state)).
Qed.

(** A save changes at most the entry under the thread's key, and a save
    that throws changes none. *)
Lemma saveMessagesToRedis_frame tid msgs w r w2 :
  saveMessagesToRedis config env tid msgs w = (r, w2) ->
  (forall k, k <> redisKeyForThread config tid -> db w2 k = db w k)
  /\ (forall e, r = Throw e -> db w2 = db w)
  /\ warnings w2 = warnings w /\ uuids w2 = uuids w.
Proof.
  unfold saveMessagesToRedis. unfold mbind at 1.
  pose proof (getRedisClient_frame config env w) as Hg. cbv zeta in Hg.
  destruct (getRedisClient config env w) as [[[]|e] w0]; cbn [snd fst] in *;
    destruct Hg as (Hd & _ & Hu & Hw);
    [|intros E; injection E as _ <-; repeat split; intros; congruence].
  unfold mbind at 1. unfold buildRedisPayload, mbind at 1, Date_now, ret.
  destruct (stringify_payload_some (now env (ticks w0)) msgs) as [s Hs].
  unfold JSON_stringify. rewrite Hs. unfold mbind, ret.
  cbn [db connected ops ticks uuids warnings].
  assert (Hset : forall ex,
    client_set env (redisKeyForThread config tid) s ex
      (mkWorld (db w0) (connected w0) (ops w0) (S (ticks w0))
         (uuids w0) (warnings w0)) = (r, w2) ->
    (forall k, k <> redisKeyForThread config tid -> db w2 k = db w k)
    /\ (forall e, r = Throw e -> db w2 = db w)
    /\ warnings w2 = warnings w /\ uuids w2 = uuids w).
  { intros ex. unfold client_set, redis_op.
    cbn [db connected ops ticks uuids warnings].
    destruct (redis_fault env (ops w0)); intros E; injection E as <- <-;
      cbn [db warnings uuids].
    - repeat split; intros; congruence.
    - repeat split; try congruence.
      intros k Hk. rewrite (jsstring_eqb_neq Hk). congruence. }
  destruct (redis_field config ttlSeconds (Finite 0)) as [z| | |];
    [destruct (0 <? z)%Z|..]; apply Hset.
Qed.

(** The entry a successful save leaves behind, and its expiry. *)
Lemma saveMessagesToRedis_entry tid msgs w w2 :
  saveMessagesToRedis config env tid msgs w = (Ok tt, w2) ->
  exists s,
    stringify (payload_at (now env (ticks w)) msgs) = Some s
    /\ db w2 (redisKeyForThread config tid)
       = Some (Build_Entry s
                 match redis_field config ttlSeconds (Finite 0) with
                 | Finite z => if (0 <? z)%Z then Some z else None
                 | _ => None
                 end).
Proof.
  destruct (stringify_payload_some (now env (ticks w)) msgs) as [s Hs].
  intros H. exists s. split; [exact Hs|].
  assert (Hset : forall w1 ex,
    client_set env (redisKeyForThread config tid) s ex w1 = (Ok tt, w2) ->
    db w2 (redisKeyForThread config tid) = Some (Build_Entry s ex)).
  { intros w1 ex. unfold client_set, redis_op.
    cbn [db connected ops ticks uuids warnings].
    destruct (redis_fault env (ops w1)); [discriminate|].
    intros E. injection E as <-. cbn.
    now rewrite jsstring_eqb_refl. }
  revert H. unfold saveMessagesToRedis. unfold mbind at 1.
  destruct (getRedisClient config env w) as [[[]|e] w1] eqn:Eg; [|discriminate].
  apply getRedisClient_ok in Eg as (_ & Ht & _ & _ & _).
  unfold mbind at 1. unfold buildRedisPayload, mbind at 1, Date_now, ret.
  rewrite Ht. unfold JSON_stringify. rewrite Hs.
  unfold mbind, ret.
  destruct (redis_field config ttlSeconds (Finite 0)) as [z| | |];
    [destruct (0 <? z)%Z|..]; intros H; eapply Hset; exact H.
Qed.

End FrameFacts.

(** X3.  Of the five nodes only persist writes to the key space: the
    hydrate, ingest, rag and summarize steps leave every key as it was,
    whatever they return or throw. *)
Theorem only_persist_writes
  (config : Qa.Config) (env : Qa.Env) (state : Qa.GraphState) (w : Qa.World) :
  Qa.db (snd (Qa.step env (Qa.hydrate config env) state w)) = Qa.db w
  /\ Qa.db (snd (Qa.step env Qa.ingest state w)) = Qa.db w
  /\ Qa.db (snd (Qa.step env (Qa.rag env) state w)) = Qa.db w
  /\ Qa.db (snd (Qa.step env (Qa.summarize config env) state w)) = Qa.db w.
Proof.
  repeat split.
  - destruct (step_frame env (Qa.hydrate config env) state w) as [-> _].
    apply hydrate_frame.
  - now destruct (step_frame env Qa.ingest state w) as [-> _].
  - destruct (step_frame env (Qa.rag env) state w) as [-> _].
    now rewrite rag_frame.
  - destruct (step_frame env (Qa.summarize config env) state w) as [-> _].
    apply summarize_frame.
Qed.

(** X4.  A successful save stores the serialised payload under the key
    of its thread, with an expiry exactly when [ttlSeconds] is a finite
    positive number, and changes no other key. *)
Theorem saveMessagesToRedis_writes_one_key
  (config : Qa.Config) (env : Qa.Env) (tid : jsval)
  (msgs : list LangChain.BaseMessage) (w w2 : Qa.World) :
  Qa.saveMessagesToRedis config env tid msgs w = (Ok tt, w2) ->
  (exists s,
     Json.stringify (Qa.payload_at (Qa.now env (Qa.ticks w)) msgs) = Some s
     /\ Qa.db w2 (Qa.redisKeyForThread config tid)
        = Some (Qa.Build_Entry s
                  match Qa.redis_field config Qa.ttlSeconds (Qa.Finite 0) with
                  | Qa.Finite z => if (0 <? z)%Z then Some z else None
                  | _ => None
                  end))
  /\ forall k, k <> Qa.redisKeyForThread config tid -> Qa.db w2 k = Qa.db w k.
Proof.
  intros H. split; [now apply saveMessagesToRedis_entry|].
  now destruct (@saveMessagesToRedis_frame _ _ _ _ _ _ _ H) as [Hk _].
Qed.

Lemma saveMessagesToRedis_writes_one_key_witness :
  let config :=
    Qa.Build_Config
      (Some (Qa.Build_RedisConfig (Some (lit "redis://127.0.0.1:6379")) None
               (Some (Qa.Finite 60)) None None None)) in
  let env := Sample.env_with (fun _ => 5%Z) Sample.failing_summarizer in
  let w := Sample.world_with (lit "rag:mem:t2") (lit "{}") in
  let w2 := snd (Qa.saveMessagesToRedis config env (JStr (lit "t1"))
                   Sample.hello w) in
  option_map Qa.expire (Qa.db w2 (lit "rag:mem:t1")) = Some (Some 60%Z)
  /\ Qa.db w2 (lit "rag:mem:t2") = Some (Qa.Build_Entry (lit "{}") None).
Proof.
  cbv zeta.
  set (config := Qa.Build_Config _).
  set (env := Sample.env_with (fun _ => 5%Z) Sample.failing_summarizer).
  set (w := Sample.world_with (lit "rag:mem:t2") (lit "{}")).
  destruct (@saveMessagesToRedis_writes_one_key config env (JStr (lit "t1"))
              Sample.hello w
              (snd (Qa.saveMessagesToRedis config env (JStr (lit "t1"))
                      Sample.hello w)))
    as [(s & _ & Hs) Hk].
  - vm_compute. reflexivity.
  - split.
    + change (Qa.redisKeyForThread config (JStr (lit "t1")))
        with (lit "rag:mem:t1") in Hs.
      rewrite Hs. reflexivity.
    + rewrite (Hk (lit "rag:mem:t2")); [reflexivity|discriminate].
Defined.

(** X5.  A save that throws, at the connection or at the SET, leaves
    the whole key space as it was: the previous record of the thread is
    still there. *)
Theorem saveMessagesToRedis_failure_keeps_record
  (config : Qa.Config) (env : Qa.Env) (tid : jsval)
  (msgs : list LangChain.BaseMessage) (w w2 : Qa.World) (e : Error) :
  Qa.saveMessagesToRedis config env tid msgs w = (Throw e, w2) ->
  Qa.db w2 = Qa.db w.
Proof.
  intros H.
  destruct (@saveMessagesToRedis_frame _ _ _ _ _ _ _ H) as (_ & Hf & _).
  now apply (Hf e).
Qed.

Lemma saveMessagesToRedis_failure_keeps_record_witness :
  let config := Sample.with_redis None None in
  let env :=
    Qa.Build_Env (fun _ => Some (External 3)) (fun _ => 0%Z) (fun _ => [])
      (fun _ => Ok JUndefined) Sample.failing_summarizer in
  let w := Sample.world_with (lit "rag:mem:t1") (lit "{}") in
  Qa.db (snd (Qa.saveMessagesToRedis config env (JStr (lit "t1"))
                Sample.hello w))
  = Qa.db w.
Proof.
  cbv zeta.
  apply (@saveMessagesToRedis_failure_keeps_record
           (Sample.with_redis None None)
           (Qa.Build_Env (fun _ => Some (External 3)) (fun _ => 0%Z)
              (fun _ => []) (fun _ => Ok JUndefined)
              Sample.failing_summarizer)
           (JStr (lit "t1")) Sample.hello
           (Sample.world_with (lit "rag:mem:t1") (lit "{}")) _ (External 3)).
  reflexivity.
Defined.

(** X6.  Threads are isolated: for two distinct non-empty string thread
    identifiers, persisting the history of one leaves the record of the
    other untouched, whatever the outcome. *)
Theorem persist_other_thread_untouched
  (config : Qa.Config) (env : Qa.Env) (a b : jsstring)
  (state : Qa.GraphState) (w : Qa.World) :
  a <> [] -> b <> [] -> a <> b ->
  Qa.threadId state = JStr a ->
  let w1 := snd (Qa.step env (Qa.persist config env) state w) in
  Qa.db w1 (Qa.redisKeyForThread config (JStr b))
  = Qa.db w (Qa.redisKeyForThread config (JStr b)).
Proof.
  intros Ha Hb Hab Ht w1. subst w1.
  destruct (step_frame env (Qa.persist config env) state w) as [-> _].
  unfold Qa.persist, Qa.mbind, Qa.try_catch, Qa.ret, Qa.console_warn.
  rewrite Ht. change (Js.coalesce (JStr a) (JStr (lit "default"))) with (JStr a).
  assert (Hne : Qa.redisKeyForThread config (JStr b)
                <> Qa.redisKeyForThread config (JStr a)).
  { rewrite !redisKeyForThread_string by assumption.
    intros E. apply app_inv_head in E. congruence. }
  destruct (Qa.saveMessagesToRedis config env (JStr a) (Qa.messages state) w)
    as [r w0] eqn:Es.
  destruct (@saveMessagesToRedis_frame _ _ _ _ _ _ _ Es) as (Hk & _).
  specialize (Hk _ Hne).
  destruct r as [[]|e]; exact Hk.
Qed.

Lemma persist_other_thread_untouched_witness :
  let config := Sample.with_redis None None in
  let env := Sample.env_with (fun _ => 5%Z) Sample.failing_summarizer in
  let w := Sample.world_with (lit "rag:mem:t2") (lit "{}") in
  let state := Qa.mkState Sample.hello (JStr (lit "t1")) (lit "q")
                 JUndefined JUndefined in
  let w1 := snd (Qa.step env (Qa.persist config env) state w) in
  Qa.db w1 (lit "rag:mem:t2") = Some (Qa.Build_Entry (lit "{}") None)
  /\ Qa.db w1 (lit "rag:mem:t1") <> None.
Proof.
  cbv zeta. split.
  - apply (@persist_other_thread_untouched (Sample.with_redis None None)
             (Sample.env_with (fun _ => 5%Z) Sample.failing_summarizer)
             (lit "t1") (lit "t2")
             (Qa.mkState Sample.hello (JStr (lit "t1")) (lit "q")
                JUndefined JUndefined)
             (Sample.world_with (lit "rag:mem:t2") (lit "{}")));
      [discriminate|discriminate|discriminate|reflexivity].
  - vm_compute. discriminate.
Defined.

(* ================================================================= *)
(** ** A turn without a Redis URL *)

Section TurnWithoutRedis.
Import Js Json LangChain Qa.

Variable config : Config.
Variable env : Env.

Lemma same_redis_refl w : same_redis w w.
Proof. unfold same_redis. tauto. Qed.

Lemma same_redis_trans w1 w2 w3 :
  same_redis w1 w2 -> same_redis w2 w3 -> same_redis w1 w3.
Proof. unfold same_redis. intuition congruence. Qed.

Lemma step_world (node : GraphState -> M Update) state w r w' :
  step env node state w = (r, w') ->
  same_redis (snd (node state w)) w'
  /\ warnings w' = warnings (snd (node state w)).
Proof.
  intros H. pose proof (step_frame env node state w) as F.
  cbv zeta in F. rewrite H in F. cbn [snd] in F.
  unfold same_redis. tauto.
Qed.

Hypothesis no_url : redis_field config url [] = [].

Lemma hydrate_no_url state w :
  connected w = false ->
  step env (hydrate config env) state w
  = (Ok state,
     mkWorld (db w) (connected w) (ops w) (ticks w) (uuids w)
       (warnings w ++ [(HydrateStage, not_configured)])).
Proof.
  intros Hc. unfold step, mbind.
  rewrite (@hydrate_catches config env state w not_configured w).
  - now rewrite apply_no_update.
  - apply hydrate_body_throws. unfold loadMessagesFromRedis, mbind.
    now rewrite getRedisClient_no_url.
Qed.

Lemma persist_no_url state w :
  connected w = false ->
  step env (persist config env) state w
  = (Ok state,
     mkWorld (db w) (connected w) (ops w) (ticks w) (uuids w)
       (warnings w ++ [(PersistStage, not_configured)])).
Proof.
  intros Hc. unfold step, mbind.
  rewrite (@persist_catches config env state w not_configured w).
  - now rewrite apply_no_update.
  - unfold saveMessagesToRedis, mbind.
    now rewrite getRedisClient_no_url.
Qed.

Lemma run_nodes_no_url state w res :
  connected w = false ->
  ragChain_invoke env (input state) = Ok res ->
  exists state' w' mid,
    run_nodes config env state w = (Ok state', w')
    /\ same_redis w w'
    /\ warnings w'
       = warnings w ++ [(HydrateStage, not_configured)] ++ mid
           ++ [(PersistStage, not_configured)]
    /\ (mid = [] \/ exists e, mid = [(SummarizeStage, e)]).
Proof.
  intros Hc Hres. unfold run_nodes.
  rewrite (@mbind_ok _ _ _ _ _ _ _ (@hydrate_no_url state w Hc)).
  set (w1 := mkWorld _ _ _ _ _ _).
  destruct (step_ingest env state w1) as (s2 & w2 & H2 & _ & Hi2 & _).
  rewrite (@mbind_ok _ _ _ _ _ _ _ H2).
  destruct (step_world _ _ _ H2) as [R2 W2]. cbn [ingest ret snd] in R2, W2.
  pose proof (step_rag env s2 w2) as Hrag. rewrite Hi2, Hres in Hrag.
  destruct Hrag as (s3 & w3 & H3 & _).
  rewrite (@mbind_ok _ _ _ _ _ _ _ H3).
  destruct (step_world _ _ _ H3) as [R3 W3]. rewrite rag_frame in R3, W3.
  destruct (step_guarded env (summarize config env) s3 w3
              (summarize_returns config env s3 w3)) as (s4 & w4 & H4 & _).
  rewrite (@mbind_ok _ _ _ _ _ _ _ H4).
  destruct (step_world _ _ _ H4) as [R4 W4].
  destruct (summarize_frame config env s3 w3) as (Sd & Sc & So & _ & Sw).
  assert (Hc4 : connected w4 = false).
  { destruct R2 as (_ & _ & C2). destruct R3 as (_ & _ & C3).
    destruct R4 as (_ & _ & C4). rewrite C4, Sc, C3, C2. exact Hc. }
  rewrite (@persist_no_url s4 w4 Hc4).
  assert (HR : same_redis w w4).
  { unfold same_redis in *. subst w1. cbn [db ops connected] in *.
    destruct R2 as (D2 & O2 & C2). destruct R3 as (D3 & O3 & C3).
    destruct R4 as (D4 & O4 & C4).
    repeat split; congruence. }
  assert (W13 : warnings w3 = warnings w ++ [(HydrateStage, not_configured)])
    by (rewrite W3, W2; reflexivity).
  exists s4, (mkWorld (db w4) (connected w4) (ops w4) (ticks w4) (uuids w4)
                (warnings w4 ++ [(PersistStage, not_configured)])).
  destruct Sw as [Sw|[e Sw]].
  - exists []. split; [reflexivity|]. split; [exact HR|].
    split; [|now left]. cbn [warnings app].
    rewrite W4, Sw, W13. now rewrite <- app_assoc.
  - exists [(SummarizeStage, e)]. split; [reflexivity|]. split; [exact HR|].
    split; [|right; now exists e]. cbn [warnings app].
    rewrite W4, Sw, W13. now rewrite <- !app_assoc.
Qed.

End TurnWithoutRedis.

(** X7.  Without a Redis URL in the configuration (the configuration
    object of the repository has no [redis] section at all) a turn
    still answers, as a turn without memory: no Redis operation is
    attempted, the key space is untouched, no client is kept, and the
    turn logs the warning [Redis url is not configured.] twice, first
    from hydrate and last from persist, with at most one warning of
    summarize in between. *)
Theorem ask_without_redis_url
  (config : Qa.Config) (env : Qa.Env) (state : Qa.GraphState)
  (question : jsstring) (res : jsval) (w : Qa.World) :
  Qa.redis_field config Qa.url [] = [] ->
  Qa.connected w = false ->
  Forall (fun m => LangChain.kind m <> LangChain.Remove) (Qa.messages state) ->
  Qa.ragChain_invoke env question = Ok res ->
  exists a w' mid,
    Qa.ask config env state question w = (Ok a, w')
    /\ Qa.db w' = Qa.db w /\ Qa.ops w' = Qa.ops w /\ Qa.connected w' = false
    /\ Qa.warnings w'
       = Qa.warnings w
           ++ [(Qa.HydrateStage, Failure (lit "Redis url is not configured."))]
           ++ mid
           ++ [(Qa.PersistStage, Failure (lit "Redis url is not configured."))]
    /\ (mid = [] \/ exists e, mid = [(Qa.SummarizeStage, e)]).
Proof.
  intros Hu Hc Hm Hres.
  destruct (@reducer_total (Qa.uuid env) [] (Qa.messages state) (Qa.uuids w) Hm)
    as [ms Hms].
  pose proof (apply_messages_update env
                (Qa.mkState [] (Qa.threadId state) question (Qa.answer state)
                   (Qa.context state))
                (Qa.messages state) w) as Hinit.
  cbn [Qa.messages Qa.threadId Qa.input Qa.answer Qa.context] in Hinit.
  rewrite Hms in Hinit.
  set (w0 := Qa.mkWorld _ _ _ _ _ _) in Hinit.
  set (s0 := Qa.mkState ms _ _ _ _) in Hinit.
  destruct (@run_nodes_no_url config env Hu s0 w0 res Hc Hres)
    as (s' & w' & mid & Hrun & (Hd & Ho & Hcc) & Hw & Hmid).
  unfold Qa.ask, Qa.invoke.
  cbn [Qa.messages Qa.threadId Qa.input Qa.answer Qa.context].
  assert (Hinv : Qa.mbind
            (Qa.apply_update env
               (Qa.mkState [] (Qa.threadId state) question (Qa.answer state)
                  (Qa.context state))
               (Qa.messages_update (Qa.messages state)))
            (fun s1 => Qa.run_nodes config env s1) w = (Ok s', w')).
  { now rewrite (@mbind_ok _ _ _ _ _ _ _ Hinit). }
  rewrite (@mbind_ok _ _ _ _ _ _ _ Hinv).
  exists (Qa.mkAnswer s'
            (Js.to_string (Js.coalesce (Qa.answer s') (JStr [])))
            (Js.coalesce (Qa.context s') (JArr []))), w', mid.
  split; [reflexivity|].
  subst w0. cbn [Qa.db Qa.ops Qa.connected Qa.warnings] in Hd, Ho, Hcc, Hw.
  unfold not_configured in Hw.
  repeat split; try assumption. congruence.
Qed.

Lemma ask_without_redis_url_witness :
  let env := Sample.env_with (fun _ => 0%Z) Sample.failing_summarizer in
  let state := Qa.mkState [] (JStr (lit "t1")) [] JUndefined JUndefined in
  exists a w' mid,
    Qa.ask Sample.no_redis env state (lit "q") Sample.empty_world = (Ok a, w')
    /\ Qa.db w' = Qa.db Sample.empty_world
    /\ Qa.ops w' = 0 /\ Qa.connected w' = false
    /\ Qa.warnings w'
       = [(Qa.HydrateStage, Failure (lit "Redis url is not configured."))]
           ++ mid
           ++ [(Qa.PersistStage, Failure (lit "Redis url is not configured."))]
    /\ (mid = [] \/ exists e, mid = [(Qa.SummarizeStage, e)]).
Proof.
  cbv zeta.
  apply (@ask_without_redis_url Sample.no_redis
           (Sample.env_with (fun _ => 0%Z) Sample.failing_summarizer)
           (Qa.mkState [] (JStr (lit "t1")) [] JUndefined JUndefined)
           (lit "q") (JObj [(lit "answer", JStr (lit "42"))])
           Sample.empty_world eq_refl eq_refl (Forall_nil _) eq_refl).
Defined.

(* ================================================================= *)
(** ** From one turn to the next *)

Section Memory.
Import Js Json LangChain Qa.

Variable config : Config.
Variable env : Env.

(** The stored forms of messages of the data model are read back with
    the same roles and the sanitised contents. *)
Lemma roundtrip_messages_sanitized ms :
  Forall (fun m => wf_message m /\ spec_role (kind m)
                   /\ is_string (content m) = true) ms ->
  exists ms',
    mapStoredMessagesToChatMessages
      (map (normal_element normal) (mapMessagesForStorage ms)) = Ok ms'
    /\ map kind ms' = map kind ms
    /\ map content ms' = map (fun m => stripThinkFromContent (content m)) ms.
Proof.
  induction 1 as [|m ms (Hwf & Hrole & Hs) _ (ms' & E & Hk & Hcs)].
  - exists []. repeat split; reflexivity.
  - destruct (content m) as [| | | |s| |] eqn:Hc; try discriminate.
    destruct (@roundtrip_message m s Hwf Hrole Hc) as (m' & Em & Hk' & Hc').
    exists (m' :: ms').
    unfold mapMessagesForStorage, mapChatMessagesToStoredMessages in *.
    cbn [map mapStoredMessagesToChatMessages].
    rewrite Em. cbn [bind]. rewrite E. cbn [bind].
    repeat split; [congruence|].
    rewrite Hc', Hcs, Hc. reflexivity.
Qed.

(** With Redis answering and a URL or a client at hand, a save goes
    through. *)
Lemma saveMessagesToRedis_succeeds tid msgs w :
  (forall n, redis_fault env n = None) ->
  connected w = true \/ redis_field config url [] <> [] ->
  exists w1, saveMessagesToRedis config env tid msgs w = (Ok tt, w1).
Proof.
  intros Hf Hc.
  assert (Hg : exists w0, getRedisClient config env w = (Ok tt, w0)).
  { unfold getRedisClient, mbind, redis_op, set_connected.
    destruct (connected w); [eauto|].
    destruct Hc as [Hc|Hc]; [discriminate|].
    destruct (redis_field config url []); [contradiction|].
    rewrite Hf. eauto. }
  destruct Hg as [w0 Hg].
  unfold saveMessagesToRedis.
  rewrite (@mbind_ok _ _ _ _ _ _ _ Hg).
  unfold mbind at 1. unfold buildRedisPayload, mbind at 1, Date_now, ret.
  destruct (stringify_payload_some (now env (ticks w0)) msgs) as [s Hs].
  unfold JSON_stringify. rewrite Hs. unfold mbind, ret.
  assert (Hset : forall ex w',
    exists w1, client_set env (redisKeyForThread config tid) s ex w'
               = (Ok tt, w1)).
  { intros ex w'. unfold client_set, redis_op. rewrite Hf. eauto. }
  destruct (redis_field config ttlSeconds (Finite 0)) as [z| | |];
    [destruct (0 <? z)%Z|..]; apply Hset.
Qed.

(** What a load finds after a successful save of the same thread. *)
Lemma load_after_save tid msgs w w1 :
  Forall (fun m => wf_message m /\ spec_role (kind m)
                   /\ is_string (content m) = true) msgs ->
  saveMessagesToRedis config env tid msgs w = (Ok tt, w1) ->
  redis_fault env (ops w1) = None ->
  exists loaded w2,
    loadMessagesFromRedis config env tid w1 = (Ok loaded, w2)
    /\ map kind loaded = map kind msgs
    /\ map content loaded
       = map (fun m => stripThinkFromContent (content m)) msgs.
Proof.
  intros Hm Hsave Hget.
  apply saveMessagesToRedis_ok in Hsave as (s & ex & Hs & Hdb & Hconn).
  destruct (@roundtrip_messages_sanitized msgs Hm) as (loaded & Hl & Hk & Hc).
  exists loaded.
  rewrite (@loadMessagesFromRedis_connected config env tid w1 Hconn Hget).
  rewrite Hdb. cbn [option_map value].
  rewrite (@JSON_parse_stringify _ _ Hs), payload_messages.
  destruct (@stringify_head _ _ Hs) as (c & t' & -> & _).
  rewrite Hl. eauto.
Qed.

(** The hydrate step on a non-empty restored history. *)
Lemma hydrate_step_restored state w restored w1 :
  loadMessagesFromRedis config env
    (coalesce (threadId state) (JStr (lit "default"))) w = (Ok restored, w1) ->
  restored <> [] ->
  exists state' w2,
    step env (hydrate config env) state w = (Ok state', w2)
    /\ map kind (messages state') = map kind restored
    /\ map content (messages state') = map content restored
    /\ threadId state' = threadId state /\ input state' = input state.
Proof.
  intros Hload Hne.
  assert (Hh : hydrate config env state w
               = (Ok (messages_update
                        (RemoveMessage REMOVE_ALL_MESSAGES :: restored)), w1)).
  { unfold hydrate, try_catch, hydrate_body, mbind.
    rewrite Hload. destruct restored; [contradiction|reflexivity]. }
  unfold step, mbind. rewrite Hh, apply_messages_update.
  destruct (reducer_remove_all (uuid env) (messages state) restored (uuids w1))
    as [rest [Hr Hrest]].
  rewrite Hr. cbn [fst snd].
  specialize (Hrest (loadMessagesFromRedis_kinds _ _ _ _ Hload)).
  do 2 eexists. split; [reflexivity|]. cbn [messages threadId input].
  assert (HS : Forall2 same_but_id rest restored)
    by (rewrite Hrest; apply ensure_ids_same).
  repeat split; auto using Forall2_same_kinds, Forall2_same_contents.
Qed.

End Memory.

(** X8.  What a save stores is the sanitised history: for messages of
    the data model (role human, assistant or system, content a text) a
    successful save followed by a load whose GET goes through gives
    back the same roles in the same order, and each content with the
    matches of the reasoning-markup pattern removed. *)
Theorem save_then_load_sanitized
  (config : Qa.Config) (env : Qa.Env) (tid : jsval)
  (msgs : list LangChain.BaseMessage) (w w1 : Qa.World) :
  Forall (fun m => LangChain.wf_message m
                   /\ LangChain.spec_role (LangChain.kind m)
                   /\ Js.is_string (LangChain.content m) = true) msgs ->
  Qa.saveMessagesToRedis config env tid msgs w = (Ok tt, w1) ->
  Qa.redis_fault env (Qa.ops w1) = None ->
  exists loaded,
    fst (Qa.loadMessagesFromRedis config env tid w1) = Ok loaded
    /\ map LangChain.kind loaded = map LangChain.kind msgs
    /\ map LangChain.content loaded
       = map (fun m => Qa.stripThinkFromContent (LangChain.content m)) msgs.
Proof.
  intros Hm Hsave Hget.
  destruct (@load_after_save config env tid msgs w w1 Hm Hsave Hget)
    as (loaded & w2 & Hl & Hk & Hc).
  exists loaded. now rewrite Hl.
Qed.

Lemma save_then_load_sanitized_witness :
  let config := Sample.with_redis None None in
  let env := Sample.env_with (fun _ => 1700000000000%Z)
               Sample.failing_summarizer in
  let msgs := [LangChain.text_message LangChain.Human (lit "capital?");
               LangChain.text_message LangChain.AI
                 (lit "<think>France...</think> Paris")] in
  let w1 := snd (Qa.saveMessagesToRedis config env (JStr (lit "t1")) msgs
                   Sample.empty_world) in
  exists loaded,
    fst (Qa.loadMessagesFromRedis config env (JStr (lit "t1")) w1) = Ok loaded
    /\ map LangChain.kind loaded = [LangChain.Human; LangChain.AI]
    /\ map LangChain.content loaded
       = [JStr (lit "capital?"); JStr (lit "Paris")].
Proof.
  cbv zeta.
  apply (@save_then_load_sanitized (Sample.with_redis None None)
           (Sample.env_with (fun _ => 1700000000000%Z)
              Sample.failing_summarizer)
           (JStr (lit "t1"))
           [LangChain.text_message LangChain.Human (lit "capital?");
            LangChain.text_message LangChain.AI
              (lit "<think>France...</think> Paris")]
           Sample.empty_world).
  - repeat constructor; cbn; intuition discriminate.
  - vm_compute. reflexivity.
  - reflexivity.
Defined.

(** X9.  Memory from one turn to the next: with Redis answering, after
    the persist step has stored a non-empty history of the data model,
    the hydrate step of a later turn on the same thread replaces
    whatever history the caller passes by the stored one: the same
    roles in the same order, each content sanitised. *)
Theorem persist_then_hydrate
  (config : Qa.Config) (env : Qa.Env) (state caller : Qa.GraphState)
  (w : Qa.World) :
  (forall n, Qa.redis_fault env n = None) ->
  Qa.redis_field config Qa.url [] <> [] ->
  Qa.messages state <> [] ->
  Forall (fun m => LangChain.wf_message m
                   /\ LangChain.spec_role (LangChain.kind m)
                   /\ Js.is_string (LangChain.content m) = true)
    (Qa.messages state) ->
  Qa.threadId caller = Qa.threadId state ->
  exists w1 state' w2,
    Qa.step env (Qa.persist config env) state w = (Ok state, w1)
    /\ Qa.step env (Qa.hydrate config env) caller w1 = (Ok state', w2)
    /\ map LangChain.kind (Qa.messages state')
       = map LangChain.kind (Qa.messages state)
    /\ map LangChain.content (Qa.messages state')
       = map (fun m => Qa.stripThinkFromContent (LangChain.content m))
           (Qa.messages state).
Proof.
  intros Hf Hu Hne Hm Ht.
  set (tid := Js.coalesce (Qa.threadId state) (JStr (lit "default"))).
  destruct (@saveMessagesToRedis_succeeds config env tid (Qa.messages state) w
              Hf (or_intror Hu)) as [w1 Hsave].
  destruct (@load_after_save config env tid (Qa.messages state) w w1 Hm Hsave
              (Hf _)) as (loaded & w2 & Hl & Hk & Hc).
  assert (Hp : Qa.step env (Qa.persist config env) state w = (Ok state, w1)).
  { unfold Qa.step, Qa.mbind at 1, Qa.persist, Qa.mbind, Qa.try_catch, Qa.ret.
    fold tid. rewrite Hsave. apply apply_no_update. }
  assert (Hne' : loaded <> []).
  { intros ->. destruct (Qa.messages state); [contradiction|discriminate]. }
  unfold tid in Hl. rewrite <- Ht in Hl.
  destruct (@hydrate_step_restored config env caller w1 loaded w2 Hl Hne')
    as (s' & w3 & Hh & Hk' & Hc' & _).
  exists w1, s', w3. repeat split; auto; congruence.
Qed.

Lemma persist_then_hydrate_witness :
  let config := Sample.with_redis None None in
  let env := Sample.env_with (fun _ => 1700000000000%Z)
               Sample.failing_summarizer in
  let state :=
    Qa.mkState
      [LangChain.text_message LangChain.Human (lit "capital?");
       LangChain.text_message LangChain.AI
         (lit "<think>France...</think> Paris")]
      (JStr (lit "t1")) (lit "capital?") JUndefined JUndefined in
  let caller := Qa.mkState Sample.hello (JStr (lit "t1")) (lit "next")
                  JUndefined JUndefined in
  exists w1 state' w2,
    Qa.step env (Qa.persist config env) state Sample.empty_world
      = (Ok state, w1)
    /\ Qa.step env (Qa.hydrate config env) caller w1 = (Ok state', w2)
    /\ map LangChain.kind (Qa.messages state')
       = [LangChain.Human; LangChain.AI]
    /\ map LangChain.content (Qa.messages state')
       = [JStr (lit "capital?"); JStr (lit "Paris")].
Proof.
  cbv zeta.
  apply (@persist_then_hydrate (Sample.with_redis None None)
           (Sample.env_with (fun _ => 1700000000000%Z)
              Sample.failing_summarizer)
           (Qa.mkState
              [LangChain.text_message LangChain.Human (lit "capital?");
               LangChain.text_message LangChain.AI
                 (lit "<think>France...</think> Paris")]
              (JStr (lit "t1")) (lit "capital?") JUndefined JUndefined)
           (Qa.mkState Sample.hello (JStr (lit "t1")) (lit "next")
              JUndefined JUndefined)
           Sample.empty_world).
  - reflexivity.
  - discriminate.
  - discriminate.
  - repeat constructor; cbn; intuition discriminate.
  - reflexivity.
Defined.

(* ================================================================= *)
(** ** Appending one message through the reducer *)

Section ReducerAppend.
Import Js LangChain.

Variable uuid : nat -> jsstring.

Lemma message_id_set_id u m : message_id (set_id u m) = JStr u.
Proof. unfold message_id, set_id. cbn [lc_kwargs]. apply obj_get_set_same. Qed.

Lemma kind_set_id u m : kind (set_id u m) = kind m.
Proof. reflexivity. Qed.

(** Messages that have identifiers keep them. *)
Lemma ensure_ids_noop ms : forall n,
  Forall (fun m => nullish (message_id m) = false) ms ->
  ensure_ids uuid n ms = (ms, n).
Proof.
  induction ms as [|m ms IH]; intros n H; [reflexivity|].
  inversion H as [|? ? Hm Hms]; subst. cbn [ensure_ids].
  now rewrite Hm, IH.
Qed.

Lemma index_of_index_left id ms : forall i idx,
  Forall (fun m => same_id id (message_id m) = false) ms ->
  index_of id (index_left i ms idx) = index_of id idx.
Proof.
  induction ms as [|m ms IH]; intros i idx H; [reflexivity|].
  inversion H as [|? ? Hm Hms]; subst. cbn [index_left].
  rewrite IH by assumption. cbn [index_of]. now rewrite Hm.
Qed.

Lemma filter_none_removed ms :
  filter (fun m => negb (id_in (message_id m) [])) ms = ms.
Proof.
  induction ms as [|m ms IH]; [reflexivity|].
  cbn [filter]. unfold id_in at 1. cbn [existsb negb]. now f_equal.
Qed.

(** A message without identifier, merged into a history whose messages
    all have identifiers other than the fresh one, goes last. *)
Lemma reducer_append n left m :
  Forall (fun x => nullish (message_id x) = false) left ->
  Forall (fun x => same_id (JStr (uuid n)) (message_id x) = false) left ->
  nullish (message_id m) = true ->
  kind m <> Remove ->
  messagesStateReducer uuid n left [m]
  = (Ok (left ++ [set_id (uuid n) m]), S n).
Proof.
  intros Hids Hfresh Hm Hk. unfold messagesStateReducer.
  rewrite (@ensure_ids_noop _ n Hids). cbn [ensure_ids]. rewrite Hm.
  assert (Hr : RemoveMessage_isInstance (set_id (uuid n) m) = false).
  { unfold RemoveMessage_isInstance. rewrite kind_set_id.
    now destruct (kind m). }
  assert (Ha : is_remove_all (set_id (uuid n) m) = false).
  { unfold is_remove_all. now rewrite Hr. }
  cbn [after_remove_all]. rewrite Ha.
  cbn [merge_right]. rewrite message_id_set_id.
  rewrite (@index_of_index_left _ _ 0 [] Hfresh). cbn [index_of].
  rewrite Hr. now rewrite filter_none_removed.
Qed.

End ReducerAppend.

(* ================================================================= *)
(** ** A first turn on an empty thread *)

Section FirstTurn.
Import Js Json LangChain Qa.

Variable config : Config.
Variable env : Env.

Lemma getRedisClient_succeeds w :
  redis_fault env (ops w) = None ->
  connected w = true \/ redis_field config url [] <> [] ->
  exists w0, getRedisClient config env w = (Ok tt, w0).
Proof.
  intros Hf Hc.
  unfold getRedisClient, mbind, redis_op, set_connected.
  destruct (connected w); [eauto|].
  destruct Hc as [Hc|Hc]; [discriminate|].
  destruct (redis_field config url []); [contradiction|].
  rewrite Hf. eauto.
Qed.

Lemma step_ok (node : GraphState -> M Update) state w u w1 r :
  node state w = (Ok u, w1) ->
  apply_update env state u w1 = r ->
  step env node state w = r.
Proof. intros H <-. unfold step, mbind. now rewrite H. Qed.

Lemma loadMessagesFromRedis_ok_connected tid w restored w1 :
  loadMessagesFromRedis config env tid w = (Ok restored, w1) ->
  connected w1 = true.
Proof.
  unfold loadMessagesFromRedis. unfold mbind at 1.
  destruct (getRedisClient config env w) as [[[]|e] w0] eqn:Eg; [|discriminate].
  apply getRedisClient_ok in Eg as (_ & _ & _ & _ & Hc).
  unfold mbind, client_get, redis_op, ret, lift.
  destruct (redis_fault env (ops w0)); [discriminate|].
  cbn [db connected ops ticks uuids warnings].
  destruct (option_map value (db w0 (redisKeyForThread config tid)))
    as [[|c text]|]; try (intros H; injection H as _ <-; exact Hc).
  destruct (JSON_parse (c :: text)); [|discriminate].
  intros H. injection H as _ <-. exact Hc.
Qed.

(** The hydrate step on a caller without history: the state holds what
    the store held. *)
Lemma step_hydrate_restored tid question a0 c0 w restored w1 :
  loadMessagesFromRedis config env (coalesce tid (JStr (lit "default"))) w
    = (Ok restored, w1) ->
  Forall (fun x => nullish (message_id x) = false) restored ->
  exists w2,
    step env (hydrate config env) (mkState [] tid question a0 c0) w
    = (Ok (mkState restored tid question a0 c0), w2)
    /\ db w2 = db w /\ connected w2 = true /\ ticks w2 = ticks w
    /\ uuids w2 = uuids w /\ warnings w2 = warnings w.
Proof.
  intros Hload Hids.
  pose proof (loadMessagesFromRedis_frame config env
                (coalesce tid (JStr (lit "default"))) w) as F.
  cbv zeta in F. rewrite Hload in F. cbn [snd] in F.
  destruct F as (Fd & Ft & Fu & Fw).
  pose proof (loadMessagesFromRedis_ok_connected _ _ Hload) as Fc.
  destruct restored as [|m ms].
  - exists w1. split; [|tauto].
    apply step_ok with (u := no_update) (w1 := w1).
    + unfold hydrate, try_catch, hydrate_body, mbind.
      cbn [threadId]. now rewrite Hload.
    + apply apply_no_update.
  - eexists. split.
    + apply step_ok with
        (u := messages_update (RemoveMessage REMOVE_ALL_MESSAGES :: m :: ms))
        (w1 := w1).
      * unfold hydrate, try_catch, hydrate_body, mbind.
        cbn [threadId]. now rewrite Hload.
      * rewrite apply_messages_update. cbn [messages threadId input answer context].
        destruct (reducer_remove_all (uuid env) [] (m :: ms) (uuids w1))
          as [rest [Hr Hrest]].
        specialize (Hrest (loadMessagesFromRedis_kinds _ _ _ _ Hload)).
        change (snd (ensure_ids (uuid env) (uuids w1) [])) with (uuids w1)
          in Hr, Hrest.
        rewrite (@ensure_ids_noop (uuid env) _ (uuids w1) Hids) in Hr, Hrest.
        cbn [fst snd] in Hr, Hrest. subst rest. rewrite Hr. reflexivity.
    + cbn [db connected ticks uuids warnings snd]. tauto.
Qed.

(** The four nodes after hydrate, summarisation off, on a history whose
    identifiers are not the next two fresh ones. *)
Lemma nodes_after_hydrate tid question a0 c0 res restored w2 :
  let key := redisKeyForThread config (coalesce tid (JStr (lit "default"))) in
  let ans := to_string (coalesce (get res (lit "answer"))
                          (coalesce (get res (lit "output")) (JStr []))) in
  let u0 := uuid env (uuids w2) in
  let u1 := uuid env (S (uuids w2)) in
  let history :=
    restored ++ [set_id u0 (text_message Human question);
                 set_id u1 (ai_message ans)] in
  (forall n, redis_fault env n = None) ->
  positive_finite (redis_field config maxValueBytes (Finite 0)) = None ->
  connected w2 = true ->
  Forall (fun x => nullish (message_id x) = false) restored ->
  Forall (fun x => same_id (JStr u0) (message_id x) = false) restored ->
  Forall (fun x => same_id (JStr u1) (message_id x) = false) restored ->
  u1 <> u0 ->
  ragChain_invoke env question = Ok res ->
  exists w' s,
    mbind (step env ingest (mkState restored tid question a0 c0))
      (fun s2 =>
         mbind (step env (rag env) s2)
           (fun s3 =>
              mbind (step env (summarize config env) s3)
                (fun s4 => step env (persist config env) s4))) w2
    = (Ok (mkState history tid question (JStr ans)
             (coalesce (get res (lit "context")) (JArr []))), w')
    /\ stringify (payload_at (now env (ticks w2)) history) = Some s
    /\ option_map value (db w' key) = Some s
    /\ warnings w' = warnings w2.
Proof.
  intros key ans u0 u1 history Hf Hlim Hc2 Hids Hf0 Hf1 Hid Hres.
  (* ingest *)
  set (h := set_id u0 (text_message Human question)).
  set (s1 := mkState restored tid question a0 c0).
  set (w3 := mkWorld (db w2) (connected w2) (ops w2) (ticks w2) (S (uuids w2))
               (warnings w2)).
  assert (Hing : step env ingest s1 w2
                 = (Ok (mkState (restored ++ [h]) tid question a0 c0), w3)).
  { apply step_ok with (u := messages_update [text_message Human question])
                       (w1 := w2); [reflexivity|].
    rewrite apply_messages_update. cbn [messages s1].
    rewrite reducer_append;
      [reflexivity|assumption|assumption|reflexivity|discriminate]. }
  rewrite (@mbind_ok _ _ _ _ _ _ _ Hing).
  (* rag *)
  set (s2 := mkState (restored ++ [h]) tid question a0 c0).
  set (w4 := mkWorld (db w2) (connected w2) (ops w2) (ticks w2)
               (S (S (uuids w2))) (warnings w2)).
  set (s3 := mkState history tid question (JStr ans)
               (coalesce (get res (lit "context")) (JArr []))).
  assert (Hrag : step env (rag env) s2 w3 = (Ok s3, w4)).
  { apply step_ok with
      (u := mkUpdate (Some [ai_message ans]) (Some (JStr ans))
              (Some (coalesce (get res (lit "context")) (JArr []))))
      (w1 := w3).
    - unfold rag, mbind, lift, ret. cbn [input s2]. now rewrite Hres.
    - unfold apply_update. cbn [u_messages u_answer u_context].
      cbn [messages s2 uuids w3].
      rewrite reducer_append; [|..|reflexivity|discriminate].
      + unfold s3, history, h. now rewrite <- app_assoc.
      + apply Forall_app. split; [assumption|].
        constructor; [|constructor]. unfold h. now rewrite message_id_set_id.
      + apply Forall_app. split; [assumption|].
        constructor; [|constructor]. unfold h. rewrite message_id_set_id.
        cbn [same_id]. now apply jsstring_eqb_neq. }
  rewrite (@mbind_ok _ _ _ _ _ _ _ Hrag).
  (* summarize *)
  assert (Hsum : step env (summarize config env) s3 w4 = (Ok s3, w4)).
  { apply step_ok with (u := no_update) (w1 := w4).
    - unfold summarize, try_catch, summarize_body. now rewrite Hlim.
    - apply apply_no_update. }
  rewrite (@mbind_ok _ _ _ _ _ _ _ Hsum).
  (* persist *)
  destruct (@saveMessagesToRedis_succeeds config env
              (coalesce tid (JStr (lit "default"))) history w4 Hf
              (or_introl Hc2)) as [w5 Hsave].
  assert (Hper : step env (persist config env) s3 w4 = (Ok s3, w5)).
  { apply step_ok with (u := no_update) (w1 := w5).
    - unfold persist, mbind, try_catch, ret. cbn [threadId messages s3].
      now rewrite Hsave.
    - apply apply_no_update. }
  rewrite Hper.
  destruct (@saveMessagesToRedis_frame _ _ _ _ _ _ _ Hsave) as (_ & _ & Hw & _).
  apply saveMessagesToRedis_ok in Hsave as (s & ex & Hs & Hd & _).
  exists w5, s. split; [reflexivity|].
  cbn [ticks w4] in Hs. split; [exact Hs|].
  fold key in Hd. rewrite Hd. split; [reflexivity|exact Hw].
Qed.

(** The five nodes on a caller without history, summarisation off. *)
Lemma run_nodes_appends tid question a0 c0 res w restored w1 :
  let key := redisKeyForThread config (coalesce tid (JStr (lit "default"))) in
  let ans := to_string (coalesce (get res (lit "answer"))
                          (coalesce (get res (lit "output")) (JStr []))) in
  let u0 := uuid env (uuids w) in
  let u1 := uuid env (S (uuids w)) in
  let history :=
    restored ++ [set_id u0 (text_message Human question);
                 set_id u1 (ai_message ans)] in
  loadMessagesFromRedis config env (coalesce tid (JStr (lit "default"))) w
    = (Ok restored, w1) ->
  (forall n, redis_fault env n = None) ->
  positive_finite (redis_field config maxValueBytes (Finite 0)) = None ->
  Forall (fun x => nullish (message_id x) = false) restored ->
  Forall (fun x => same_id (JStr u0) (message_id x) = false) restored ->
  Forall (fun x => same_id (JStr u1) (message_id x) = false) restored ->
  u1 <> u0 ->
  ragChain_invoke env question = Ok res ->
  exists w' s,
    run_nodes config env (mkState [] tid question a0 c0) w
    = (Ok (mkState history tid question (JStr ans)
             (coalesce (get res (lit "context")) (JArr []))), w')
    /\ stringify (payload_at (now env (ticks w)) history) = Some s
    /\ option_map value (db w' key) = Some s
    /\ warnings w' = warnings w.
Proof.
  intros key ans u0 u1 history Hload Hf Hlim Hids Hf0 Hf1 Hid Hres.
  unfold run_nodes.
  destruct (@step_hydrate_restored tid question a0 c0 w restored w1 Hload Hids)
    as (w2 & Hhyd & Hd2 & Hc2 & Ht2 & Hu2 & Hw2).
  rewrite (@mbind_ok _ _ _ _ _ _ _ Hhyd).
  subst key ans u0 u1 history. rewrite <- Hu2 in Hf0, Hf1, Hid.
  rewrite <- Hu2, <- Ht2, <- Hw2.
  now apply nodes_after_hydrate.
Qed.

(** The same on an empty record. *)
Lemma run_nodes_first_turn tid question a0 c0 res w :
  let key := redisKeyForThread config (coalesce tid (JStr (lit "default"))) in
  let ans := to_string (coalesce (get res (lit "answer"))
                          (coalesce (get res (lit "output")) (JStr []))) in
  let history :=
    [set_id (uuid env (uuids w)) (text_message Human question);
     set_id (uuid env (S (uuids w))) (ai_message ans)] in
  (forall n, redis_fault env n = None) ->
  redis_field config url [] <> [] ->
  positive_finite (redis_field config maxValueBytes (Finite 0)) = None ->
  db w key = None ->
  uuid env (S (uuids w)) <> uuid env (uuids w) ->
  ragChain_invoke env question = Ok res ->
  exists w' s,
    run_nodes config env (mkState [] tid question a0 c0) w
    = (Ok (mkState history tid question (JStr ans)
             (coalesce (get res (lit "context")) (JArr []))), w')
    /\ stringify (payload_at (now env (ticks w)) history) = Some s
    /\ option_map value (db w' key) = Some s
    /\ warnings w' = warnings w.
Proof.
  intros key ans history Hf Hu Hlim Hdb Hid Hres.
  destruct (@getRedisClient_succeeds w (Hf _) (or_intror Hu)) as [wc Hg].
  pose proof (@loadMessagesFromRedis_reached config env
                (coalesce tid (JStr (lit "default"))) w wc Hg (Hf _)) as Hload.
  fold key in Hload. rewrite Hdb in Hload. cbn [option_map] in Hload.
  apply (@run_nodes_appends tid question a0 c0 res w [] _ Hload Hf Hlim);
    auto.
Qed.

End FirstTurn.

(** X10.  A first turn, end to end.  With Redis answering, a URL
    configured, summarisation off (no positive [maxValueBytes], the
    default), no record under the thread's key, no history from the
    caller and two distinct fresh identifiers, [ask] returns the
    chain's answer, the state holds the question as a human message
    followed by the answer as the assistant message that
    [new AIMessage(answer)] builds (content, two empty lists of tool
    calls, metadata maps), no warning is logged, and the record of the
    thread is the serialised payload of exactly these two messages. *)
Theorem first_turn_stored
  (config : Qa.Config) (env : Qa.Env) (tid a0 c0 res : jsval)
  (input question : jsstring) (w : Qa.World) :
  let key := Qa.redisKeyForThread config
               (Js.coalesce tid (JStr (lit "default"))) in
  let ans := Js.to_string
               (Js.coalesce (Js.get res (lit "answer"))
                  (Js.coalesce (Js.get res (lit "output")) (JStr []))) in
  let history :=
    [LangChain.set_id (Qa.uuid env (Qa.uuids w))
       (LangChain.text_message LangChain.Human question);
     LangChain.set_id (Qa.uuid env (S (Qa.uuids w)))
       (LangChain.ai_message ans)] in
  (forall n, Qa.redis_fault env n = None) ->
  Qa.redis_field config Qa.url [] <> [] ->
  Qa.positive_finite (Qa.redis_field config Qa.maxValueBytes (Qa.Finite 0))
    = None ->
  Qa.db w key = None ->
  Qa.uuid env (S (Qa.uuids w)) <> Qa.uuid env (Qa.uuids w) ->
  Qa.ragChain_invoke env question = Ok res ->
  exists a w' s,
    Qa.ask config env (Qa.mkState [] tid input a0 c0) question w = (Ok a, w')
    /\ Qa.a_answer a = ans
    /\ Qa.messages (Qa.a_state a) = history
    /\ Json.stringify (Qa.payload_at (Qa.now env (Qa.ticks w)) history)
       = Some s
    /\ option_map Qa.value (Qa.db w' key) = Some s
    /\ Qa.warnings w' = Qa.warnings w.
Proof.
  intros key ans history Hf Hu Hlim Hdb Hid Hres.
  set (w0 := Qa.mkWorld (Qa.db w) (Qa.connected w) (Qa.ops w) (Qa.ticks w)
               (Qa.uuids w) (Qa.warnings w)).
  destruct (@run_nodes_first_turn config env tid question a0 c0 res w0
              Hf Hu Hlim Hdb Hid Hres) as (w' & s & Hrun & Hs & Hd & Hw).
  exists (Qa.mkAnswer
            (Qa.mkState history tid question (JStr ans)
               (Js.coalesce (Js.get res (lit "context")) (JArr [])))
            ans
            (Js.coalesce (Js.coalesce (Js.get res (lit "context")) (JArr []))
               (JArr []))), w', s.
  split.
  - assert (Hinit :
      Qa.apply_update env (Qa.mkState [] tid question a0 c0)
        (Qa.messages_update []) w
      = (Ok (Qa.mkState [] tid question a0 c0), w0))
      by (rewrite apply_messages_update; reflexivity).
    assert (Hinv : Qa.mbind
              (Qa.apply_update env (Qa.mkState [] tid question a0 c0)
                 (Qa.messages_update []))
              (fun s1 => Qa.run_nodes config env s1) w
            = (Ok (Qa.mkState history tid question (JStr ans)
                     (Js.coalesce (Js.get res (lit "context")) (JArr []))),
               w'))
      by (now rewrite (@mbind_ok _ _ _ _ _ _ _ Hinit)).
    unfold Qa.ask, Qa.invoke.
    cbn [Qa.messages Qa.threadId Qa.input Qa.answer Qa.context].
    now rewrite (@mbind_ok _ _ _ _ _ _ _ Hinv).
  - repeat split; assumption.
Qed.

Lemma first_turn_stored_witness :
  let config := Sample.with_redis None None in
  let env := Sample.env_with (fun _ => 1700000000000%Z)
               Sample.failing_summarizer in
  exists a w' s,
    Qa.ask config env (Qa.mkState [] (JStr (lit "t1")) [] JUndefined JUndefined)
      (lit "What is the refund policy?") Sample.empty_world = (Ok a, w')
    /\ Qa.a_answer a = lit "42"
    /\ Qa.messages (Qa.a_state a)
       = [LangChain.set_id (lit "uuid-0")
            (LangChain.text_message LangChain.Human
               (lit "What is the refund policy?"));
          LangChain.set_id (lit "uuid-1")
            (LangChain.ai_message (lit "42"))]
    /\ Json.stringify
         (Qa.payload_at 1700000000000
            [LangChain.set_id (lit "uuid-0")
               (LangChain.text_message LangChain.Human
                  (lit "What is the refund policy?"));
             LangChain.set_id (lit "uuid-1")
               (LangChain.ai_message (lit "42"))])
       = Some s
    /\ option_map Qa.value (Qa.db w' (lit "rag:mem:t1")) = Some s
    /\ Qa.warnings w' = [].
Proof.
  cbv zeta.
  apply (@first_turn_stored (Sample.with_redis None None)
           (Sample.env_with (fun _ => 1700000000000%Z)
              Sample.failing_summarizer)
           (JStr (lit "t1")) JUndefined JUndefined
           (JObj [(lit "answer", JStr (lit "42"))]) []
           (lit "What is the refund policy?") Sample.empty_world).
  - reflexivity.
  - discriminate.
  - reflexivity.
  - reflexivity.
  - vm_compute. discriminate.
  - reflexivity.
Defined.

(** X11.  A later turn, end to end.  With Redis answering, a URL
    configured, summarisation off, no history from the caller and a
    record of the thread that is read back as the messages [restored],
    each with an identifier other than the two fresh ones and each
    assistant message with its two lists of tool calls (as every
    assistant message that this program stores has them), [ask]
    returns the chain's answer, the state holds the restored messages
    followed by the question as a human message and the answer as the
    assistant message that [new AIMessage(answer)] builds, and the
    record of the thread is replaced by the serialised payload of
    exactly this longer history. *)
Theorem turn_appends_to_history
  (config : Qa.Config) (env : Qa.Env) (tid a0 c0 res parsed : jsval)
  (input question text : jsstring) (stored : list jsval)
  (restored : list LangChain.BaseMessage) (w : Qa.World) :
  let key := Qa.redisKeyForThread config
               (Js.coalesce tid (JStr (lit "default"))) in
  let ans := Js.to_string
               (Js.coalesce (Js.get res (lit "answer"))
                  (Js.coalesce (Js.get res (lit "output")) (JStr []))) in
  let u0 := Qa.uuid env (Qa.uuids w) in
  let u1 := Qa.uuid env (S (Qa.uuids w)) in
  let history :=
    restored
      ++ [LangChain.set_id u0 (LangChain.text_message LangChain.Human question);
          LangChain.set_id u1 (LangChain.ai_message ans)] in
  (forall n, Qa.redis_fault env n = None) ->
  Qa.redis_field config Qa.url [] <> [] ->
  Qa.positive_finite (Qa.redis_field config Qa.maxValueBytes (Qa.Finite 0))
    = None ->
  option_map Qa.value (Qa.db w key) = Some text ->
  Json.JSON_parse text = Ok parsed ->
  Js.get parsed (lit "messages") = JArr stored ->
  LangChain.mapStoredMessagesToChatMessages stored = Ok restored ->
  Forall (fun x => Js.nullish (LangChain.message_id x) = false) restored ->
  Forall (fun x => LangChain.same_id (JStr u0) (LangChain.message_id x) = false)
    restored ->
  Forall (fun x => LangChain.same_id (JStr u1) (LangChain.message_id x) = false)
    restored ->
  Forall (fun x =>
            LangChain.kind x = LangChain.AI ->
            Js.nullish (Js.obj_get (lit "tool_calls") (LangChain.lc_kwargs x))
              = false
            /\ Js.nullish (Js.obj_get (lit "invalid_tool_calls")
                             (LangChain.lc_kwargs x)) = false)
    restored ->
  u1 <> u0 ->
  Qa.ragChain_invoke env question = Ok res ->
  exists a w' s,
    Qa.ask config env (Qa.mkState [] tid input a0 c0) question w = (Ok a, w')
    /\ Qa.a_answer a = ans
    /\ Qa.messages (Qa.a_state a) = history
    /\ Json.stringify (Qa.payload_at (Qa.now env (Qa.ticks w)) history)
       = Some s
    /\ option_map Qa.value (Qa.db w' key) = Some s.
Proof.
  intros key ans u0 u1 history Hf Hu Hlim Hdb Hparse Hmsgs Hmap
    Hids Hf0 Hf1 _ Hid Hres.
  set (w0 := Qa.mkWorld (Qa.db w) (Qa.connected w) (Qa.ops w) (Qa.ticks w)
               (Qa.uuids w) (Qa.warnings w)).
  destruct (@getRedisClient_succeeds config env w0 (Hf _) (or_intror Hu))
    as [wc Hg].
  pose proof (@loadMessagesFromRedis_reached config env
                (Js.coalesce tid (JStr (lit "default"))) w0 wc Hg (Hf _))
    as Hload.
  fold key in Hload. change (Qa.db w0) with (Qa.db w) in Hload.
  rewrite Hdb in Hload.
  destruct text as [|c text]; [discriminate|].
  rewrite Hparse, Hmsgs, Hmap in Hload.
  destruct (@run_nodes_appends config env tid question a0 c0 res w0 restored _
              Hload Hf Hlim Hids Hf0 Hf1 Hid Hres)
    as (w' & s & Hrun & Hs & Hd & _).
  exists (Qa.mkAnswer
            (Qa.mkState history tid question (JStr ans)
               (Js.coalesce (Js.get res (lit "context")) (JArr [])))
            ans
            (Js.coalesce (Js.coalesce (Js.get res (lit "context")) (JArr []))
               (JArr []))), w', s.
  split.
  - assert (Hinit :
      Qa.apply_update env (Qa.mkState [] tid question a0 c0)
        (Qa.messages_update []) w
      = (Ok (Qa.mkState [] tid question a0 c0), w0))
      by (rewrite apply_messages_update; reflexivity).
    assert (Hinv : Qa.mbind
              (Qa.apply_update env (Qa.mkState [] tid question a0 c0)
                 (Qa.messages_update []))
              (fun s1 => Qa.run_nodes config env s1) w
            = (Ok (Qa.mkState history tid question (JStr ans)
                     (Js.coalesce (Js.get res (lit "context")) (JArr []))),
               w'))
      by (now rewrite (@mbind_ok _ _ _ _ _ _ _ Hinit)).
    unfold Qa.ask, Qa.invoke.
    cbn [Qa.messages Qa.threadId Qa.input Qa.answer Qa.context].
    now rewrite (@mbind_ok _ _ _ _ _ _ _ Hinv).
  - repeat split; assumption.
Qed.

Lemma turn_appends_to_history_witness :
  let config := Sample.with_redis None None in
  let env := Sample.env_with (fun _ => 1700000000000%Z)
               Sample.failing_summarizer in
  let earlier :=
    [LangChain.set_id (lit "m1")
       (LangChain.text_message LangChain.Human (lit "earlier"));
     LangChain.set_id (lit "m2") (LangChain.ai_message (lit "sure"))] in
  let text :=
    match Json.stringify (Qa.payload_at 1600000000000 earlier) with
    | Some s => s
    | None => []
    end in
  let history :=
    earlier
      ++ [LangChain.set_id (lit "uuid-0")
            (LangChain.text_message LangChain.Human (lit "and now?"));
          LangChain.set_id (lit "uuid-1") (LangChain.ai_message (lit "42"))] in
  exists a w' s,
    Qa.ask config env (Qa.mkState [] (JStr (lit "t1")) [] JUndefined JUndefined)
      (lit "and now?") (Sample.world_with (lit "rag:mem:t1") text) = (Ok a, w')
    /\ Qa.a_answer a = lit "42"
    /\ Qa.messages (Qa.a_state a) = history
    /\ Json.stringify (Qa.payload_at 1700000000000 history) = Some s
    /\ option_map Qa.value (Qa.db w' (lit "rag:mem:t1")) = Some s.
Proof.
  cbv zeta.
  eapply (@turn_appends_to_history (Sample.with_redis None None)
            (Sample.env_with (fun _ => 1700000000000%Z)
               Sample.failing_summarizer)
            (JStr (lit "t1")) JUndefined JUndefined
            (JObj [(lit "answer", JStr (lit "42"))]) _ []
            (lit "and now?") _ _
            [LangChain.set_id (lit "m1")
               (LangChain.text_message LangChain.Human (lit "earlier"));
             LangChain.set_id (lit "m2") (LangChain.ai_message (lit "sure"))]
            (Sample.world_with (lit "rag:mem:t1") _)).
  - reflexivity.
  - discriminate.
  - reflexivity.
  - vm_compute. reflexivity.
  - vm_compute. reflexivity.
  - vm_compute. reflexivity.
  - vm_compute. reflexivity.
  - repeat constructor.
  - repeat constructor.
  - repeat constructor.
  - repeat constructor; discriminate.
  - vm_compute. discriminate.
  - reflexivity.
Defined.

(* ================================================================= *)
(** ** The estimated size grows with the history *)

Section EstimateFacts.
Import Js Json LangChain Qa.








End EstimateFacts.



(* ================================================================= *)
(** ** Turns that meet a bad record or a failing chain *)

Section TurnEdges.
Import Js Json LangChain Qa.

Variable config : Config.
Variable env : Env.

(** [ask] on a caller without history is the run of the five nodes. *)
Lemma ask_of_run_nodes tid input question a0 c0 w st w' :
  run_nodes config env (mkState [] tid question a0 c0)
    (mkWorld (db w) (connected w) (ops w) (ticks w) (uuids w) (warnings w))
  = (Ok st, w') ->
  ask config env (mkState [] tid input a0 c0) question w
  = (Ok (mkAnswer st (to_string (coalesce (answer st) (JStr [])))
           (coalesce (context st) (JArr []))), w').
Proof.
  intros Hrun.
  assert (Hinit :
    apply_update env (mkState [] tid question a0 c0) (messages_update []) w
    = (Ok (mkState [] tid question a0 c0),
       mkWorld (db w) (connected w) (ops w) (ticks w) (uuids w) (warnings w)))
    by (rewrite apply_messages_update; reflexivity).
  assert (Hinv : mbind
            (apply_update env (mkState [] tid question a0 c0)
               (messages_update []))
            (fun s1 => run_nodes config env s1) w = (Ok st, w'))
    by (now rewrite (@mbind_ok _ _ _ _ _ _ _ Hinit)).
  unfold ask, invoke. cbn [messages threadId Qa.input answer context].
  now rewrite (@mbind_ok _ _ _ _ _ _ _ Hinv).
Qed.

(** The five nodes on a record that is not JSON, or holds no array of
    messages. *)
Lemma run_nodes_unreadable tid question a0 c0 res w text :
  let key := redisKeyForThread config (coalesce tid (JStr (lit "default"))) in
  let ans := to_string (coalesce (get res (lit "answer"))
                          (coalesce (get res (lit "output")) (JStr []))) in
  let history :=
    [set_id (uuid env (uuids w)) (text_message Human question);
     set_id (uuid env (S (uuids w))) (ai_message ans)] in
  (forall n, redis_fault env n = None) ->
  redis_field config url [] <> [] ->
  positive_finite (redis_field config maxValueBytes (Finite 0)) = None ->
  option_map value (db w key) = Some text ->
  text <> [] ->
  match JSON_parse text with
  | Throw e => e = SyntaxError
  | Ok parsed => forall l, get parsed (lit "messages") <> JArr l
  end ->
  uuid env (S (uuids w)) <> uuid env (uuids w) ->
  ragChain_invoke env question = Ok res ->
  exists w' s,
    run_nodes config env (mkState [] tid question a0 c0) w
    = (Ok (mkState history tid question (JStr ans)
             (coalesce (get res (lit "context")) (JArr []))), w')
    /\ stringify (payload_at (now env (ticks w)) history) = Some s
    /\ option_map value (db w' key) = Some s
    /\ warnings w'
       = warnings w
           ++ match JSON_parse text with
              | Throw _ => [(HydrateStage, SyntaxError)]
              | Ok _ => []
              end.
Proof.
  intros key ans history Hf Hu Hlim Hdb Hne Hbad Hid Hres.
  destruct (@getRedisClient_succeeds config env w (Hf _) (or_intror Hu))
    as [wc Hg].
  pose proof (@loadMessagesFromRedis_reached config env
                (coalesce tid (JStr (lit "default"))) w wc Hg (Hf _)) as Hload.
  fold key in Hload. rewrite Hdb in Hload.
  destruct text as [|c text]; [contradiction|].
  destruct (JSON_parse (c :: text)) as [parsed|e].
  - assert (Hst : match get parsed (lit "messages") with
                  | JArr l => l
                  | _ => []
                  end = []).
    { destruct (get parsed (lit "messages")) as [| | | | |l|] eqn:E;
        try reflexivity.
      now destruct (Hbad l). }
    rewrite Hst in Hload. cbn [mapStoredMessagesToChatMessages] in Hload.
    rewrite List.app_nil_r.
    apply (@run_nodes_appends config env tid question a0 c0 res w [] _
             Hload Hf Hlim); auto.
  - subst e.
    set (e := SyntaxError) in *.
    set (w1 := mkWorld (db w) true (S (ops wc)) (ticks w) (uuids w)
                 (warnings w)) in Hload.
    set (w2 := mkWorld (db w1) (connected w1) (ops w1) (ticks w1) (uuids w1)
                 (warnings w1 ++ [(HydrateStage, e)])).
    assert (Hhyd : step env (hydrate config env)
                     (mkState [] tid question a0 c0) w
                   = (Ok (mkState [] tid question a0 c0), w2)).
    { apply step_ok with (u := no_update) (w1 := w2).
      - apply hydrate_catches, hydrate_body_throws. exact Hload.
      - apply apply_no_update. }
    unfold run_nodes. rewrite (@mbind_ok _ _ _ _ _ _ _ Hhyd).
    apply (@nodes_after_hydrate config env tid question a0 c0 res [] w2);
      auto.
Qed.

(** The steps before persist leave the key space alone. *)
Lemma step_db (node : GraphState -> M Update) state w r w' :
  step env node state w = (r, w') -> db w' = db (snd (node state w)).
Proof.
  intros H. pose proof (step_frame env node state w) as F.
  cbv zeta in F. rewrite H in F. cbn [snd] in F. tauto.
Qed.

Lemma step_persist_ok state w :
  exists w', step env (persist config env) state w = (Ok state, w').
Proof.
  destruct (persist_returns config env state w) as [w' Hp].
  exists w'. unfold step. rewrite (@mbind_ok _ _ _ _ _ _ _ Hp).
  apply apply_no_update.
Qed.

(** A run of the nodes that throws has not reached a write. *)
Lemma run_nodes_throw_db state w e w' :
  run_nodes config env state w = (Throw e, w') -> db w' = db w.
Proof.
  unfold run_nodes.
  destruct (step env (hydrate config env) state w) as [[s1|e1] w1] eqn:H1.
  2:{ rewrite (@mbind_throw _ _ _ _ _ _ _ H1). intros H. injection H as _ <-.
      rewrite (step_db _ _ _ H1).
      apply (hydrate_frame config env state w). }
  rewrite (@mbind_ok _ _ _ _ _ _ _ H1).
  assert (D1 : db w1 = db w).
  { rewrite (step_db _ _ _ H1). apply (hydrate_frame config env state w). }
  destruct (step env ingest s1 w1) as [[s2|e2] w2] eqn:H2.
  2:{ rewrite (@mbind_throw _ _ _ _ _ _ _ H2). intros H. injection H as _ <-.
      rewrite (step_db _ _ _ H2), ingest_frame. exact D1. }
  rewrite (@mbind_ok _ _ _ _ _ _ _ H2).
  assert (D2 : db w2 = db w).
  { rewrite (step_db _ _ _ H2), ingest_frame. exact D1. }
  destruct (step env (rag env) s2 w2) as [[s3|e3] w3] eqn:H3.
  2:{ rewrite (@mbind_throw _ _ _ _ _ _ _ H3). intros H. injection H as _ <-.
      rewrite (step_db _ _ _ H3), rag_frame. exact D2. }
  rewrite (@mbind_ok _ _ _ _ _ _ _ H3).
  assert (D3 : db w3 = db w).
  { rewrite (step_db _ _ _ H3), rag_frame. exact D2. }
  destruct (step env (summarize config env) s3 w3) as [[s4|e4] w4] eqn:H4.
  2:{ rewrite (@mbind_throw _ _ _ _ _ _ _ H4). intros H. injection H as _ <-.
      rewrite (step_db _ _ _ H4).
      destruct (summarize_frame config env s3 w3) as (-> & _). exact D3. }
  rewrite (@mbind_ok _ _ _ _ _ _ _ H4).
  destruct (step_persist_ok s4 w4) as [w5 ->]. discriminate.
Qed.

End TurnEdges.

(** X28.  A record that cannot be used is lost at the end of the turn.
    With Redis answering, a URL configured, summarisation off and no
    history from the caller, a turn on a thread whose record makes
    [JSON.parse] throw its [SyntaxError], or is JSON without an array
    of messages, still returns the chain's answer; the history is the
    question and the answer alone, the answer as the assistant message
    that [new AIMessage(answer)] builds, and the record of the thread is
    replaced by the payload of these two messages.  The syntax error is
    reported by one hydrate warning, a record without messages by
    none. *)
Theorem unreadable_record_is_replaced
  (config : Qa.Config) (env : Qa.Env) (tid a0 c0 res : jsval)
  (input question text : jsstring) (w : Qa.World) :
  let key := Qa.redisKeyForThread config
               (Js.coalesce tid (JStr (lit "default"))) in
  let ans := Js.to_string
               (Js.coalesce (Js.get res (lit "answer"))
                  (Js.coalesce (Js.get res (lit "output")) (JStr []))) in
  let history :=
    [LangChain.set_id (Qa.uuid env (Qa.uuids w))
       (LangChain.text_message LangChain.Human question);
     LangChain.set_id (Qa.uuid env (S (Qa.uuids w)))
       (LangChain.ai_message ans)] in
  (forall n, Qa.redis_fault env n = None) ->
  Qa.redis_field config Qa.url [] <> [] ->
  Qa.positive_finite (Qa.redis_field config Qa.maxValueBytes (Qa.Finite 0))
    = None ->
  option_map Qa.value (Qa.db w key) = Some text ->
  text <> [] ->
  match Json.JSON_parse text with
  | Throw e => e = SyntaxError
  | Ok parsed => forall l, Js.get parsed (lit "messages") <> JArr l
  end ->
  Qa.uuid env (S (Qa.uuids w)) <> Qa.uuid env (Qa.uuids w) ->
  Qa.ragChain_invoke env question = Ok res ->
  exists a w' s,
    Qa.ask config env (Qa.mkState [] tid input a0 c0) question w = (Ok a, w')
    /\ Qa.a_answer a = ans
    /\ Qa.messages (Qa.a_state a) = history
    /\ Json.stringify (Qa.payload_at (Qa.now env (Qa.ticks w)) history)
       = Some s
    /\ option_map Qa.value (Qa.db w' key) = Some s
    /\ Qa.warnings w'
       = Qa.warnings w
           ++ match Json.JSON_parse text with
              | Throw _ => [(Qa.HydrateStage, SyntaxError)]
              | Ok _ => []
              end.
Proof.
  intros key ans history Hf Hu Hlim Hdb Hne Hbad Hid Hres.
  set (w0 := Qa.mkWorld (Qa.db w) (Qa.connected w) (Qa.ops w) (Qa.ticks w)
               (Qa.uuids w) (Qa.warnings w)).
  destruct (@run_nodes_unreadable config env tid question a0 c0 res w0 text
              Hf Hu Hlim Hdb Hne Hbad Hid Hres)
    as (w' & s & Hrun & Hs & Hd & Hw).
  eexists. exists w', s. split.
  - apply ask_of_run_nodes. exact Hrun.
  - cbn [Qa.a_answer Qa.a_state Qa.messages Qa.answer Js.coalesce Js.nullish
           Js.to_string].
    repeat split; assumption.
Qed.

Lemma unreadable_record_is_replaced_witness :
  let config := Sample.with_redis None None in
  let env := Sample.env_with (fun _ => 1700000000000%Z)
               Sample.failing_summarizer in
  let history :=
    [LangChain.set_id (lit "uuid-0")
       (LangChain.text_message LangChain.Human (lit "and now?"));
     LangChain.set_id (lit "uuid-1")
       (LangChain.ai_message (lit "42"))] in
  exists a w' s,
    Qa.ask config env (Qa.mkState [] (JStr (lit "t1")) [] JUndefined JUndefined)
      (lit "and now?") (Sample.world_with (lit "rag:mem:t1") (lit "{"))
    = (Ok a, w')
    /\ Qa.a_answer a = lit "42"
    /\ Qa.messages (Qa.a_state a) = history
    /\ Json.stringify (Qa.payload_at 1700000000000 history) = Some s
    /\ option_map Qa.value (Qa.db w' (lit "rag:mem:t1")) = Some s
    /\ Qa.warnings w' = [(Qa.HydrateStage, SyntaxError)].
Proof.
  cbv zeta.
  apply (@unreadable_record_is_replaced (Sample.with_redis None None)
           (Sample.env_with (fun _ => 1700000000000%Z)
              Sample.failing_summarizer)
           (JStr (lit "t1")) JUndefined JUndefined
           (JObj [(lit "answer", JStr (lit "42"))]) []
           (lit "and now?") (lit "{")
           (Sample.world_with (lit "rag:mem:t1") (lit "{"))).
  - reflexivity.
  - discriminate.
  - reflexivity.
  - reflexivity.
  - discriminate.
  - reflexivity.
  - vm_compute. discriminate.
  - reflexivity.
Defined.

(** X29.  A turn that fails stores nothing.  Whenever [ask] fails, be
    it by the chain or by the caller's history being refused, every
    record of the key space is as it was before the turn: the question
    of a failed turn is not remembered. *)
Theorem failed_turn_stores_nothing
  (config : Qa.Config) (env : Qa.Env) (state : Qa.GraphState)
  (question : jsstring) (w w' : Qa.World) (e : Error) :
  Qa.ask config env state question w = (Throw e, w') ->
  Qa.db w' = Qa.db w.
Proof.
  unfold Qa.ask, Qa.invoke.
  cbn [Qa.messages Qa.threadId Qa.input Qa.answer Qa.context].
  set (init := Qa.mkState [] (Qa.threadId state) question (Qa.answer state)
                 (Qa.context state)).
  set (u := Qa.messages_update (Qa.messages state)).
  pose proof (apply_update_frame env init u w) as F. cbv zeta in F.
  destruct (Qa.apply_update env init u w) as [[s0|e0] w0] eqn:H0;
    cbn [snd] in F; destruct F as (D0 & _).
  - destruct (Qa.run_nodes config env s0 w0) as [[st|e1] w1] eqn:Hr.
    + assert (Hinv : Qa.mbind (Qa.apply_update env init u)
                       (fun s1 => Qa.run_nodes config env s1) w = (Ok st, w1))
        by (now rewrite (@mbind_ok _ _ _ _ _ _ _ H0)).
      rewrite (@mbind_ok _ _ _ _ _ _ _ Hinv). discriminate.
    + assert (Hinv : Qa.mbind (Qa.apply_update env init u)
                       (fun s1 => Qa.run_nodes config env s1) w
                     = (Throw e1, w1))
        by (now rewrite (@mbind_ok _ _ _ _ _ _ _ H0)).
      rewrite (@mbind_throw _ _ _ _ _ _ _ Hinv).
      intros H. injection H as _ <-.
      rewrite (run_nodes_throw_db _ _ _ _ Hr). exact D0.
  - assert (Hinv : Qa.mbind (Qa.apply_update env init u)
                     (fun s1 => Qa.run_nodes config env s1) w = (Throw e0, w0))
      by (now rewrite (@mbind_throw _ _ _ _ _ _ _ H0)).
    rewrite (@mbind_throw _ _ _ _ _ _ _ Hinv).
    intros H. injection H as _ <-. exact D0.
Qed.

Lemma failed_turn_stores_nothing_witness :
  let config := Sample.with_redis None None in
  let env :=
    Qa.Build_Env (fun _ => None) (fun _ => 0%Z) (fun _ => lit "u")
      (fun _ => Throw (External 3)) Sample.failing_summarizer in
  let w := Sample.world_with (lit "rag:mem:t1") (lit "{}") in
  let state := Qa.mkState [] (JStr (lit "t1")) [] JUndefined JUndefined in
  fst (Qa.ask config env state (lit "q") w) = Throw (External 3)
  /\ Qa.db (snd (Qa.ask config env state (lit "q") w)) = Qa.db w.
Proof.
  cbv zeta. split; [reflexivity|].
  apply (@failed_turn_stores_nothing (Sample.with_redis None None)
           (Qa.Build_Env (fun _ => None) (fun _ => 0%Z) (fun _ => lit "u")
              (fun _ => Throw (External 3)) Sample.failing_summarizer)
           (Qa.mkState [] (JStr (lit "t1")) [] JUndefined JUndefined)
           (lit "q") (Sample.world_with (lit "rag:mem:t1") (lit "{}"))
           _ (External 3)).
  reflexivity.
Defined.

(* ================================================================= *)
(** ** The reasoning-markup strip on well-formed segments *)

Section ThinkSegments.
Import Think.

Lemma ci_prefix_tag pat : forall o r,
  is_tag pat o -> ci_prefix pat (o ++ r) = Some r.
Proof.
  induction pat as [|p pat IH]; intros o r H; inversion H; subst.
  - reflexivity.
  - cbn [app ci_prefix].
    match goal with E : ci_eq p _ = true |- _ => rewrite E end.
    now apply IH.
Qed.

Lemma is_tag_length pat o : is_tag pat o -> length o = length pat.
Proof. intros H. symmetry. exact (Forall2_length H). Qed.

(** Both tags begin with [<]: nothing else can start a match. *)
Lemma ci_prefix_open_head x s :
  x <> 60%N -> ci_prefix open_tag (x :: s) = None.
Proof.
  intros H. change open_tag with (60%N :: lit "think>").
  cbn [ci_prefix]. unfold ci_eq.
  rewrite (proj2 (N.eqb_neq x 60) H). reflexivity.
Qed.

Lemma ci_prefix_close_head x s :
  x <> 60%N -> ci_prefix close_tag (x :: s) = None.
Proof.
  intros H. change close_tag with (60%N :: lit "/think>").
  cbn [ci_prefix]. unfold ci_eq.
  rewrite (proj2 (N.eqb_neq x 60) H). reflexivity.
Qed.

Lemma find_close_eq s :
  find_close s =
  match ci_prefix close_tag s with
  | Some r => Some r
  | None => match s with [] => None | _ :: s' => find_close s' end
  end.
Proof. destruct s; reflexivity. Qed.

Lemma find_close_body body : forall c r,
  ~ In 60%N body -> is_tag close_tag c ->
  find_close (body ++ c ++ r) = Some r.
Proof.
  induction body as [|x body IH]; intros c r Hb Hc.
  - cbn [app]. rewrite find_close_eq. now rewrite ci_prefix_tag by exact Hc.
  - cbn [app]. rewrite find_close_eq.
    rewrite ci_prefix_close_head by (intros ->; apply Hb; now left).
    apply IH; [|exact Hc]. intros Hin. apply Hb. now right.
Qed.

Lemma match_at_segment o body c rest :
  is_tag open_tag o -> ~ In 60%N body -> is_tag close_tag c ->
  match_at (o ++ body ++ c ++ rest) = Some (drop_spaces rest).
Proof.
  intros Ho Hb Hc. unfold match_at.
  rewrite ci_prefix_tag by exact Ho. now rewrite find_close_body by assumption.
Qed.

Lemma match_at_head x s : x <> 60%N -> match_at (x :: s) = None.
Proof. intros H. unfold match_at. now rewrite ci_prefix_open_head. Qed.

Lemma replace_think_segment_at pre : forall o body c rest,
  ~ In 60%N pre -> is_tag open_tag o -> ~ In 60%N body ->
  is_tag close_tag c ->
  replace_think (pre ++ o ++ body ++ c ++ rest)
  = pre ++ replace_think (drop_spaces rest).
Proof.
  induction pre as [|x pre IH]; intros o body c rest Hp Ho Hb Hc.
  - cbn [app]. rewrite replace_think_eq.
    now rewrite match_at_segment by assumption.
  - cbn [app]. rewrite replace_think_eq.
    rewrite match_at_head by (intros ->; apply Hp; now left).
    f_equal. apply IH; auto. intros Hin. apply Hp. now right.
Qed.

(** A pass that changes the string takes at least one whole match
    away. *)
Lemma replace_think_segment_shorter_15 s :
  has_segmentb s = true -> length (replace_think s) + 15 <= length s.
Proof.
  induction s as [|c s IH]; intros H.
  - cbn [has_segmentb] in H. rewrite match_at_nil in H. discriminate.
  - rewrite replace_think_eq. cbn [has_segmentb] in H.
    destruct (match_at (c :: s)) as [r|] eqn:E.
    + apply match_at_length in E.
      pose proof (replace_think_length r). lia.
    + simpl. apply IH in H. lia.
Qed.

Lemma iter_strip n : forall s,
  Nat.iter n Qa.stripThinkFromContent (JStr s)
  = JStr (Nat.iter n replace_think s).
Proof.
  induction n as [|n IH]; intros s; [reflexivity|].
  rewrite !Nat.iter_succ. now rewrite IH.
Qed.

Lemma iter_fixpoint n s :
  replace_think s = s -> Nat.iter n replace_think s = s.
Proof.
  intros H. induction n as [|n IH]; [reflexivity|].
  rewrite Nat.iter_succ. now rewrite IH.
Qed.

Lemma strip_converges_bounded k : forall s,
  length s <= k ->
  exists n, n <= length s
            /\ has_segmentb (Nat.iter n replace_think s) = false.
Proof.
  induction k as [|k IH]; intros s Hk.
  - destruct s; [|simpl in Hk; lia]. exists 0. split; [lia|reflexivity].
  - destruct (has_segmentb s) eqn:E.
    + pose proof (@replace_think_segment_shorter_15 s E) as Hl.
      destruct (IH (replace_think s)) as (n & Hn & Hs); [lia|].
      exists (S n). split; [lia|]. now rewrite Nat.iter_succ_r.
    + exists 0. split; [lia|exact E].
Qed.

End ThinkSegments.

(** X12.  A [<think>...</think>] segment whose body holds no [<] is
    removed whole, whatever the letter case of its two tags, together
    with the white space that follows the closing tag; the text in
    front of it, if it holds no [<] either, is kept, and the strip goes
    on with what follows the white space. *)
Theorem stripThink_removes_segment
  (pre o body c rest : jsstring) :
  ~ In 60%N pre -> Think.is_tag Think.open_tag o ->
  ~ In 60%N body -> Think.is_tag Think.close_tag c ->
  Qa.stripThinkFromContent (JStr (pre ++ o ++ body ++ c ++ rest))
  = JStr (pre ++ Think.replace_think (Think.drop_spaces rest)).
Proof.
  intros Hp Ho Hb Hc. cbn [Qa.stripThinkFromContent].
  now rewrite replace_think_segment_at.
Qed.

Lemma stripThink_removes_segment_witness :
  Qa.stripThinkFromContent
    (JStr (lit "Answer: " ++ lit "<THINK>" ++ lit "step 1, step 2"
             ++ lit "</Think>" ++ [32; 10; 9]%N ++ lit "Paris"))
  = JStr (lit "Answer: Paris").
Proof.
  apply (@stripThink_removes_segment (lit "Answer: ") (lit "<THINK>")
           (lit "step 1, step 2") (lit "</Think>")
           ([32; 10; 9]%N ++ lit "Paris")).
  - cbn. intuition discriminate.
  - repeat constructor.
  - cbn. intuition discriminate.
  - repeat constructor.
Defined.

(** X13.  The strip changes a text exactly when the text holds a
    complete segment; it never makes a text longer, and a text that it
    changes loses at least the fifteen code units of the two tags. *)
Theorem stripThink_changes_iff_segment (s : jsstring) :
  (Qa.stripThinkFromContent (JStr s) = JStr s <-> ~ Think.has_segment s)
  /\ length (Think.replace_think s) <= length s
  /\ (Think.has_segment s -> length (Think.replace_think s) + 15 <= length s).
Proof.
  cbn [Qa.stripThinkFromContent]. rewrite <- has_segmentb_spec.
  split; [|split].
  - destruct (Think.has_segmentb s) eqn:E.
    + split; [|intros H; exfalso; now apply H].
      intros H. apply replace_think_segment_shorter in E.
      injection H as H. rewrite H in E. lia.
    + split; [intros _; discriminate|].
      intros _. now rewrite (replace_think_no_segment _ E).
  - apply replace_think_length.
  - apply replace_think_segment_shorter_15.
Qed.

(** X14.  The strip is not idempotent, but repeating it ends: for a
    text of [n] code units, after at most [n] passes the content holds
    no complete segment, and every further pass leaves it as it is.  (A
    stored content is sanitised again each time a turn loads and saves
    it.) *)
Theorem stripThink_converges (s : jsstring) :
  exists n t,
    n <= length s
    /\ Nat.iter n Qa.stripThinkFromContent (JStr s) = JStr t
    /\ ~ Think.has_segment t
    /\ forall m, Nat.iter m Qa.stripThinkFromContent (JStr t) = JStr t.
Proof.
  destruct (@strip_converges_bounded (length s) s (le_n _)) as (n & Hn & Hs).
  exists n, (Nat.iter n Think.replace_think s).
  split; [exact Hn|]. split; [apply iter_strip|].
  split.
  - rewrite <- has_segmentb_spec. now rewrite Hs.
  - intros m. rewrite iter_strip. f_equal.
    apply iter_fixpoint. now apply replace_think_no_segment.
Qed.

(* ================================================================= *)
(** ** [config.js]: file first, then environment, then default *)

Section ConfigFacts.
Import Js Json ConfigFile.

Lemma split_path s : split_dot (path_of s) = [section_of s; field_of s].
Proof. destruct s; reflexivity. Qed.

Lemma obj_get_has k o : obj_get k o <> JUndefined -> obj_has k o = true.
Proof.
  induction o as [|[k' v] o IH]; cbn [obj_get obj_has]; [congruence|].
  destruct (jsstring_eqb k k'); [reflexivity|exact IH].
Qed.

Lemma loadConfigFile_cached env w :
  cachedConfig w <> JNull -> loadConfigFile env w = (cachedConfig w, w).
Proof.
  intros H. unfold loadConfigFile.
  destruct (cachedConfig w); try reflexivity. contradiction.
Qed.

End ConfigFacts.

(** X15.  The file comes first.  When [config.json] parses to an object
    that has the section of a setting, an object itself, and this
    section has the field of the setting, [getConfig] returns the value
    of the field, whatever it is ([null], [false], [0] and the empty
    string included) and whatever the environment variable and the
    default are; the parsed file is kept in [cachedConfig]. *)
Theorem getConfig_file_first
  (env : ConfigFile.Env) (s : ConfigFile.Setting) (dflt v : jsval)
  (w : ConfigFile.World) (text : jsstring) (o sec : list (jsstring * jsval)) :
  ConfigFile.cachedConfig w = JNull ->
  ConfigFile.config_file env = Some (Ok text) ->
  Json.JSON_parse text = Ok (JObj o) ->
  Js.obj_get (ConfigFile.section_of s) o = JObj sec ->
  Js.obj_get (ConfigFile.field_of s) sec = v ->
  v <> JUndefined ->
  ConfigFile.getConfig env (ConfigFile.path_of s) (ConfigFile.env_of s) dflt w
  = (v, ConfigFile.mkWorld (JObj o)
          (ConfigFile.console w ++ [ConfigFile.Loaded])).
Proof.
  intros Hc Hf Hp Hs Hv Hne.
  unfold ConfigFile.getConfig, ConfigFile.loadConfigFile.
  rewrite Hc, Hf. cbn [ConfigFile.is_null negb bind]. rewrite Hp.
  assert (H1 : Js.obj_has (ConfigFile.section_of s) o = true)
    by (apply obj_get_has; rewrite Hs; discriminate).
  assert (H2 : Js.obj_has (ConfigFile.field_of s) sec = true)
    by (apply obj_get_has; rewrite Hv; exact Hne).
  cbn [Js.truthy]. rewrite split_path. cbn [ConfigFile.walk].
  unfold Js.get.
  cbn [Js.truthy Js.typeof_object Js.own_props andb]. rewrite H1, Hs.
  cbn [Js.truthy Js.typeof_object Js.own_props andb]. rewrite H2, Hv.
  destruct v; try reflexivity. contradiction.
Qed.

Lemma getConfig_file_first_witness :
  let text :=
    lit "{" ++ Json.quote (lit "retrieval") ++ lit ":{"
      ++ Json.quote (lit "topK") ++ lit ":0}}" in
  let env :=
    ConfigFile.Build_Env (Some (Ok text)) (fun _ => Some (lit "9"))
      (fun _ => Some (JNum 9)) in
  fst (ConfigFile.getConfig env (lit "retrieval.topK") (lit "TOP_K") (JNum 4)
         (ConfigFile.mkWorld JNull []))
  = JNum 0.
Proof.
  cbv zeta.
  assert (H : JNum 0 <> JUndefined) by discriminate.
  exact (f_equal fst (@getConfig_file_first
             (ConfigFile.Build_Env
                (Some (Ok (lit "{" ++ Json.quote (lit "retrieval") ++ lit ":{"
                             ++ Json.quote (lit "topK") ++ lit ":0}}")))
                (fun _ => Some (lit "9")) (fun _ => Some (JNum 9)))
             ConfigFile.retrieval_topK (JNum 4) (JNum 0)
             (ConfigFile.mkWorld JNull [])
             (lit "{" ++ Json.quote (lit "retrieval") ++ lit ":{"
                ++ Json.quote (lit "topK") ++ lit ":0}}")
             [(lit "retrieval", JObj [(lit "topK", JNum 0)])]
             [(lit "topK", JNum 0)]
             eq_refl eq_refl eq_refl eq_refl eq_refl H)).
Defined.

(** X16.  A configuration file that is missing, cannot be read or is
    not valid JSON never makes [getConfig] fail: the value comes from
    the environment or the default, one notice is printed, and nothing
    is cached, so that the next call looks at the file again. *)
Theorem getConfig_unusable_file
  (env : ConfigFile.Env) (path envVar : jsstring) (dflt : jsval)
  (w : ConfigFile.World) :
  ConfigFile.cachedConfig w = JNull ->
  ConfigFile.config_file env = None
  \/ (exists e, ConfigFile.config_file env = Some (Throw e))
  \/ (exists text, ConfigFile.config_file env = Some (Ok text)
                   /\ Json.JSON_parse text = Throw SyntaxError) ->
  exists notice,
    ConfigFile.getConfig env path envVar dflt w
    = (ConfigFile.env_or_default env envVar dflt,
       ConfigFile.mkWorld JNull (ConfigFile.console w ++ [notice]))
    /\ notice <> ConfigFile.Loaded.
Proof.
  intros Hc Hf.
  unfold ConfigFile.getConfig, ConfigFile.loadConfigFile.
  rewrite Hc. cbn [ConfigFile.is_null negb].
  destruct Hf as [Hf|[[e Hf]|(text & Hf & Hp)]]; rewrite Hf.
  - exists ConfigFile.Missing. split; [reflexivity|discriminate].
  - exists (ConfigFile.Unusable e). split; [reflexivity|discriminate].
  - cbn [bind]. rewrite Hp.
    exists (ConfigFile.Unusable SyntaxError).
    split; [reflexivity|discriminate].
Qed.

Lemma getConfig_unusable_file_witness :
  let env :=
    ConfigFile.Build_Env (Some (Ok (lit "{topK: 4}"))) (fun _ => None)
      (fun _ => None) in
  exists notice,
    ConfigFile.getConfig env (lit "retrieval.topK") (lit "TOP_K") (JNum 4)
      (ConfigFile.mkWorld JNull [])
    = (JNum 4, ConfigFile.mkWorld JNull [notice])
    /\ notice <> ConfigFile.Loaded.
Proof.
  cbv zeta.
  apply (@getConfig_unusable_file
           (ConfigFile.Build_Env (Some (Ok (lit "{topK: 4}"))) (fun _ => None)
              (fun _ => None))
           (lit "retrieval.topK") (lit "TOP_K") (JNum 4)
           (ConfigFile.mkWorld JNull []) eq_refl).
  right. right. exists (lit "{topK: 4}"). split; [reflexivity|].
  vm_compute. reflexivity.
Defined.

(** X17.  When neither file nor cache gives a value, a set and
    non-empty environment variable is never replaced by the default.
    With a default that is not a number the text of the variable is
    returned as it is, so that a boolean setting such as [milvus.ssl]
    becomes a truthy string whatever the text says ([false] included);
    with a number as default the text is returned as it is exactly when
    [Number] makes [NaN] of it. *)
Theorem getConfig_environment_text
  (env : ConfigFile.Env) (s : ConfigFile.Setting) (dflt : jsval)
  (w : ConfigFile.World) (text : jsstring) :
  ConfigFile.cachedConfig w = JNull ->
  ConfigFile.config_file env = None ->
  ConfigFile.process_env env (ConfigFile.env_of s) = Some text ->
  text <> [] ->
  let value :=
    fst (ConfigFile.getConfig env (ConfigFile.path_of s) (ConfigFile.env_of s)
           dflt w) in
  (ConfigFile.is_number dflt = false ->
   value = JStr text /\ Js.truthy value = true)
  /\ (ConfigFile.is_number dflt = true ->
      ConfigFile.Number_ env text = None -> value = JStr text)
  /\ (ConfigFile.is_number dflt = true ->
      forall num, ConfigFile.Number_ env text = Some num -> value = num).
Proof.
  intros Hc Hf He Ht value. subst value.
  unfold ConfigFile.getConfig, ConfigFile.loadConfigFile.
  rewrite Hc, Hf. cbn [ConfigFile.is_null negb Js.truthy fst].
  unfold ConfigFile.env_or_default. rewrite He.
  destruct text as [|c text]; [contradiction|].
  assert (Hn : forall A (x y : A),
            match ConfigFile.env_of s with [] => x | _ :: _ => y end = y)
    by (intros; destruct s; reflexivity).
  rewrite Hn.
  repeat split.
  - now rewrite H.
  - now rewrite H.
  - intros Hd Hnum. now rewrite Hd, Hnum.
  - intros Hd num Hnum. now rewrite Hd, Hnum.
Qed.

Lemma getConfig_environment_text_witness :
  let env :=
    ConfigFile.Build_Env None (fun _ => Some (lit "false")) (fun _ => None) in
  let value :=
    fst (ConfigFile.getConfig env (lit "milvus.ssl") (lit "MILVUS_SSL")
           (JBool false) (ConfigFile.mkWorld JNull [])) in
  value = JStr (lit "false") /\ Js.truthy value = true.
Proof.
  cbv zeta.
  apply (@getConfig_environment_text
           (ConfigFile.Build_Env None (fun _ => Some (lit "false"))
              (fun _ => None))
           ConfigFile.milvus_ssl (JBool false) (ConfigFile.mkWorld JNull [])
           (lit "false") eq_refl eq_refl eq_refl).
  - discriminate.
  - reflexivity.
Defined.

(** X18.  Once a file has been loaded, it is not looked at again: with
    a value in [cachedConfig], [getConfig] prints nothing, changes
    nothing, and returns the same value whatever [config.json] has
    become in the meantime. *)
Theorem getConfig_uses_cache
  (env env' : ConfigFile.Env) (path envVar : jsstring) (dflt : jsval)
  (w : ConfigFile.World) :
  ConfigFile.cachedConfig w <> JNull ->
  ConfigFile.process_env env' = ConfigFile.process_env env ->
  ConfigFile.Number_ env' = ConfigFile.Number_ env ->
  snd (ConfigFile.getConfig env path envVar dflt w) = w
  /\ ConfigFile.getConfig env' path envVar dflt w
     = ConfigFile.getConfig env path envVar dflt w.
Proof.
  intros Hc Hp Hn. unfold ConfigFile.getConfig.
  rewrite !loadConfigFile_cached by exact Hc.
  unfold ConfigFile.env_or_default. rewrite Hp, Hn.
  split; [|reflexivity].
  destruct (Js.truthy (ConfigFile.cachedConfig w)); [|reflexivity].
  now destruct (ConfigFile.is_undefined _).
Qed.

Lemma getConfig_uses_cache_witness :
  let cached := JObj [(lit "retrieval", JObj [(lit "topK", JNum 7)])] in
  let w := ConfigFile.mkWorld cached [ConfigFile.Loaded] in
  let gone := ConfigFile.Build_Env None (fun _ => None) (fun _ => None) in
  ConfigFile.getConfig gone (lit "retrieval.topK") (lit "TOP_K") (JNum 4) w
  = (JNum 7, w).
Proof.
  cbv zeta.
  destruct (@getConfig_uses_cache
              (ConfigFile.Build_Env (Some (Ok (lit "{}"))) (fun _ => None)
                 (fun _ => None))
              (ConfigFile.Build_Env None (fun _ => None) (fun _ => None))
              (lit "retrieval.topK") (lit "TOP_K") (JNum 4)
              (ConfigFile.mkWorld
                 (JObj [(lit "retrieval", JObj [(lit "topK", JNum 7)])])
                 [ConfigFile.Loaded]))
    as [_ H]; [discriminate|reflexivity|reflexivity|].
  rewrite H. reflexivity.
Defined.

(* ================================================================= *)
(** ** The command line's call of [ask] *)

Section CliFacts.
Import Js Cli.

Lemma index_from_keys l : forall i k,
  In k (map fst (index_from i l)) -> Forall is_digit_char k.
Proof.
  induction l as [|x l IH]; intros i k H; [contradiction|].
  cbn [index_from map fst In] in H. destruct H as [<-|H].
  - apply N_to_chars_digits.
  - eapply IH, H.
Qed.

Lemma input_not_digits : ~ Forall is_digit_char (lit "input").
Proof.
  intros H. inversion H as [|? ? Hd _]; subst.
  unfold is_digit_char in Hd. lia.
Qed.

Lemma obj_set_index_from k v l :
  ~ Forall is_digit_char k ->
  obj_set k v (index_from 0 l) = index_from 0 l ++ [(k, v)].
Proof.
  intros Hk. apply obj_set_fresh. intros Hin. apply Hk.
  eapply index_from_keys, Hin.
Qed.

Lemma obj_get_app_fresh k o o' :
  obj_has k o = false -> obj_get k (o ++ o') = obj_get k o'.
Proof.
  induction o as [|[k' v] o IH]; intros H; [reflexivity|].
  cbn [obj_has] in H. apply orb_false_iff in H as [H1 H2].
  cbn [app obj_get]. rewrite H1. now apply IH.
Qed.

Lemma obj_has_index_from k l : forall i,
  ~ Forall is_digit_char k -> obj_has k (index_from i l) = false.
Proof.
  intros i Hk. destruct (obj_has k (index_from i l)) eqn:E; [|reflexivity].
  apply obj_has_In in E. exfalso. apply Hk. eapply index_from_keys, E.
Qed.

Lemma all_slashes_repeat k : all_slashes (repeat 47%N k) = true.
Proof. induction k; [reflexivity|]. cbn. exact IHk. Qed.

Lemma all_slashes_eq s : all_slashes s = true -> s = repeat 47%N (length s).
Proof.
  induction s as [|x s IH]; intros H; [reflexivity|].
  cbn [all_slashes forallb] in H. apply andb_true_iff in H as [Hx Hs].
  apply N.eqb_eq in Hx. subst x. cbn [length repeat]. f_equal. now apply IH.
Qed.

Lemma all_slashes_last c s :
  (c =? 47)%N && all_slashes s = true -> last (c :: s) 0%N = 47%N.
Proof.
  revert c. induction s as [|x s IH]; intros c H;
    apply andb_true_iff in H as [Hc Hs].
  - now apply N.eqb_eq in Hc.
  - cbn [all_slashes forallb] in Hs. apply andb_true_iff in Hs as [Hx Hs].
    change (last (c :: x :: s) 0%N) with (last (x :: s) 0%N).
    apply IH. rewrite N.eqb_sym, Hx. exact Hs.
Qed.

Lemma strip_trailing_slashes_split s :
  exists k, s = strip_trailing_slashes s ++ repeat 47%N k.
Proof.
  induction s as [|c s [k IH]]; [now exists 0|].
  cbn [strip_trailing_slashes].
  destruct ((c =? 47)%N && all_slashes s) eqn:E.
  - apply andb_true_iff in E as [Ec Es]. apply N.eqb_eq in Ec. subst c.
    exists (S (length s)). cbn [app repeat]. f_equal.
    now apply all_slashes_eq.
  - exists k. cbn [app]. now f_equal.
Qed.

Lemma strip_trailing_slashes_nil s :
  strip_trailing_slashes s = [] -> all_slashes s = true.
Proof.
  intros H. destruct (strip_trailing_slashes_split s) as [k Hk].
  rewrite H in Hk. cbn [app] in Hk. rewrite Hk. apply all_slashes_repeat.
Qed.

Lemma strip_trailing_slashes_last s :
  strip_trailing_slashes s = []
  \/ last (strip_trailing_slashes s) 0%N <> 47%N.
Proof.
  induction s as [|c s IH]; [now left|].
  cbn [strip_trailing_slashes].
  destruct ((c =? 47)%N && all_slashes s) eqn:E; [now left|]. right.
  destruct (strip_trailing_slashes s) as [|x t] eqn:Et.
  - cbn [last]. intros ->.
    rewrite (strip_trailing_slashes_nil s Et) in E. discriminate.
  - destruct IH as [IH|IH]; [discriminate|exact IH].
Qed.

Lemma strip_trailing_slashes_fixed t :
  t = [] \/ last t 0%N <> 47%N -> strip_trailing_slashes t = t.
Proof.
  induction t as [|c t IH]; intros H; [reflexivity|].
  cbn [strip_trailing_slashes].
  destruct ((c =? 47)%N && all_slashes t) eqn:E.
  - destruct H as [H|H]; [discriminate|].
    exfalso. apply H. now apply all_slashes_last.
  - f_equal. apply IH. destruct t as [|x t]; [now left|].
    right. destruct H as [H|H]; [discriminate|exact H].
Qed.

End CliFacts.

(** X19.  The command line calls [ask(ragChain, q)] with two arguments
    while [ask] takes three: the question becomes the [state], and the
    chain is invoked with an object that carries the code units of the
    question under the keys [0], [1], ... and whose [input], the
    property the chain answers, is [undefined].  The answer that is
    printed is the string of [nextState?.answer], or the empty string
    when that is [null] or [undefined], of whatever the chain
    returns. *)
Theorem cli_question_is_not_the_input
  (invoke : jsval -> result jsval) (q : jsstring) :
  let arg :=
    JObj (Js.index_from 0 (map (fun c => JStr [c]) q)
            ++ [(lit "input", JUndefined)]) in
  Cli.ask_question invoke q
  = (nextState <- invoke arg ;;
     Ok (JObj [(lit "state", nextState);
               (lit "answer",
                JStr (Js.to_string
                        (Js.coalesce (Js.get nextState (lit "answer"))
                           (JStr []))));
               (lit "context",
                Js.coalesce (Js.get nextState (lit "context")) (JArr []))]))
  /\ Js.get arg (lit "input") = JUndefined
  /\ forall i c, nth_error q i = Some c ->
       Js.get arg (Js.N_to_chars (N.of_nat i)) = JStr [c].
Proof.
  intros arg. subst arg. split; [|split].
  - unfold Cli.ask_question, Cli.ask. cbn [Js.own_props].
    now rewrite obj_set_index_from by exact input_not_digits.
  - unfold Js.get. cbn [Js.own_props].
    rewrite obj_get_app_fresh
      by (apply obj_has_index_from; exact input_not_digits).
    reflexivity.
  - intros i c Hi. unfold Js.get. cbn [Js.own_props].
    assert (G : forall l j n x,
              nth_error l j = Some x ->
              forall rest,
                Js.obj_get (Js.N_to_chars (n + N.of_nat j))
                  (Js.index_from n l ++ rest) = x).
    { induction l as [|y l IH]; intros j n x Hj rest;
        [destruct j; discriminate|].
      cbn [Js.index_from app Js.obj_get].
      destruct j as [|j].
      - cbn [nth_error] in Hj. injection Hj as <-.
        rewrite N.add_0_r. now rewrite jsstring_eqb_refl.
      - cbn [nth_error] in Hj.
        rewrite jsstring_eqb_neq.
        + replace (n + N.of_nat (S j))%N with (N.succ n + N.of_nat j)%N by lia.
          now apply IH.
        + intros E. unfold Js.N_to_chars in E.
          assert (Hinj : forall a b, Js.uint_chars a = Js.uint_chars b -> a = b).
          { clear. induction a; destruct b; cbn; intros H;
              try discriminate; try reflexivity;
              injection H as H; f_equal; auto. }
          apply Hinj in E. apply (f_equal N.of_uint) in E.
          rewrite !DecimalN.Unsigned.of_to in E. lia. }
    apply (G _ i 0%N (JStr [c])). now rewrite nth_error_map, Hi.
Qed.

(** X20.  The URL that [checkOllamaReady] fetches: the configured base
    URL loses its whole run of trailing slashes and nothing else, so
    that the base neither ends in a slash nor changes when normalised
    again, and the probe is the base followed by [/api/tags]; a base
    URL that is unset or falsy gives the relative URL [/api/tags]. *)
Theorem ollama_probe_url (baseUrl : jsval) :
  let base := Cli.ollama_base baseUrl in
  (exists k, Js.to_string (Js.or_else baseUrl (JStr []))
             = base ++ repeat 47%N k)
  /\ (base = [] \/ last base 0%N <> 47%N)
  /\ Cli.strip_trailing_slashes base = base
  /\ Cli.ollama_tags_url baseUrl = base ++ lit "/api/tags"
  /\ (Js.truthy baseUrl = false ->
      Cli.ollama_tags_url baseUrl = lit "/api/tags").
Proof.
  intros base. subst base. unfold Cli.ollama_tags_url, Cli.ollama_base.
  set (s := Js.to_string (Js.or_else baseUrl (JStr []))).
  split; [apply strip_trailing_slashes_split|].
  split; [apply strip_trailing_slashes_last|].
  split; [|split; [reflexivity|]].
  - apply strip_trailing_slashes_fixed, strip_trailing_slashes_last.
  - intros Hf. subst s. unfold Js.or_else. rewrite Hf. reflexivity.
Qed.

(* ================================================================= *)
(** ** The schema and the queries of the Milvus collection *)

Section SchemaFacts.
Import Js VectorStore.

Lemma differs_false key v : differs key v = false -> v = JStr key.
Proof.
  destruct v; try discriminate. cbn [differs]. intros H.
  apply negb_false_iff, jsstring_eqb_eq in H. now subst.
Qed.

Lemma metadata_field_name entry f :
  metadata_field entry = Some f ->
  name f = JStr (fst entry) /\ is_primary_key f = false.
Proof.
  destruct entry as [key value]. cbn [metadata_field fst].
  destruct value; try discriminate; intros H; injection H as <-; auto.
Qed.

(** The names of the fields kept are names of entries, in their
    order. *)
Lemma keep_fields_names (entries : list (jsstring * jsval)) :
  NoDup (map fst entries) ->
  NoDup (map name (keep_fields (map metadata_field entries)))
  /\ (forall n, In n (map name (keep_fields (map metadata_field entries))) ->
      exists key, n = JStr key /\ In key (map fst entries)).
Proof.
  induction entries as [|entry entries IH]; intros Hnd.
  - split; [constructor|]. intros n [].
  - cbn [map fst] in Hnd. inversion Hnd as [|? ? Hnot Hnd']; subst.
    destruct (IH Hnd') as [IHn IHi]. cbn [map keep_fields].
    destruct (metadata_field entry) as [f|] eqn:E.
    + apply metadata_field_name in E as [En _]. cbn [map].
      split.
      * constructor; [|exact IHn]. rewrite En. intros Hin.
        destruct (IHi _ Hin) as (key & Hk & Hin'). injection Hk as <-.
        contradiction.
      * intros n [<-|Hin].
        -- exists (fst entry). split; [exact En|now left].
        -- destruct (IHi _ Hin) as (key & -> & Hin').
           exists key. split; [reflexivity|now right].
    + split; [exact IHn|].
      intros n Hin. destruct (IHi _ Hin) as (key & -> & Hin').
      exists key. split; [reflexivity|now right].
Qed.

Lemma keep_fields_not_primary (entries : list (jsstring * jsval)) :
  filter is_primary_key (keep_fields (map metadata_field entries)) = [].
Proof.
  induction entries as [|entry entries IH]; [reflexivity|].
  cbn [map keep_fields].
  destruct (metadata_field entry) as [f|] eqn:E; [|exact IH].
  apply metadata_field_name in E as [_ Ep]. cbn [filter]. now rewrite Ep.
Qed.

Lemma NoDup_map_filter {A B : Type} (f : A -> B) (p : A -> bool) l :
  NoDup (map f l) -> NoDup (map f (filter p l)).
Proof.
  induction l as [|x l IH]; intros H; [constructor|].
  cbn [map] in H. inversion H as [|? ? Hnot Hnd]; subst. cbn [filter].
  destruct (p x); [|now apply IH].
  cbn [map]. constructor; [|now apply IH].
  intros Hin. apply Hnot. apply in_map_iff in Hin as (y & Hy & Hin).
  apply filter_In in Hin as [Hin _]. apply in_map_iff. now exists y.
Qed.

Lemma filter_truthy_all (l : list jsval) (p : jsval -> bool) :
  (forall x, p x = true -> truthy x = true) ->
  Forall (fun x => truthy x = true) (filter p l).
Proof.
  intros Hp. induction l as [|x l IH]; [constructor|].
  cbn [filter]. destruct (p x) eqn:E; [|exact IH].
  constructor; [now apply Hp|exact IH].
Qed.

End SchemaFacts.

(** X21.  The schema that [ensureCollection] creates has exactly one
    primary-key field, the auto-id one.  Its field names are pairwise
    distinct whenever the names of the primary, text and vector fields
    differ from one another and no key of the sample metadata is the
    name of the text or of the vector field; a metadata key equal to
    the primary field or the partition key is left out by the code
    itself. *)
Theorem schema_fields_distinct
  (vectorStore : jsval) (dim : nat) (documents : list jsval) :
  let sampleMetadata :=
    Js.coalesce (Js.get (nth 0 documents JUndefined) (lit "metadata"))
      (JObj []) in
  let primary := Js.get vectorStore (lit "primaryField") in
  let text := Js.get vectorStore (lit "textField") in
  let vector := Js.get vectorStore (lit "vectorField") in
  NoDup (map fst (Js.own_props sampleMetadata)) ->
  primary <> text -> primary <> vector -> text <> vector ->
  (forall key, In key (map fst (Js.own_props sampleMetadata)) ->
               JStr key <> text /\ JStr key <> vector) ->
  NoDup (map VectorStore.name (VectorStore.fields vectorStore dim documents))
  /\ map VectorStore.name
       (filter VectorStore.is_primary_key
          (VectorStore.fields vectorStore dim documents))
     = [primary].
Proof.
  intros meta primary text vector Hnd Hpt Hpv Htv Hkeys.
  unfold VectorStore.fields. fold meta. fold primary. fold text. fold vector.
  unfold VectorStore.metadataFields. fold primary.
  set (kept := filter _ (Js.own_props meta)).
  assert (Hkept : NoDup (map fst kept)) by (now apply NoDup_map_filter).
  destruct (keep_fields_names kept Hkept) as [Hn Hin].
  assert (Hsub : forall n,
    In n (map VectorStore.name
            (VectorStore.keep_fields (map VectorStore.metadata_field kept))) ->
    n <> primary /\ n <> text /\ n <> vector).
  { intros n Hn'. destruct (Hin _ Hn') as (key & -> & Hk).
    apply in_map_iff in Hk as ([k v] & Hk & Hkv). cbn [fst] in Hk. subst k.
    apply filter_In in Hkv as [Hkv Hf]. cbn [fst] in Hf.
    apply andb_true_iff in Hf as [Hf _].
    assert (Hkey : In key (map fst (Js.own_props meta)))
      by (apply in_map_iff; now exists (key, v)).
    destruct (Hkeys _ Hkey) as [H1 H2].
    repeat split; auto.
    intros E. rewrite <- E in Hf. cbn [VectorStore.differs] in Hf.
    now rewrite jsstring_eqb_refl in Hf. }
  split.
  - rewrite map_app. cbn [map VectorStore.name].
    apply NoDup_app; [exact Hn| |].
    + repeat constructor; cbn [In]; intuition congruence.
    + intros n Hn' Hn''. destruct (Hsub _ Hn') as (H1 & H2 & H3).
      cbn [In] in Hn''. intuition congruence.
  - rewrite filter_app, keep_fields_not_primary. reflexivity.
Qed.

Lemma schema_fields_distinct_witness :
  let vectorStore :=
    JObj [(lit "primaryField", JStr (lit "langchain_primaryid"));
          (lit "textField", JStr (lit "text"));
          (lit "vectorField", JStr (lit "vector"))] in
  let documents :=
    [JObj [(lit "pageContent", JStr (lit "hello"));
           (lit "metadata",
            JObj [(lit "source", JStr (lit "a.md"));
                  (lit "page", JNum 3);
                  (lit "langchain_primaryid", JNum 1);
                  (lit "draft", JBool true);
                  (lit "author", JNull)])]] in
  map VectorStore.name (VectorStore.fields vectorStore 768 documents)
  = [JStr (lit "source"); JStr (lit "page"); JStr (lit "draft");
     JStr (lit "langchain_primaryid"); JStr (lit "text");
     JStr (lit "vector")]
  /\ NoDup (map VectorStore.name (VectorStore.fields vectorStore 768 documents)).
Proof.
  cbv zeta. split; [vm_compute; reflexivity|].
  apply (@schema_fields_distinct
           (JObj [(lit "primaryField", JStr (lit "langchain_primaryid"));
                  (lit "textField", JStr (lit "text"));
                  (lit "vectorField", JStr (lit "vector"))])
           768
           [JObj [(lit "pageContent", JStr (lit "hello"));
                  (lit "metadata",
                   JObj [(lit "source", JStr (lit "a.md"));
                         (lit "page", JNum 3);
                         (lit "langchain_primaryid", JNum 1);
                         (lit "draft", JBool true);
                         (lit "author", JNull)])]]).
  - vm_compute. repeat constructor; cbn [In]; intuition discriminate.
  - discriminate.
  - discriminate.
  - discriminate.
  - vm_compute. intuition (subst; discriminate).
Defined.

(** X22.  The query of [showVectorStore] always asks for at least one
    output field, never for a falsy name, and, as soon as the schema
    lists one named field other than the vector field, never for the
    vector field; its filter expression always compares a non-empty
    field name with zero. *)
Theorem show_query_fields
  (vectorStore : jsval) (schemaFields : list (list (jsstring * jsval))) :
  let final := VectorStore.final_output_fields vectorStore schemaFields in
  final <> []
  /\ Forall (fun n => Js.truthy n = true) final
  /\ (VectorStore.output_fields vectorStore schemaFields <> [] ->
      Forall (fun n => VectorStore.strict_eq n
                         (Js.get vectorStore (lit "vectorField")) = false)
        final)
  /\ exists p, p <> []
               /\ VectorStore.expr vectorStore schemaFields = p ++ lit " >= 0".
Proof.
  intros final. subst final. unfold VectorStore.final_output_fields.
  assert (Hout : Forall (fun n => Js.truthy n = true
                          /\ VectorStore.strict_eq n
                               (Js.get vectorStore (lit "vectorField")) = false)
                   (VectorStore.output_fields vectorStore schemaFields)).
  { unfold VectorStore.output_fields.
    induction (map _ schemaFields) as [|x l IH]; [constructor|].
    cbn [filter]. destruct (Js.truthy x && _) eqn:E; [|exact IH].
    apply andb_true_iff in E as [E1 E2]. apply negb_true_iff in E2.
    constructor; auto. }
  destruct (VectorStore.output_fields vectorStore schemaFields) as [|f fs].
  - split.
    + intros H.
      assert (Hin : In (JStr (lit "source"))
                      (filter Js.truthy
                         [Js.get vectorStore (lit "primaryField");
                          Js.get vectorStore (lit "textField");
                          JStr (lit "source")]))
        by (apply filter_In; split; [cbn [In]; auto|reflexivity]).
      rewrite H in Hin. contradiction.
    + split; [now apply filter_truthy_all|].
      split; [intros H; contradiction|].
      unfold VectorStore.expr.
      destruct (VectorStore.primaryField vectorStore schemaFields)
        as [| | | |[|c p]| |];
        try (exists (lit "pk"); split; [discriminate|reflexivity]).
      exists (c :: p). split; [discriminate|reflexivity].
  - split; [discriminate|].
    split; [eapply Forall_impl; [|exact Hout]; cbn; tauto|].
    split; [intros _; eapply Forall_impl; [|exact Hout]; cbn; tauto|].
    unfold VectorStore.expr.
    destruct (VectorStore.primaryField vectorStore schemaFields)
      as [| | | |[|c p]| |];
      try (exists (lit "pk"); split; [discriminate|reflexivity]).
    exists (c :: p). split; [discriminate|reflexivity].
Qed.

(* ================================================================= *)
(** ** Building or loading the collection *)

Section BuildFacts.
Import Js VectorStore.

Variable env : Env.
Variable collectionName : jsstring.

Lemma deleteVectorStore_run w :
  deleteVectorStore env w
  = match answer env (length w) NewMilvus with
    | Ok _ => (Ok tt, w ++ [NewMilvus] ++ [DropCollection])
    | Throw e => (Throw e, w ++ [NewMilvus])
    end.
Proof.
  unfold deleteVectorStore, loadVectorStore, mbind, try_catch, call, ret.
  destruct (answer env (length w) NewMilvus); [|reflexivity].
  rewrite <- app_assoc.
  now destruct (answer env (length (w ++ [NewMilvus])) DropCollection).
Qed.

End BuildFacts.

(** X23.  A collection that exists is used as it is: when the client
    says that the collection exists and loads it, [buildOrLoadVectorStore]
    returns the store after exactly three calls (constructor,
    [hasCollection], [loadCollectionSync]), whatever documents were
    passed: they are not inserted. *)
Theorem existing_collection_untouched
  (env : VectorStore.Env) (collectionName : jsstring)
  (documents : option (list jsval)) (w : VectorStore.World)
  (vectorStore res loaded : jsval) :
  VectorStore.answer env (length w) VectorStore.NewMilvus = Ok vectorStore ->
  VectorStore.answer env (S (length w)) VectorStore.HasCollection = Ok res ->
  Js.get res (lit "value") = JBool true ->
  VectorStore.answer env (S (S (length w))) VectorStore.LoadCollectionSync
    = Ok loaded ->
  VectorStore.buildOrLoadVectorStore env collectionName documents w
  = (Ok vectorStore,
     w ++ [VectorStore.NewMilvus; VectorStore.HasCollection;
           VectorStore.LoadCollectionSync]).
Proof.
  intros Hnew Hhas Hval Hload.
  unfold VectorStore.buildOrLoadVectorStore, VectorStore.try_catch,
    VectorStore.buildOrLoad_body, VectorStore.loadVectorStore,
    VectorStore.checkCollectionExists, VectorStore.mbind,
    VectorStore.try_catch, VectorStore.call, VectorStore.ret.
  rewrite Hnew. rewrite !length_app. cbn [length].
  rewrite Nat.add_1_r, Hhas, Hval. cbn [VectorStore.is_true].
  rewrite !length_app. cbn [length]. rewrite !Nat.add_1_r, Hload.
  now rewrite <- !app_assoc.
Qed.

Lemma existing_collection_untouched_witness :
  let env :=
    VectorStore.Build_Env
      (fun _ c =>
         match c with
         | VectorStore.HasCollection => Ok (JObj [(lit "value", JBool true)])
         | _ => Ok (JObj [])
         end) in
  VectorStore.buildOrLoadVectorStore env (lit "langchain_docs")
    (Some [JObj [(lit "pageContent", JStr (lit "new text"))]]) []
  = (Ok (JObj []),
     [VectorStore.NewMilvus; VectorStore.HasCollection;
      VectorStore.LoadCollectionSync]).
Proof.
  cbv zeta.
  exact (@existing_collection_untouched
           (VectorStore.Build_Env
              (fun _ c =>
                 match c with
                 | VectorStore.HasCollection =>
                     Ok (JObj [(lit "value", JBool true)])
                 | _ => Ok (JObj [])
                 end))
           (lit "langchain_docs")
           (Some [JObj [(lit "pageContent", JStr (lit "new text"))]]) []
           (JObj []) (JObj [(lit "value", JBool true)]) (JObj [])
           eq_refl eq_refl eq_refl eq_refl).
Defined.

(** X24.  Whatever fails inside [buildOrLoadVectorStore], the
    collection is deleted before the error goes on: the constructor is
    called again and, when it returns, [dropCollection] is called (its
    own failure is ignored) and the original error is thrown; when the
    constructor throws, its error replaces the original one.  This
    includes a collection that existed and only failed to load. *)
Theorem build_failure_drops_collection
  (env : VectorStore.Env) (collectionName : jsstring)
  (documents : option (list jsval)) (w w1 : VectorStore.World) (err : Error) :
  VectorStore.buildOrLoad_body env collectionName documents w
    = (Throw err, w1) ->
  VectorStore.buildOrLoadVectorStore env collectionName documents w
  = match VectorStore.answer env (length w1) VectorStore.NewMilvus with
    | Ok _ =>
        (Throw err,
         w1 ++ [VectorStore.NewMilvus] ++ [VectorStore.DropCollection])
    | Throw e => (Throw e, w1 ++ [VectorStore.NewMilvus])
    end.
Proof.
  intros H. unfold VectorStore.buildOrLoadVectorStore, VectorStore.try_catch.
  rewrite H. unfold VectorStore.mbind. rewrite deleteVectorStore_run.
  now destruct (VectorStore.answer env (length w1) VectorStore.NewMilvus).
Qed.

Lemma build_failure_drops_collection_witness :
  let env :=
    VectorStore.Build_Env
      (fun _ c =>
         match c with
         | VectorStore.HasCollection => Ok (JObj [(lit "value", JBool true)])
         | VectorStore.LoadCollectionSync => Throw (External 14)
         | _ => Ok (JObj [])
         end) in
  VectorStore.buildOrLoadVectorStore env (lit "langchain_docs") None []
  = (Throw (External 14),
     [VectorStore.NewMilvus; VectorStore.HasCollection;
      VectorStore.LoadCollectionSync; VectorStore.NewMilvus;
      VectorStore.DropCollection]).
Proof.
  cbv zeta.
  exact (@build_failure_drops_collection
           (VectorStore.Build_Env
              (fun _ c =>
                 match c with
                 | VectorStore.HasCollection =>
                     Ok (JObj [(lit "value", JBool true)])
                 | VectorStore.LoadCollectionSync => Throw (External 14)
                 | _ => Ok (JObj [])
                 end))
           (lit "langchain_docs") None []
           [VectorStore.NewMilvus; VectorStore.HasCollection;
            VectorStore.LoadCollectionSync] (External 14) eq_refl).
Defined.

(* ================================================================= *)
(** ** The prompt loop of the command line *)

Section LoopFacts.
Import Think Cli.

Lemma ci_eq_cases p c :
  ci_eq p c = true ->
  c = p \/ ((97 <= p <= 122)%N /\ c = (p - 32)%N).
Proof.
  unfold ci_eq.
  rewrite orb_true_iff, !andb_true_iff, !N.eqb_eq, !N.leb_le. tauto.
Qed.

Lemma letter_not_space c : (65 <= c <= 122)%N -> is_space c = false.
Proof.
  intros H. unfold is_space.
  assert (E1 : (c <=? 13)%N = false) by (apply N.leb_gt; lia).
  assert (E2 : (c =? 32)%N = false) by (apply N.eqb_neq; lia).
  assert (E3 : (c =? 160)%N = false) by (apply N.eqb_neq; lia).
  assert (E4 : (c =? 5760)%N = false) by (apply N.eqb_neq; lia).
  assert (E5 : (8192 <=? c)%N = false) by (apply N.leb_gt; lia).
  assert (E6 : (c =? 8232)%N = false) by (apply N.eqb_neq; lia).
  assert (E7 : (c =? 8233)%N = false) by (apply N.eqb_neq; lia).
  assert (E8 : (c =? 8239)%N = false) by (apply N.eqb_neq; lia).
  assert (E9 : (c =? 8287)%N = false) by (apply N.eqb_neq; lia).
  assert (E10 : (c =? 12288)%N = false) by (apply N.eqb_neq; lia).
  assert (E11 : (c =? 65279)%N = false) by (apply N.eqb_neq; lia).
  rewrite E1, E2, E3, E4, E5, E6, E7, E8, E9, E10, E11.
  now rewrite andb_false_r.
Qed.

(** A word of lower-case letters is matched by letters only. *)
Lemma is_tag_letters word : forall q,
  Forall (fun p => (97 <= p <= 122)%N) word -> is_tag word q ->
  Forall (fun c => is_space c = false) q.
Proof.
  induction word as [|p word IH]; intros q Hw Hq; inversion Hq; subst.
  - constructor.
  - inversion Hw; subst. constructor; [|now apply IH].
    apply letter_not_space.
    match goal with E : ci_eq p _ = true |- _ =>
      apply ci_eq_cases in E as [->|[_ ->]] end; lia.
Qed.

Lemma lowered_is_tag word : forall q,
  lowered_is word q = true <-> is_tag word q.
Proof.
  unfold is_tag.
  induction word as [|p word IH]; intros [|c q]; cbn [lowered_is];
    try (split; [discriminate|intros H; inversion H]).
  - split; [constructor|reflexivity].
  - rewrite andb_true_iff, IH. split.
    + intros [H1 H2]. now constructor.
    + intros H. inversion H; subst. auto.
Qed.

Lemma drop_spaces_all ws : forall rest,
  Forall (fun c => is_space c = true) ws ->
  drop_spaces (ws ++ rest) = drop_spaces rest.
Proof.
  induction ws as [|c ws IH]; intros rest H; [reflexivity|].
  inversion H; subst. cbn [app drop_spaces].
  match goal with E : is_space c = true |- _ => rewrite E end.
  now apply IH.
Qed.

Lemma drop_spaces_word w rest :
  w <> [] -> Forall (fun c => is_space c = false) w ->
  drop_spaces (w ++ rest) = w ++ rest.
Proof.
  intros Hne H. destruct w as [|c w]; [contradiction|].
  inversion H; subst. cbn [app drop_spaces].
  match goal with E : is_space c = false |- _ => now rewrite E end.
Qed.

Lemma drop_spaces_only ws :
  Forall (fun c => is_space c = true) ws -> drop_spaces ws = [].
Proof.
  intros H. rewrite <- (List.app_nil_r ws).
  now rewrite drop_spaces_all.
Qed.

Lemma trim_padded ws w ws' :
  Forall (fun c => is_space c = true) ws ->
  Forall (fun c => is_space c = true) ws' ->
  w <> [] -> Forall (fun c => is_space c = false) w ->
  trim (ws ++ w ++ ws') = w.
Proof.
  intros Hws Hws' Hne Hw. unfold trim.
  rewrite drop_spaces_all by exact Hws.
  rewrite drop_spaces_word by assumption.
  rewrite rev_app_distr.
  rewrite drop_spaces_all by (now apply Forall_rev).
  rewrite <- (List.app_nil_r (rev w)).
  rewrite drop_spaces_word.
  - rewrite List.app_nil_r. apply rev_involutive.
  - intros E. apply (f_equal (@rev N)) in E.
    rewrite rev_involutive in E. contradiction.
  - now apply Forall_rev.
Qed.

Lemma trim_blank ws :
  Forall (fun c => is_space c = true) ws -> trim ws = [].
Proof.
  intros H. unfold trim. now rewrite (@drop_spaces_only ws H).
Qed.

(** Two different lower-case letters are not confused. *)
Lemma ci_eq_other p p' c :
  (97 <= p <= 122)%N -> (97 <= p' <= 122)%N -> p <> p' ->
  ci_eq p c = true -> ci_eq p' c = false.
Proof.
  intros Hp Hp' Hne H. apply ci_eq_cases in H.
  unfold ci_eq. apply orb_false_iff. split.
  - apply N.eqb_neq. destruct H as [->|[_ ->]]; lia.
  - apply andb_false_iff. right. apply N.eqb_neq.
    destruct H as [->|[_ ->]]; lia.
Qed.

End LoopFacts.

(** X25.  The prompt loop recognises [exit], [show] and [rebuild] in
    any letter case and with any white space around them; a line of
    white space only makes it prompt again; every other line is asked:
    a line that, without its leading and trailing white space, is not
    empty and is none of the three words in any letter case, is asked
    as that text; and nothing else is asked, never the empty string. *)
Theorem cli_commands (ws ws' w : jsstring) :
  Forall (fun c => Think.is_space c = true) ws ->
  Forall (fun c => Think.is_space c = true) ws' ->
  Cli.command ws = Cli.Again
  /\ (Think.is_tag (lit "exit") w -> Cli.command (ws ++ w ++ ws') = Cli.Exit)
  /\ (Think.is_tag (lit "show") w -> Cli.command (ws ++ w ++ ws') = Cli.Show)
  /\ (Think.is_tag (lit "rebuild") w ->
      Cli.command (ws ++ w ++ ws') = Cli.Rebuild)
  /\ (forall input,
        Cli.trim input <> [] ->
        ~ Think.is_tag (lit "exit") (Cli.trim input) ->
        ~ Think.is_tag (lit "show") (Cli.trim input) ->
        ~ Think.is_tag (lit "rebuild") (Cli.trim input) ->
        Cli.command input = Cli.Ask (Cli.trim input))
  /\ (forall input q,
        Cli.command input = Cli.Ask q -> q = Cli.trim input /\ q <> []).
Proof.
  intros Hws Hws'.
  assert (Htrim : forall word,
    Forall (fun p => (97 <= p <= 122)%N) word -> word <> [] ->
    Think.is_tag word w -> Cli.trim (ws ++ w ++ ws') = w /\ w <> []).
  { intros word Hl Hne Ht.
    assert (Hw : w <> []).
    { intros ->. inversion Ht; subst. contradiction. }
    split; [|exact Hw].
    apply trim_padded; auto. eapply is_tag_letters; eauto. }
  split; [|split; [|split; [|split; [|split]]]].
  - unfold Cli.command. now rewrite trim_blank.
  - intros Ht. unfold Cli.command.
    destruct (Htrim (lit "exit")) as [-> Hne];
      [change (lit "exit") with [101; 120; 105; 116]%N; repeat constructor; lia
      |discriminate|exact Ht|].
    destruct w as [|c w]; [contradiction|].
    now rewrite (proj2 (lowered_is_tag (lit "exit") (c :: w)) Ht).
  - intros Ht. unfold Cli.command.
    destruct (Htrim (lit "show")) as [-> Hne];
      [change (lit "show") with [115; 104; 111; 119]%N; repeat constructor; lia
      |discriminate|exact Ht|].
    destruct w as [|c w]; [contradiction|].
    rewrite (proj2 (lowered_is_tag (lit "show") (c :: w)) Ht).
    assert (E : Cli.lowered_is (lit "exit") (c :: w) = false).
    { inversion Ht; subst. change (lit "exit") with (101%N :: lit "xit").
      cbn [Cli.lowered_is].
      rewrite (@ci_eq_other 115 101 c) by (lia || assumption). reflexivity. }
    now rewrite E.
  - intros Ht. unfold Cli.command.
    destruct (Htrim (lit "rebuild")) as [-> Hne];
      [change (lit "rebuild") with [114; 101; 98; 117; 105; 108; 100]%N; repeat constructor; lia
      |discriminate|exact Ht|].
    destruct w as [|c w]; [contradiction|].
    rewrite (proj2 (lowered_is_tag (lit "rebuild") (c :: w)) Ht).
    assert (E1 : Cli.lowered_is (lit "exit") (c :: w) = false).
    { inversion Ht; subst. change (lit "exit") with (101%N :: lit "xit").
      cbn [Cli.lowered_is].
      rewrite (@ci_eq_other 114 101 c) by (lia || assumption). reflexivity. }
    assert (E2 : Cli.lowered_is (lit "show") (c :: w) = false).
    { inversion Ht; subst. change (lit "show") with (115%N :: lit "how").
      cbn [Cli.lowered_is].
      rewrite (@ci_eq_other 114 115 c) by (lia || assumption). reflexivity. }
    now rewrite E1, E2.
  - intros input Hne He Hs Hr. unfold Cli.command.
    destruct (Cli.trim input) as [|c t]; [contradiction|].
    destruct (Cli.lowered_is (lit "exit") (c :: t)) eqn:E1;
      [now apply lowered_is_tag in E1|].
    destruct (Cli.lowered_is (lit "show") (c :: t)) eqn:E2;
      [now apply lowered_is_tag in E2|].
    destruct (Cli.lowered_is (lit "rebuild") (c :: t)) eqn:E3;
      [now apply lowered_is_tag in E3|].
    reflexivity.
  - intros input q. unfold Cli.command.
    destruct (Cli.trim input) as [|c t]; [discriminate|].
    destruct (Cli.lowered_is (lit "exit") (c :: t)); [discriminate|].
    destruct (Cli.lowered_is (lit "show") (c :: t)); [discriminate|].
    destruct (Cli.lowered_is (lit "rebuild") (c :: t)); [discriminate|].
    intros H. injection H as <-. split; [reflexivity|discriminate].
Qed.

Lemma cli_commands_witness :
  Cli.command [32; 9]%N = Cli.Again
  /\ Cli.command (lit "  " ++ lit "ExIt" ++ [32; 10]%N) = Cli.Exit
  /\ Cli.command (lit " what is RAG? ") = Cli.Ask (lit "what is RAG?").
Proof.
  destruct (@cli_commands (lit "  ") [32; 10]%N (lit "ExIt"))
    as (_ & Hexit & _); [repeat constructor..|].
  destruct (@cli_commands [32; 9]%N [] [])
    as (Hagain & _ & _ & _ & Hask & _); [repeat constructor..|].
  split; [exact Hagain|]. split.
  - apply Hexit. repeat constructor.
  - apply (Hask (lit " what is RAG? ")).
    + discriminate.
    + intros H. apply lowered_is_tag in H. discriminate.
    + intros H. apply lowered_is_tag in H. discriminate.
    + intros H. apply lowered_is_tag in H. discriminate.
Defined.

(** X26.  The loop ends at the first [exit]: the lines before it are
    handled one by one, and no line after it is read. *)
Theorem cli_session_ends_at_exit (before after : list jsstring)
  (line : jsstring) :
  Forall (fun input => Cli.command input <> Cli.Exit) before ->
  Cli.command line = Cli.Exit ->
  Cli.session (before ++ line :: after) = map Cli.command before ++ [Cli.Exit].
Proof.
  intros Hb Hl. induction Hb as [|input before Hi _ IH].
  - cbn [app Cli.session map]. now rewrite Hl.
  - cbn [app Cli.session map]. rewrite IH.
    destruct (Cli.command input); try reflexivity. contradiction.
Qed.

Lemma cli_session_ends_at_exit_witness :
  Cli.session [lit "hello"; []; lit " EXIT "; lit "show"; lit "more"]
  = [Cli.Ask (lit "hello"); Cli.Again; Cli.Exit].
Proof.
  apply (@cli_session_ends_at_exit [lit "hello"; []] [lit "show"; lit "more"]
           (lit " EXIT ")).
  - repeat constructor; discriminate.
  - reflexivity.
Defined.

(* ================================================================= *)
(** ** What [show] prints for a field *)

Section ShowFacts.
Import Js Cli.

Lemma firstn_200_cut (s t : jsstring) :
  200 < length s -> firstn 200 (firstn 200 s ++ t) = firstn 200 s.
Proof.
  intros H.
  assert (L : length (firstn 200 s) = 200)
    by (rewrite length_firstn; lia).
  rewrite firstn_app, L, Nat.sub_diag, firstn_O, List.app_nil_r.
  now rewrite firstn_firstn, Nat.min_id.
Qed.

Lemma cut_length (s : jsstring) :
  200 < length s -> length (firstn 200 s ++ lit "...") = 203.
Proof.
  intros H. rewrite length_app, length_firstn.
  change (length (lit "...")) with 3. lia.
Qed.

End ShowFacts.

(** X30.  The line that [show] prints for a text field is the key, a
    colon and a space, and a text of at most 203 code units that begins
    as the value does: a value of at most 200 code units whole, a longer
    one as its first 200 code units and three dots.  Cutting a second
    time changes nothing. *)
Theorem show_field_bounded (key s : jsstring) :
  exists d,
    Cli.show_field key (JStr s) = key ++ lit ": " ++ d
    /\ length d <= 203
    /\ firstn 200 d = firstn 200 s
    /\ Cli.shown (JStr d) = JStr d
    /\ ((length s <= 200 /\ d = s)
        \/ (200 < length s /\ d = firstn 200 s ++ lit "...")).
Proof.
  unfold Cli.show_field, Cli.shown.
  destruct (200 <? length s) eqn:E.
  - apply Nat.ltb_lt in E. exists (firstn 200 s ++ lit "...").
    pose proof (@cut_length s E) as L.
    split; [reflexivity|]. split; [lia|].
    split; [now apply firstn_200_cut|]. split.
    + assert (E2 : (200 <? length (firstn 200 s ++ lit "...")) = true)
        by (apply Nat.ltb_lt; lia).
      rewrite E2. now rewrite firstn_200_cut.
    + right. now split.
  - exists s. pose proof E as E'. apply Nat.ltb_ge in E'.
    split; [reflexivity|]. split; [lia|]. split; [reflexivity|].
    split; [now rewrite E|]. left. now split.
Qed.
